(** * Voice-activity-gated audio streaming (funciona2/mic_motorista.ino)

    A shallow embedding of the Arduino sketch: the capture callback
    [onPDMdata], the main [loop], the energy detector and hysteresis
    state machine [processAudioWithVAD], the packet framer
    [sendAudioData], the checksum [calculateCRC16] and the values of
    [printStatus]; in module [Legacy], the framer and checksum of the
    older sketch, which splits a capture; in module [Passenger], the
    sketch of the second microphone, which sends every capture; and, in
    module [Imu], the loop of the motion sensor sketch.

    Conventions.  C integers are values of [Z] with the conversion to the
    declared width written at every assignment ([u8], [u16], [u32] for
    the unsigned types, [i16], [i32] for [short] and [int]; signed
    overflow, undefined in C++, is taken as two's complement wrap-around,
    which is what the ARM targets of the sketch do).  The two global
    arrays are kept as their byte images (little endian, as on the
    target), so that [memcpy], [udp.write] and the checksum see exactly
    the bytes the sketch hands them.  Undefined behaviour that the sketch
    can reach (a division by zero, a capture larger than the buffer) is a
    [Fault].  Output (datagrams and console lines) is returned as a list
    of effects, oldest first.

    The state is the globals of the sketch as [setup] leaves them.  The
    collaborators are inputs: a capture is the list of bytes the PDM
    driver holds when it calls back, a pass of the loop reads the link
    status, the clock and the result of the send from an [env].  The
    callback is taken to run between two passes of the loop, never inside
    one.  [setup] and [connectWiFi] touch none of the audio globals and
    are not modelled; of the periodic status report the model has the
    timer test and the values printed. *)

From Stdlib Require Import ZArith List Lia Bool Permutation.
From Stdlib Require Import Strings.Byte.
Import ListNotations.

Local Open Scope Z_scope.

(** ** Fixed-width integers *)

Module CInt.

Definition u8 (z : Z) : Z := z mod 2 ^ 8.
Definition u16 (z : Z) : Z := z mod 2 ^ 16.
Definition u32 (z : Z) : Z := z mod 2 ^ 32.
Definition i16 (z : Z) : Z := (z + 2 ^ 15) mod 2 ^ 16 - 2 ^ 15.
Definition i32 (z : Z) : Z := (z + 2 ^ 31) mod 2 ^ 32 - 2 ^ 31.

Definition byte_val (b : byte) : Z := Z.of_N (Byte.to_N b).

Definition byte_of_Z (z : Z) : byte :=
  match Byte.of_N (Z.to_N (u8 z)) with
  | Some b => b
  | None => x00
  end.

(** [n] bytes of [z], least significant first. *)
Fixpoint le_bytes (n : nat) (z : Z) : list byte :=
  match n with
  | O => []
  | S n' => byte_of_Z z :: le_bytes n' (Z.shiftr z 8)
  end.

#[global] Arguments u8 z : simpl never.
#[global] Arguments u16 z : simpl never.
#[global] Arguments u32 z : simpl never.
#[global] Arguments i16 z : simpl never.
#[global] Arguments i32 z : simpl never.

End CInt.
Import CInt.

(** ** Configuration constants of the sketch *)

Definition DEVICE_ID : Z := 1.
Definition SAMPLE_RATE : Z := 16000.
Definition BUFFER_SIZE : Z := 512.
Definition PACKET_SIZE : Z := 480.

Definition ENERGY_THRESHOLD : Z := 800.
Definition SILENCE_FRAMES : Z := 10.
Definition MIN_VOICE_FRAMES : Z := 3.

(** ** Faults and effects *)

Inductive fault : Type :=
| DivisionByZero   (* energy /= samplesRead with samplesRead = 0 *)
| BufferOverrun.   (* PDM.read of more bytes than audioBuffer holds *)

Inductive result (A : Type) : Type :=
| Ok (a : A)
| Fault (f : fault).
Arguments Ok {A} a.
Arguments Fault {A} f.

Definition bind {A B : Type} (r : result A) (k : A -> result B) : result B :=
  match r with
  | Ok a => k a
  | Fault f => Fault f
  end.

Notation "x <- r ;; k" := (bind r (fun x => k))
  (at level 61, r at next level, right associativity).
Notation "' p <- r ;; k" := (bind r (fun p => k))
  (at level 61, p pattern, r at next level, right associativity).

(** The header of a datagram, field by field as [struct AudioPacket]. *)
Record AudioPacket : Type := mkAudioPacket {
  sequence : Z;       (* uint32_t *)
  timestamp : Z;      (* uint32_t *)
  device_id : Z;      (* uint16_t *)
  sample_rate : Z;    (* uint16_t *)
  samples_count : Z;  (* uint16_t *)
  checksum : Z;       (* uint16_t *)
  flags : Z;          (* uint8_t, bit 0: start, bit 1: end *)
  reserved : Z        (* uint8_t *)
}.

(** The console lines of the audio path. *)
Inductive message : Type :=
| MsgVoiceStart    (* "VOZ DETECTADA - Iniciando transmissao" *)
| MsgSilenceEnd    (* "SILENCIO - Transmissao finalizada" *)
| MsgUdpFail       (* "ERRO: Falha UDP" *)
| MsgWifiLost.     (* "WiFi perdido, reconectando..." *)

Inductive effect : Type :=
| UdpDatagram (hdr : AudioPacket) (payload : list byte)
| SerialPrintln (m : message).

(** The struct is [packed]: its image is the fields one after the other. *)
Definition header_bytes (h : AudioPacket) : list byte :=
  le_bytes 4 (sequence h) ++ le_bytes 4 (timestamp h) ++
  le_bytes 2 (device_id h) ++ le_bytes 2 (sample_rate h) ++
  le_bytes 2 (samples_count h) ++ le_bytes 2 (checksum h) ++
  le_bytes 1 (flags h) ++ le_bytes 1 (reserved h).

(** What [udp.write(&header, sizeof(header)); udp.write(sendBuffer, n)]
    puts on the wire. *)
Definition datagram_bytes (h : AudioPacket) (payload : list byte) : list byte :=
  header_bytes h ++ payload.

(** ** Program state: the globals of the sketch *)

Record state : Type := mkState {
  audioBuffer : list byte;     (* short audioBuffer[BUFFER_SIZE], 1024 bytes *)
  sendBuffer : list byte;      (* short sendBuffer[PACKET_SIZE/2], 480 bytes *)
  samplesRead : Z;             (* volatile int *)
  audioReady : bool;           (* volatile bool *)
  silenceCounter : Z;          (* int *)
  voiceCounter : Z;            (* int *)
  isTransmitting : bool;
  lastActivityTime : Z;        (* uint32_t *)
  packetSequence : Z           (* uint32_t *)
}.

Definition initial_state : state :=
  {| audioBuffer := repeat x00 (Z.to_nat (2 * BUFFER_SIZE));
     sendBuffer := repeat x00 (Z.to_nat PACKET_SIZE);
     samplesRead := 0;
     audioReady := false;
     silenceCounter := 0;
     voiceCounter := 0;
     isTransmitting := false;
     lastActivityTime := 0;
     packetSequence := 0 |}.

(** What one pass of [loop] reads from its collaborators. *)
Record env : Type := mkEnv {
  wifi_connected : bool;   (* WiFi.status() == WL_CONNECTED *)
  millis_vad : Z;          (* millis() at lastActivityTime = millis() *)
  millis_send : Z;         (* millis() at header.timestamp = millis() *)
  udp_ok : bool            (* udp.endPacket() != 0 *)
}.

(** ** calculateCRC16 *)

(** One pass of the inner loop body. *)
Definition crc_shift (crc : Z) : Z :=
  if Z.land crc 1 =? 0
  then u16 (Z.shiftr crc 1)
  else u16 (Z.lxor (Z.shiftr crc 1) 0xA001).

Fixpoint crc_shifts (j : nat) (crc : Z) : Z :=
  match j with
  | O => crc
  | S j' => crc_shifts j' (crc_shift crc)
  end.

(** The body of the outer loop at index [i]. *)
Definition crc_byte (data : list byte) (crc : Z) (i : nat) : Z :=
  crc_shifts 8 (u16 (Z.lxor crc (byte_val (nth i data x00)))).

(** [data] is the memory at the pointer; indices [0 .. length-1] are read
    (a read past the end of [data] is undefined in C and yields [x00]
    here; no caller in the sketch does it, see [sendAudioData]). *)
Definition calculateCRC16 (data : list byte) (length : nat) : Z :=
  fold_left (crc_byte data) (seq 0 length) 0xFFFF.

(** ** The capture callback *)

Definition onPDMdata (pdm : list byte) (s : state) : result state :=
  let bytesAvailable := Z.of_nat (length pdm) in
  if bytesAvailable >? 0 then
    if bytesAvailable >? 2 * BUFFER_SIZE then Fault BufferOverrun
    else
      Ok {| audioBuffer := pdm ++ skipn (length pdm) (audioBuffer s);
            sendBuffer := sendBuffer s;
            samplesRead := i32 (Z.quot bytesAvailable 2);
            audioReady := true;
            silenceCounter := silenceCounter s;
            voiceCounter := voiceCounter s;
            isTransmitting := isTransmitting s;
            lastActivityTime := lastActivityTime s;
            packetSequence := packetSequence s |}
  else Ok s.

(** ** sendAudioData *)

(** The header as filled in by the assignments of [sendAudioData]; [s] is
    the state on entry, so [packetSequence s] is the value before the
    post-increment and the test [packetSequence == 1] sees its successor. *)
Definition build_header (isFinal : bool) (e : env) (s : state) : AudioPacket :=
  let packetSequence' := u32 (packetSequence s + 1) in
  let count := u16 (Z.min (samplesRead s) (Z.quot PACKET_SIZE 2)) in
  let flags0 := 0 in
  let flags1 := if packetSequence' =? 1 then u8 (Z.lor flags0 0x01) else flags0 in
  let flags2 := if isFinal then u8 (Z.lor flags1 0x02) else flags1 in
  {| sequence := packetSequence s;
     timestamp := u32 (millis_send e);
     device_id := DEVICE_ID;
     sample_rate := u16 SAMPLE_RATE;
     samples_count := count;
     checksum := calculateCRC16 (sendBuffer s) (Z.to_nat (count * 2));
     flags := flags2;
     reserved := 0 |}.

(** [if (udp.endPacket() == 0) Serial.println("ERRO: Falha UDP")]. *)
Definition udp_log (e : env) : list effect :=
  if udp_ok e then [] else [SerialPrintln MsgUdpFail].

Definition sendAudioData (isFinal : bool) (e : env) (s : state)
  : state * list effect :=
  let header := build_header isFinal e s in
  let s' :=
    {| audioBuffer := audioBuffer s;
       sendBuffer := sendBuffer s;
       samplesRead := samplesRead s;
       audioReady := audioReady s;
       silenceCounter := silenceCounter s;
       voiceCounter := voiceCounter s;
       isTransmitting := isTransmitting s;
       lastActivityTime := lastActivityTime s;
       packetSequence := u32 (packetSequence s + 1) |} in
  (s', UdpDatagram header
         (firstn (Z.to_nat (samples_count header * 2)) (sendBuffer s))
       :: udp_log e).

(** ** processAudioWithVAD *)

(** [audioBuffer[i]] read as a [short]. *)
Definition sample_at (buf : list byte) (i : nat) : Z :=
  i16 (byte_val (nth (2 * i) buf x00) + 2 ^ 8 * byte_val (nth (2 * i + 1) buf x00)).

(** The accumulation loop: [energy += abs(audioBuffer[i])] in a [uint32_t]. *)
Definition energy_sum (buf : list byte) (n : Z) : Z :=
  fold_left (fun energy i => u32 (energy + Z.abs (sample_at buf i)))
            (seq 0 (Z.to_nat n)) 0.

(** [energy /= samplesRead], the divisor converted to [uint32_t]. *)
Definition mean_energy (s : state) : result Z :=
  let energy := energy_sum (audioBuffer s) (samplesRead s) in
  if u32 (samplesRead s) =? 0 then Fault DivisionByZero
  else Ok (energy / u32 (samplesRead s)).

(** The voiced branch up to and including the start test. *)
Definition on_voice (e : env) (s : state) : state * list effect :=
  let voiceCounter' := i32 (voiceCounter s + 1) in
  let start := negb (isTransmitting s) && (voiceCounter' >=? MIN_VOICE_FRAMES) in
  ({| audioBuffer := audioBuffer s;
      sendBuffer := sendBuffer s;
      samplesRead := samplesRead s;
      audioReady := audioReady s;
      silenceCounter := 0;
      voiceCounter := voiceCounter';
      isTransmitting := if start then true else isTransmitting s;
      lastActivityTime := u32 (millis_vad e);
      packetSequence := if start then 0 else packetSequence s |},
   if start then [SerialPrintln MsgVoiceStart] else []).

(** The silent branch: the counters, then the stop test with its final
    packet. *)
Definition on_silence (e : env) (s : state) : state * list effect :=
  let s1 :=
    {| audioBuffer := audioBuffer s;
       sendBuffer := sendBuffer s;
       samplesRead := samplesRead s;
       audioReady := audioReady s;
       silenceCounter := i32 (silenceCounter s + 1);
       voiceCounter := 0;
       isTransmitting := isTransmitting s;
       lastActivityTime := lastActivityTime s;
       packetSequence := packetSequence s |} in
  if isTransmitting s1 && (silenceCounter s1 >=? SILENCE_FRAMES) then
    let '(s2, fx) := sendAudioData true e s1 in
    ({| audioBuffer := audioBuffer s2;
        sendBuffer := sendBuffer s2;
        samplesRead := samplesRead s2;
        audioReady := audioReady s2;
        silenceCounter := silenceCounter s2;
        voiceCounter := voiceCounter s2;
        isTransmitting := false;
        lastActivityTime := lastActivityTime s2;
        packetSequence := packetSequence s2 |},
     fx ++ [SerialPrintln MsgSilenceEnd])
  else (s1, []).

(** [memcpy(sendBuffer, audioBuffer, samplesToSend * 2)]. *)
Definition copy_to_sendBuffer (s : state) : state :=
  let samplesToSend := Z.min (samplesRead s) (Z.quot PACKET_SIZE 2) in
  let n := Z.to_nat (samplesToSend * 2) in
  {| audioBuffer := audioBuffer s;
     sendBuffer := firstn n (audioBuffer s) ++ skipn n (sendBuffer s);
     samplesRead := samplesRead s;
     audioReady := audioReady s;
     silenceCounter := silenceCounter s;
     voiceCounter := voiceCounter s;
     isTransmitting := isTransmitting s;
     lastActivityTime := lastActivityTime s;
     packetSequence := packetSequence s |}.

(** The periodic "Transmitindo - Energia" line depends only on a private
    timer and prints; it is left out. *)
Definition processAudioWithVAD (e : env) (s : state)
  : result (state * list effect) :=
  energy <- mean_energy s ;;
  let voiceDetected := energy >? ENERGY_THRESHOLD in
  let '(s1, fx1) := if voiceDetected then on_voice e s else on_silence e s in
  if isTransmitting s1 then
    let '(s2, fx2) := sendAudioData false e (copy_to_sendBuffer s1) in
    Ok (s2, fx1 ++ fx2)
  else Ok (s1, fx1).

(** ** loop *)

(** [connectWiFi] blocks until the link is back and touches none of the
    audio globals; the periodic [printStatus] only prints. *)
Definition wifi_log (e : env) : list effect :=
  if wifi_connected e then [] else [SerialPrintln MsgWifiLost].

Definition loop (e : env) (s : state) : result (state * list effect) :=
  let fx0 := wifi_log e in
  if audioReady s then
    let s0 :=
      {| audioBuffer := audioBuffer s;
         sendBuffer := sendBuffer s;
         samplesRead := samplesRead s;
         audioReady := false;
         silenceCounter := silenceCounter s;
         voiceCounter := voiceCounter s;
         isTransmitting := isTransmitting s;
         lastActivityTime := lastActivityTime s;
         packetSequence := packetSequence s |} in
    '(s1, fx) <- processAudioWithVAD e s0 ;;
    Ok (s1, fx0 ++ fx)
  else Ok (s, fx0).

(** ** Runs: capture interrupts interleaved with passes of the loop *)

Inductive event : Type :=
| Capture (pdm : list byte)
| Pass (e : env).

Definition step (s : state) (ev : event) : result (state * list effect) :=
  match ev with
  | Capture pdm => s' <- onPDMdata pdm s ;; Ok (s', [])
  | Pass e => loop e s
  end.

Fixpoint run (s : state) (evs : list event) : result (state * list effect) :=
  match evs with
  | [] => Ok (s, [])
  | ev :: evs' =>
      '(s1, fx1) <- step s ev ;;
      '(s2, fx2) <- run s1 evs' ;;
      Ok (s2, fx1 ++ fx2)
  end.

(** ** Reference checksum: table-driven CRC-16, polynomial 0xA001 *)

(** The customary 256-entry table of the reflected polynomial 0xA001. *)
Definition crc16_table : list Z :=
  [ 0x0000; 0xC0C1; 0xC181; 0x0140; 0xC301; 0x03C0; 0x0280; 0xC241;
    0xC601; 0x06C0; 0x0780; 0xC741; 0x0500; 0xC5C1; 0xC481; 0x0440;
    0xCC01; 0x0CC0; 0x0D80; 0xCD41; 0x0F00; 0xCFC1; 0xCE81; 0x0E40;
    0x0A00; 0xCAC1; 0xCB81; 0x0B40; 0xC901; 0x09C0; 0x0880; 0xC841;
    0xD801; 0x18C0; 0x1980; 0xD941; 0x1B00; 0xDBC1; 0xDA81; 0x1A40;
    0x1E00; 0xDEC1; 0xDF81; 0x1F40; 0xDD01; 0x1DC0; 0x1C80; 0xDC41;
    0x1400; 0xD4C1; 0xD581; 0x1540; 0xD701; 0x17C0; 0x1680; 0xD641;
    0xD201; 0x12C0; 0x1380; 0xD341; 0x1100; 0xD1C1; 0xD081; 0x1040;
    0xF001; 0x30C0; 0x3180; 0xF141; 0x3300; 0xF3C1; 0xF281; 0x3240;
    0x3600; 0xF6C1; 0xF781; 0x3740; 0xF501; 0x35C0; 0x3480; 0xF441;
    0x3C00; 0xFCC1; 0xFD81; 0x3D40; 0xFF01; 0x3FC0; 0x3E80; 0xFE41;
    0xFA01; 0x3AC0; 0x3B80; 0xFB41; 0x3900; 0xF9C1; 0xF881; 0x3840;
    0x2800; 0xE8C1; 0xE981; 0x2940; 0xEB01; 0x2BC0; 0x2A80; 0xEA41;
    0xEE01; 0x2EC0; 0x2F80; 0xEF41; 0x2D00; 0xEDC1; 0xEC81; 0x2C40;
    0xE401; 0x24C0; 0x2580; 0xE541; 0x2700; 0xE7C1; 0xE681; 0x2640;
    0x2200; 0xE2C1; 0xE381; 0x2340; 0xE101; 0x21C0; 0x2080; 0xE041;
    0xA001; 0x60C0; 0x6180; 0xA141; 0x6300; 0xA3C1; 0xA281; 0x6240;
    0x6600; 0xA6C1; 0xA781; 0x6740; 0xA501; 0x65C0; 0x6480; 0xA441;
    0x6C00; 0xACC1; 0xAD81; 0x6D40; 0xAF01; 0x6FC0; 0x6E80; 0xAE41;
    0xAA01; 0x6AC0; 0x6B80; 0xAB41; 0x6900; 0xA9C1; 0xA881; 0x6840;
    0x7800; 0xB8C1; 0xB981; 0x7940; 0xBB01; 0x7BC0; 0x7A80; 0xBA41;
    0xBE01; 0x7EC0; 0x7F80; 0xBF41; 0x7D00; 0xBDC1; 0xBC81; 0x7C40;
    0xB401; 0x74C0; 0x7580; 0xB541; 0x7700; 0xB7C1; 0xB681; 0x7640;
    0x7200; 0xB2C1; 0xB381; 0x7340; 0xB101; 0x71C0; 0x7080; 0xB041;
    0x5000; 0x90C1; 0x9181; 0x5140; 0x9301; 0x53C0; 0x5280; 0x9241;
    0x9601; 0x56C0; 0x5780; 0x9741; 0x5500; 0x95C1; 0x9481; 0x5440;
    0x9C01; 0x5CC0; 0x5D80; 0x9D41; 0x5F00; 0x9FC1; 0x9E81; 0x5E40;
    0x5A00; 0x9AC1; 0x9B81; 0x5B40; 0x9901; 0x59C0; 0x5880; 0x9841;
    0x8801; 0x48C0; 0x4980; 0x8941; 0x4B00; 0x8BC1; 0x8A81; 0x4A40;
    0x4E00; 0x8EC1; 0x8F81; 0x4F40; 0x8D01; 0x4DC0; 0x4C80; 0x8C41;
    0x4400; 0x84C1; 0x8581; 0x4540; 0x8701; 0x47C0; 0x4680; 0x8641;
    0x8201; 0x42C0; 0x4380; 0x8341; 0x4100; 0x81C1; 0x8081; 0x4040 ].

Definition crc16_update (crc : Z) (b : byte) : Z :=
  Z.lxor (Z.shiftr crc 8)
         (nth (Z.to_nat (Z.land (Z.lxor crc (byte_val b)) 0xFF)) crc16_table 0).

Definition crc16_reference (payload : list byte) : Z :=
  fold_left crc16_update payload 0xFFFF.

(** Every 8-bit value, for the exhaustive checks of the table. *)
Fixpoint z_range (start : Z) (len : nat) : list Z :=
  match len with
  | O => []
  | S len' => start :: z_range (start + 1) len'
  end.

Definition all_u8 : list Z := z_range 0 (Z.to_nat (2 ^ 8)).

(** Eight shifts bring the high byte of the running value down unchanged. *)
Definition high_byte_passes (hi : Z) : bool :=
  crc_shifts 8 (Z.shiftl hi 8) =? hi.

Definition table_agrees (x : Z) : bool :=
  crc_shifts 8 x =?
  Z.lxor (Z.shiftr x 8) (nth (Z.to_nat (Z.land x 0xFF)) crc16_table 0).

(** No non-zero byte is brought below 2^8 by the eight shifts of one
    round of the checksum. *)
Definition round_spreads (d : Z) : bool :=
  (d =? 0) || (2 ^ 8 <=? crc_shifts 8 d).

(** ** Observing a run *)

(** The datagrams of an effect list, in the order they were sent. *)
Fixpoint datagrams (fx : list effect) : list (AudioPacket * list byte) :=
  match fx with
  | [] => []
  | UdpDatagram h p :: fx' => (h, p) :: datagrams fx'
  | SerialPrintln _ :: fx' => datagrams fx'
  end.

Definition start_flag (h : AudioPacket) : bool := Z.testbit (flags h) 0.
Definition end_flag (h : AudioPacket) : bool := Z.testbit (flags h) 1.

(** The size of a datagram on the wire. *)
Definition datagram_size (d : AudioPacket * list byte) : Z :=
  Z.of_nat (length (datagram_bytes (fst d) (snd d))).

(** The console line "VOZ DETECTADA" is printed exactly where the sketch
    sets [isTransmitting = true]; it delimits the utterances of a trace.
    [leading_packets] are the headers sent before the next such line. *)
Fixpoint leading_packets (fx : list effect) : list AudioPacket :=
  match fx with
  | [] => []
  | UdpDatagram h _ :: fx' => h :: leading_packets fx'
  | SerialPrintln MsgVoiceStart :: _ => []
  | SerialPrintln _ :: fx' => leading_packets fx'
  end.

Fixpoint utterances (fx : list effect) : list (list AudioPacket) :=
  match fx with
  | [] => []
  | SerialPrintln MsgVoiceStart :: fx' => leading_packets fx' :: utterances fx'
  | _ :: fx' => utterances fx'
  end.

(** [u] carries the sequence numbers [n], [n+1], ... of a 32-bit counter. *)
Fixpoint numbered (n : Z) (u : list AudioPacket) : Prop :=
  match u with
  | [] => True
  | h :: u' => sequence h = u32 n /\ numbered (n + 1) u'
  end.

(** [u] continues an utterance at position [n]: sequence numbers [n],
    [n+1], ... in 32 bits, the start flag exactly on sequence number 0,
    the end flag on nothing but the last packet. *)
Fixpoint well_flagged (n : Z) (u : list AudioPacket) : Prop :=
  match u with
  | [] => True
  | h :: u' =>
      sequence h = u32 n /\
      start_flag h = (u32 n =? 0) /\
      (end_flag h = true -> u' = []) /\
      well_flagged (n + 1) u'
  end.

(** ** Frames: one capture followed by one pass of the loop *)

Definition frame : Type := list byte * env.

Definition frame_events (f : frame) : list event :=
  [Capture (fst f); Pass (snd f)].

Definition feed (s : state) (fs : list frame) : result (state * list effect) :=
  run s (flat_map frame_events fs).

(** The mean magnitude of the samples a capture delivers. *)
Definition frame_energy (pdm : list byte) : Z :=
  let n := Z.quot (Z.of_nat (length pdm)) 2 in
  energy_sum pdm n / n.

Definition voiced (f : frame) : bool := frame_energy (fst f) >? ENERGY_THRESHOLD.

(** A capture of at least one whole sample that fits the buffer. *)
Definition capture_ok (pdm : list byte) : Prop :=
  2 <= Z.of_nat (length pdm) <= 2 * BUFFER_SIZE.

Definition frame_ok (f : frame) : Prop := capture_ok (fst f).

(** The classification [processAudioWithVAD] will make of the buffer. *)
Definition pending_voiced (s : state) : bool :=
  energy_sum (audioBuffer s) (samplesRead s) / u32 (samplesRead s)
  >? ENERGY_THRESHOLD.

(** ** Invariants *)

Definition buffers_ok (s : state) : Prop :=
  length (audioBuffer s) = Z.to_nat (2 * BUFFER_SIZE) /\
  length (sendBuffer s) = Z.to_nat PACKET_SIZE /\
  0 <= samplesRead s <= BUFFER_SIZE.

Definition counters_ok (s : state) : Prop :=
  0 <= packetSequence s < 2 ^ 32 /\
  if isTransmitting s
  then 0 <= silenceCounter s < SILENCE_FRAMES
  else 0 <= voiceCounter s < MIN_VOICE_FRAMES.

Definition reachable (s : state) : Prop :=
  exists evs fx, run initial_state evs = Ok (s, fx).

(** ** The control part of the state, and its transition function

    [vad_next] is what [processAudioWithVAD] does to the counters, the
    transmitting flag and the sequence counter, with the sequence number
    and flag byte of the datagram it sends, if any ([loop_audio] below
    proves this of the embedding). *)

Record control : Type := mkControl {
  c_silence : Z;
  c_voice : Z;
  c_tx : bool;
  c_seq : Z
}.

Definition control_of (s : state) : control :=
  {| c_silence := silenceCounter s;
     c_voice := voiceCounter s;
     c_tx := isTransmitting s;
     c_seq := packetSequence s |}.

Definition first_flag (sq : Z) : Z := if u32 (sq + 1) =? 1 then 1 else 0.

Definition vad_next (voiceDetected : bool) (c : control)
  : control * list (Z * Z) :=
  if voiceDetected then
    let vc := i32 (c_voice c + 1) in
    if c_tx c then
      ({| c_silence := 0; c_voice := vc; c_tx := true;
          c_seq := u32 (c_seq c + 1) |},
       [(c_seq c, first_flag (c_seq c))])
    else if vc >=? MIN_VOICE_FRAMES then
      ({| c_silence := 0; c_voice := vc; c_tx := true; c_seq := 1 |},
       [(0, 1)])
    else
      ({| c_silence := 0; c_voice := vc; c_tx := false; c_seq := c_seq c |}, [])
  else
    let sc := i32 (c_silence c + 1) in
    if c_tx c then
      if sc >=? SILENCE_FRAMES then
        ({| c_silence := sc; c_voice := 0; c_tx := false;
            c_seq := u32 (c_seq c + 1) |},
         [(c_seq c, Z.lor (first_flag (c_seq c)) 2)])
      else
        ({| c_silence := sc; c_voice := 0; c_tx := true;
            c_seq := u32 (c_seq c + 1) |},
         [(c_seq c, first_flag (c_seq c))])
    else
      ({| c_silence := sc; c_voice := 0; c_tx := false; c_seq := c_seq c |}, []).

Fixpoint control_run (vs : list bool) (c : control) : control * list (Z * Z) :=
  match vs with
  | [] => (c, [])
  | v :: vs' =>
      let '(c1, out1) := vad_next v c in
      let '(c2, out2) := control_run vs' c1 in
      (c2, out1 ++ out2)
  end.

(** The header of a datagram with sequence number [sq], flag byte [fl],
    [count] samples and payload [p]. *)
Definition packet_with (sq fl : Z) (e : env) (count : Z) (p : list byte)
  : AudioPacket :=
  {| sequence := sq;
     timestamp := u32 (millis_send e);
     device_id := DEVICE_ID;
     sample_rate := u16 SAMPLE_RATE;
     samples_count := count;
     checksum := calculateCRC16 p (length p);
     flags := fl;
     reserved := 0 |}.

(** The bytes of [buf] that go out when [sr] samples were captured. *)
Definition payload_bytes (sr : Z) (buf : list byte) : list byte :=
  firstn (Z.to_nat (Z.min sr (Z.quot PACKET_SIZE 2) * 2)) buf.

Definition flag_byte (isFinal : bool) (sq : Z) : Z :=
  if isFinal then Z.lor (first_flag sq) 2 else first_flag sq.

(** What a pass of the loop over a ready buffer outputs after the
    connectivity check, read off [vad_next]. *)
Definition pass_effects (e : env) (s : state) : list effect :=
  let c := control_of s in
  let r := vad_next (pending_voiced s) c in
  let starts := negb (c_tx c) && c_tx (fst r) in
  let stops := c_tx c && negb (c_tx (fst r)) in
  let p := payload_bytes (samplesRead s)
             (if stops then sendBuffer s else audioBuffer s) in
  match snd r with
  | [] => []
  | (sq, fl) :: _ =>
      (if starts then [SerialPrintln MsgVoiceStart] else []) ++
      UdpDatagram
        (packet_with sq fl e (Z.min (samplesRead s) (Z.quot PACKET_SIZE 2)) p) p
      :: udp_log e ++
      (if stops then [SerialPrintln MsgSilenceEnd] else [])
  end.

Definition numbering (fx : list effect) : list (Z * Z) :=
  map (fun d => (sequence (fst d), flags (fst d))) (datagrams fx).

(** What the checksum loop computes, byte by byte: eight shift/XOR steps
    on the running value XORed with the byte. *)
Definition crc16_bitwise (payload : list byte) : Z :=
  fold_left (fun crc b => crc_shifts 8 (Z.lxor crc (byte_val b))) payload 0xFFFF.

(** What every datagram of the sketch satisfies (see [run_datagrams]). *)
Definition datagram_ok (d : AudioPacket * list byte) : Prop :=
  let (h, p) := d in
  checksum h = calculateCRC16 p (length p) /\
  1 <= samples_count h <= Z.quot PACKET_SIZE 2 /\
  Z.of_nat (length p) = samples_count h * 2 /\
  0 <= sequence h < 2 ^ 32 /\
  device_id h = DEVICE_ID /\ sample_rate h = SAMPLE_RATE /\ reserved h = 0.

(** ** A concrete run: the scenario of three loud and ten quiet frames *)

(** A capture of [n] samples, each the 16-bit value with bytes [lo], [hi]. *)
Definition tone (lo hi : byte) (n : nat) : list byte :=
  concat (repeat [lo; hi] n).

(** Four samples of magnitude 900, and four of magnitude 200. *)
Definition loud : list byte := tone x84 x03 4.
Definition quiet : list byte := tone xc8 x00 4.

(** A full PDM buffer: 256 samples (512 bytes) of magnitude 900. *)
Definition burst : list byte := tone x84 x03 256.

Definition env0 : env :=
  {| wifi_connected := true; millis_vad := 0; millis_send := 0; udp_ok := true |}.

Definition scenario : list frame :=
  repeat (loud, env0) 3 ++ repeat (quiet, env0) 10.

Definition final_state (r : result (state * list effect)) : state :=
  match r with
  | Ok (s, _) => s
  | Fault _ => initial_state
  end.

Definition effects_of (r : result (state * list effect)) : list effect :=
  match r with
  | Ok (_, fx) => fx
  | Fault _ => []
  end.

(** The first datagram of the scenario. *)
Definition scenario_first : AudioPacket * list byte :=
  nth 0 (datagrams (effects_of (feed initial_state scenario)))
      (packet_with 0 0 env0 0 [], []).

Definition scenario_events : list event := flat_map frame_events scenario.

(** The state in which the last pass of the scenario starts, and the
    state after the third loud frame. *)
Definition scenario_before_stop : state :=
  final_state (run initial_state (removelast scenario_events)).

Definition scenario_transmitting : state :=
  final_state (feed initial_state (repeat (loud, env0) 3)).

(** The size of [struct AudioPacket] on the wire. *)
Definition HEADER_SIZE : Z := 18.

Definition scenario_energies : list Z := [900; 900; 900] ++ repeat 200 10.

(** Sequence number and flag byte of the datagrams of the scenario. *)
Definition scenario_numbering : list (Z * Z) :=
  [(0, 1); (1, 0); (2, 0); (3, 0); (4, 0); (5, 0); (6, 0); (7, 0); (8, 0);
   (9, 0); (10, 2)].

(** The number of samples a capture delivers. *)
Definition frame_samples (f : frame) : Z := Z.quot (Z.of_nat (length (fst f))) 2.

(** ** Send results *)

(** The same pass with the result of [udp.endPacket()] fixed. *)
Definition with_udp (b : bool) (e : env) : env :=
  {| wifi_connected := wifi_connected e;
     millis_vad := millis_vad e;
     millis_send := millis_send e;
     udp_ok := b |}.

Definition set_udp (b : bool) (ev : event) : event :=
  match ev with
  | Capture pdm => Capture pdm
  | Pass e => Pass (with_udp b e)
  end.

Definition is_udp_fail (f : effect) : bool :=
  match f with
  | SerialPrintln MsgUdpFail => true
  | _ => false
  end.

(** Two outcomes that differ only by "ERRO: Falha UDP" lines in the
    second, at most one per datagram. *)
Definition same_but_log (r1 r2 : result (state * list effect)) : Prop :=
  match r1, r2 with
  | Ok (s1, fx1), Ok (s2, fx2) =>
      s1 = s2 /\ datagrams fx1 = datagrams fx2 /\
      filter (fun f => negb (is_udp_fail f)) fx2 = fx1 /\
      (length (filter is_udp_fail fx2) <= length (datagrams fx2))%nat
  | Fault f1, Fault f2 => f1 = f2
  | _, _ => False
  end.

(** ** An utterance long enough for the sequence counter to wrap *)



(** The utterance of the scenario and its last header. *)
Definition scenario_utterance : list AudioPacket :=
  nth 0 (utterances (effects_of (feed initial_state scenario))) [].

Definition scenario_last : AudioPacket :=
  nth 10 scenario_utterance (packet_with 0 0 env0 0 []).

(** ** The older sketch (part_000): frames split into small datagrams

    Its [sendAudioData] has no state machine and no sequence counter.  It
    sends the whole capture in datagrams of at most [PACKET_SIZE] = 256
    payload bytes; the first one starts with a 12-byte header, the others
    are bare samples. *)

Module Legacy.

Definition PACKET_SIZE : Z := 256.

Record AudioPacket : Type := mkAudioPacket {
  timestamp : Z;      (* uint32_t *)
  device_id : Z;      (* uint16_t *)
  sample_rate : Z;    (* uint16_t *)
  samples_count : Z;  (* uint16_t *)
  checksum : Z        (* uint16_t *)
}.

Definition header_bytes (h : AudioPacket) : list byte :=
  le_bytes 4 (timestamp h) ++ le_bytes 2 (device_id h) ++
  le_bytes 2 (sample_rate h) ++ le_bytes 2 (samples_count h) ++
  le_bytes 2 (checksum h).

(** [calculateChecksum]: the sum of the magnitudes, modulo 65536. *)
Definition calculateChecksum (data : list byte) (count : Z) : Z :=
  u16 (energy_sum data count mod 65536).

(** The samples of the [i]-th datagram, as bytes. *)
Definition chunk (audioBuffer : list byte) (samplesRead : Z) (i : nat) : list byte :=
  let startIdx := Z.of_nat i * Z.quot PACKET_SIZE 2 in
  let endIdx := Z.min (startIdx + Z.quot PACKET_SIZE 2) samplesRead in
  let packetSamples := endIdx - startIdx in
  firstn (Z.to_nat (packetSamples * 2)) (skipn (Z.to_nat (startIdx * 2)) audioBuffer).

Definition packetCount (samplesRead : Z) : nat :=
  Z.to_nat (Z.quot (samplesRead * 2 + PACKET_SIZE - 1) PACKET_SIZE).

(** The datagrams of one call, in order. *)
Definition sendAudioData (millis : Z) (audioBuffer : list byte) (samplesRead : Z)
  : list (list byte) :=
  let packet_header :=
    {| timestamp := u32 millis;
       device_id := 1;
       sample_rate := u16 SAMPLE_RATE;
       samples_count := u16 samplesRead;
       checksum := calculateChecksum audioBuffer samplesRead |} in
  map (fun i =>
         (if Nat.eqb i 0 then header_bytes packet_header else []) ++
         chunk audioBuffer samplesRead i)
      (seq 0 (packetCount samplesRead)).

(** The sample bytes of the datagrams, headers left out. *)
Definition payloads (audioBuffer : list byte) (samplesRead : Z) : list (list byte) :=
  map (chunk audioBuffer samplesRead) (seq 0 (packetCount samplesRead)).

End Legacy.

(** ** Reference quantities for the energy detector and the checksums *)

(** The first [n] samples of a buffer, as the signed values the loops read. *)
Definition samples_of (buf : list byte) (n : nat) : list Z :=
  map (sample_at buf) (seq 0 n).

(** The sum of their magnitudes as an integer without a width, against
    which the 32-bit accumulators are compared. *)
Definition magnitude_sum (buf : list byte) (n : nat) : Z :=
  fold_right Z.add 0 (map Z.abs (samples_of buf n)).

(** The value of a byte string read least significant byte first. *)
Fixpoint le_value (bs : list byte) : Z :=
  match bs with
  | [] => 0
  | b :: bs' => byte_val b + 2 ^ 8 * le_value bs'
  end.

(** Every field of a header within the width [struct AudioPacket] gives it. *)
Definition header_fits (h : AudioPacket) : Prop :=
  0 <= sequence h < 2 ^ 32 /\ 0 <= timestamp h < 2 ^ 32 /\
  0 <= device_id h < 2 ^ 16 /\ 0 <= sample_rate h < 2 ^ 16 /\
  0 <= samples_count h < 2 ^ 16 /\ 0 <= checksum h < 2 ^ 16 /\
  0 <= flags h < 2 ^ 8 /\ 0 <= reserved h < 2 ^ 8.

(** The field of [len] bytes at offset [off] of a wire image, and the
    header read back from the first 18 bytes by the offsets of the packed
    struct. *)
Definition field (off len : nat) (bs : list byte) : Z :=
  le_value (firstn len (skipn off bs)).

Definition parse_header (bs : list byte) : AudioPacket :=
  {| sequence := field 0 4 bs;
     timestamp := field 4 4 bs;
     device_id := field 8 2 bs;
     sample_rate := field 10 2 bs;
     samples_count := field 12 2 bs;
     checksum := field 14 2 bs;
     flags := field 16 1 bs;
     reserved := field 17 1 bs |}.

(** The two header fields of an effect that [datagram_ok] leaves open. *)
Definition effect_fits (f : effect) : Prop :=
  match f with
  | UdpDatagram h _ => 0 <= timestamp h < 2 ^ 32 /\ 0 <= flags h < 4
  | SerialPrintln _ => True
  end.

(** ** printStatus and the status timer of loop *)

(** The values [printStatus] prints after the device name: the signal
    strength it reads, the transmitting flag, and the whole seconds since
    the last voiced frame, [(millis() - lastActivityTime) / 1000] in
    [unsigned long] (32 bits on the target). *)
Record status : Type := mkStatus {
  status_rssi : Z;
  status_transmitting : bool;
  status_idle_seconds : Z
}.

Definition printStatus (rssi now : Z) (s : state) : status :=
  {| status_rssi := rssi;
     status_transmitting := isTransmitting s;
     status_idle_seconds := u32 (u32 now - lastActivityTime s) / 1000 |}.

(** The test [millis() - lastStatus > 10000] of [loop], with [lastStatus]
    the [static unsigned long] of the previous report. *)
Definition status_due (now lastStatus : Z) : bool :=
  u32 (u32 now - lastStatus) >? 10000.

(** ** Counting the console lines and final packets of a trace *)

Definition is_voice_start (f : effect) : bool :=
  match f with
  | SerialPrintln MsgVoiceStart => true
  | _ => false
  end.

Definition is_silence_end (f : effect) : bool :=
  match f with
  | SerialPrintln MsgSilenceEnd => true
  | _ => false
  end.

Definition is_final_datagram (f : effect) : bool :=
  match f with
  | UdpDatagram h _ => end_flag h
  | _ => false
  end.

Definition count_effects (p : effect -> bool) (fx : list effect) : Z :=
  Z.of_nat (length (filter p fx)).

(** ** The passenger sketch (mic_passageiro.ino): every frame, unconditionally

    No detector and no checksum: a pass of the loop over a ready buffer
    sends the whole capture in one datagram behind a 16-byte header, and
    the datagrams are numbered from power-up.  The buffer has 256 samples.
    A lost link makes the pass call [WiFi.begin] again, without waiting.
    The result of [udp.endPacket] is not read.  The "Enviando" line, which
    depends only on a private timer and prints, is left out. *)

Module Passenger.

Definition BUFFER_SIZE : Z := 256.
Definition DEVICE_ID : Z := 2.

Record AudioPacket : Type := mkAudioPacket {
  magic : Z;          (* uint32_t *)
  timestamp : Z;      (* uint32_t *)
  device_id : Z;      (* uint16_t *)
  samples_count : Z;  (* uint16_t *)
  sequence : Z        (* uint32_t *)
}.

Definition header_bytes (h : AudioPacket) : list byte :=
  le_bytes 4 (magic h) ++ le_bytes 4 (timestamp h) ++
  le_bytes 2 (device_id h) ++ le_bytes 2 (samples_count h) ++
  le_bytes 4 (sequence h).

Record state : Type := mkState {
  audioBuffer : list byte;     (* short audioBuffer[BUFFER_SIZE], 512 bytes *)
  samplesRead : Z;             (* volatile int *)
  audioReady : bool;           (* volatile bool *)
  sequenceNumber : Z           (* uint32_t *)
}.

Definition initial_state : state :=
  {| audioBuffer := repeat x00 (Z.to_nat (2 * BUFFER_SIZE));
     samplesRead := 0;
     audioReady := false;
     sequenceNumber := 0 |}.

Record env : Type := mkEnv {
  wifi_connected : bool;   (* WiFi.status() == WL_CONNECTED *)
  millis : Z               (* millis() at header.timestamp = millis() *)
}.

Inductive effect : Type :=
| UdpDatagram (hdr : AudioPacket) (payload : list byte)
| WifiBegin.       (* WiFi.begin(ssid, password) *)

Definition onPDMdata (pdm : list byte) (s : state) : result state :=
  let bytesAvailable := Z.of_nat (length pdm) in
  if bytesAvailable >? 0 then
    if bytesAvailable >? 2 * BUFFER_SIZE then Fault BufferOverrun
    else
      Ok {| audioBuffer := pdm ++ skipn (length pdm) (audioBuffer s);
            samplesRead := i32 (Z.quot bytesAvailable 2);
            audioReady := true;
            sequenceNumber := sequenceNumber s |}
  else Ok s.

Definition sendAudioData (e : env) (s : state) : state * list effect :=
  let header :=
    {| magic := u32 0xABCD1234;
       timestamp := u32 (millis e);
       device_id := DEVICE_ID;
       samples_count := u16 (samplesRead s);
       sequence := sequenceNumber s |} in
  ({| audioBuffer := audioBuffer s;
      samplesRead := samplesRead s;
      audioReady := audioReady s;
      sequenceNumber := u32 (sequenceNumber s + 1) |},
   [UdpDatagram header (firstn (Z.to_nat (i32 (samplesRead s * 2))) (audioBuffer s))]).

Definition loop (e : env) (s : state) : state * list effect :=
  let '(s1, fx) :=
    if audioReady s then
      sendAudioData e
        {| audioBuffer := audioBuffer s;
           samplesRead := samplesRead s;
           audioReady := false;
           sequenceNumber := sequenceNumber s |}
    else (s, []) in
  (s1, fx ++ if wifi_connected e then [] else [WifiBegin]).

Inductive event : Type :=
| Capture (pdm : list byte)
| Pass (e : env).

Definition step (s : state) (ev : event) : result (state * list effect) :=
  match ev with
  | Capture pdm => s' <- onPDMdata pdm s ;; Ok (s', [])
  | Pass e => Ok (loop e s)
  end.

Fixpoint run (s : state) (evs : list event) : result (state * list effect) :=
  match evs with
  | [] => Ok (s, [])
  | ev :: evs' =>
      '(s1, fx1) <- step s ev ;;
      '(s2, fx2) <- run s1 evs' ;;
      Ok (s2, fx1 ++ fx2)
  end.

Fixpoint datagrams (fx : list effect) : list (AudioPacket * list byte) :=
  match fx with
  | [] => []
  | UdpDatagram h p :: fx' => (h, p) :: datagrams fx'
  | WifiBegin :: fx' => datagrams fx'
  end.

(** What [udp.write(&header, sizeof(header)); udp.write(audioBuffer, n)]
    puts on the wire. *)
Definition datagram_bytes (d : AudioPacket * list byte) : list byte :=
  header_bytes (fst d) ++ snd d.

Definition buffers_ok (s : state) : Prop :=
  length (audioBuffer s) = Z.to_nat (2 * BUFFER_SIZE) /\
  0 <= samplesRead s <= BUFFER_SIZE.

End Passenger.

(** ** The motion sensor sketch (part_001): records on the serial line

    The loop reads the accelerometer and the gyroscope at most once every
    10 ms and writes the six values and an end marker as one raw record
    of 28 bytes; after every hundredth record it prints a line of text on
    the same serial line.  The six [float]s are only copied, never
    computed with: they are kept as their 32-bit patterns.  The text of
    the debug line is not modelled, only that it is printed, with the
    record count it shows.  [setup], which starts the sensor and prints,
    is not modelled. *)

Module Imu.

Record IMUData : Type := mkIMUData {
  ax : Z; ay : Z; az : Z;   (* float *)
  gx : Z; gy : Z; gz : Z;   (* float *)
  marker : Z                (* uint32_t *)
}.

(** The image of the struct: seven 4-byte fields, no padding. *)
Definition data_bytes (d : IMUData) : list byte :=
  le_bytes 4 (ax d) ++ le_bytes 4 (ay d) ++ le_bytes 4 (az d) ++
  le_bytes 4 (gx d) ++ le_bytes 4 (gy d) ++ le_bytes 4 (gz d) ++
  le_bytes 4 (marker d).

(** What one pass of [loop] reads from its collaborators; a read that
    returns 0 is [None]. *)
Record env : Type := mkEnv {
  millis_test : Z;                       (* millis() at millis() - lastRead < 10 *)
  millis_set : Z;                        (* millis() at lastRead = millis() *)
  accelerationAvailable : bool;
  gyroscopeAvailable : bool;
  readAcceleration : option (Z * Z * Z);
  readGyroscope : option (Z * Z * Z)
}.

(** The two [static] variables of [loop]. *)
Record state : Type := mkState {
  lastRead : Z;     (* unsigned long *)
  readCount : Z     (* int *)
}.

Definition initial_state : state := {| lastRead := 0; readCount := 0 |}.

Inductive effect : Type :=
| SerialWrite (bytes : list byte)
| DebugLine (count : Z) (d : IMUData)    (* "Debug #" readCount " - Acel: " ... *)
| Delay (ms : Z).

Definition loop (e : env) (s : state) : state * list effect :=
  if u32 (u32 (millis_test e) - lastRead s) <? 10 then (s, [])
  else
    let s1 := {| lastRead := u32 (millis_set e); readCount := readCount s |} in
    if accelerationAvailable e && gyroscopeAvailable e then
      match readAcceleration e with
      | Some (x, y, z) =>
          match readGyroscope e with
          | Some (p, q, r) =>
              let data :=
                {| ax := x; ay := y; az := z; gx := p; gy := q; gz := r;
                   marker := u32 0xFFFFFFFE |} in
              let readCount' := i32 (readCount s1 + 1) in
              ({| lastRead := lastRead s1; readCount := readCount' |},
               SerialWrite (data_bytes data) ::
               (if Z.rem readCount' 100 =? 0 then [DebugLine readCount' data] else []))
          | None => (s1, [])
          end
      | None => (s1, [])
      end
    else (s1, [Delay 1]).

Fixpoint run (s : state) (es : list env) : state * list effect :=
  match es with
  | [] => (s, [])
  | e :: es' =>
      let '(s1, fx1) := loop e s in
      let '(s2, fx2) := run s1 es' in
      (s2, fx1 ++ fx2)
  end.

(** The records and the debug lines of a trace. *)
Fixpoint records (fx : list effect) : list (list byte) :=
  match fx with
  | [] => []
  | SerialWrite b :: fx' => b :: records fx'
  | _ :: fx' => records fx'
  end.

Fixpoint debug_lines (fx : list effect) : list Z :=
  match fx with
  | [] => []
  | DebugLine n _ :: fx' => n :: debug_lines fx'
  | _ :: fx' => debug_lines fx'
  end.

(** A record as a reader of the serial line finds it: 28 bytes, the last
    four the marker 0xFFFFFFFE. *)
Definition record_ok (b : list byte) : Prop :=
  length b = 28%nat /\ skipn 24 b = [xfe; xff; xff; xff].

(** The passes of a run that write a record. *)
Fixpoint writers (s : state) (es : list env) : list env :=
  match es with
  | [] => []
  | e :: es' =>
      (match records (snd (loop e s)) with [] => [] | _ => [e] end) ++
      writers (fst (loop e s)) es'
  end.

(** The clock readings of a run, as times in milliseconds that never go
    back, the first not before [t], and no two consecutive ones 2^31 - 10
    ms (some 24 days) or more apart.  The sketch sees them modulo 2^32. *)
Fixpoint ticking (t : Z) (es : list env) : Prop :=
  match es with
  | [] => True
  | e :: es' =>
      t <= millis_test e <= millis_set e /\
      millis_test e - t < 2 ^ 31 - 10 /\
      millis_set e - millis_test e < 2 ^ 31 /\
      ticking (millis_set e) es'
  end.

(** Each writing pass starts at least 10 ms after the previous one read
    the clock for [lastRead]. *)
Fixpoint spaced (ws : list env) : Prop :=
  match ws with
  | [] => True
  | w1 :: ws' =>
      match ws' with
      | [] => True
      | w2 :: _ => 10 <= millis_test w2 - millis_set w1
      end /\ spaced ws'
  end.

(** A pass with both sensors ready, at clock reading [t]. *)
Definition reading (t : Z) : env :=
  {| millis_test := t; millis_set := t;
     accelerationAvailable := true; gyroscopeAvailable := true;
     readAcceleration := Some (0x3F800000, 0, 0);
     readGyroscope := Some (0, 0, 0x40000000) |}.

Definition readings : list env :=
  [reading 4; reading 12; reading 15; reading 23; reading 40].

End Imu.

(** ** States that differ only in stale audio

    [audioBuffer] keeps the bytes of earlier captures behind the samples
    of the latest one.  Two states are [same_audio] when they agree on
    everything but those bytes. *)
Definition same_audio (s1 s2 : state) : Prop :=
  firstn (Z.to_nat (2 * samplesRead s1)) (audioBuffer s1)
  = firstn (Z.to_nat (2 * samplesRead s2)) (audioBuffer s2) /\
  samplesRead s1 = samplesRead s2 /\ audioReady s1 = audioReady s2 /\
  sendBuffer s1 = sendBuffer s2 /\ control_of s1 = control_of s2 /\
  lastActivityTime s1 = lastActivityTime s2.

Definition same_outcome (r1 r2 : result (state * list effect)) : Prop :=
  match r1, r2 with
  | Ok (s1, fx1), Ok (s2, fx2) => same_audio s1 s2 /\ fx1 = fx2
  | Fault f1, Fault f2 => f1 = f2
  | _, _ => False
  end.

(** ** Concrete inputs for the properties below *)

(** The state right after the capture callback delivered [loud]. *)
Definition loud_captured : state :=
  final_state (step initial_state (Capture loud)).

(** Voiced frames that never come three in a row. *)
Definition stutter : list frame :=
  [(loud, env0); (loud, env0); (quiet, env0); (loud, env0); (loud, env0)].



(** A pass of the loop that reads 5000 on the clock. *)
Definition env_5s : env :=
  {| wifi_connected := true; millis_vad := 5000; millis_send := 5000; udp_ok := true |}.


(** Two captures and two passes of the passenger loop, the link down. *)
Definition passenger_env : Passenger.env :=
  {| Passenger.wifi_connected := false; Passenger.millis := 5000 |}.

Definition passenger_events : list Passenger.event :=
  [Passenger.Capture loud; Passenger.Pass passenger_env;
   Passenger.Capture quiet; Passenger.Pass passenger_env].

Definition passenger_outcome (r : result (Passenger.state * list Passenger.effect))
  : Passenger.state * list Passenger.effect :=
  match r with
  | Ok x => x
  | Fault _ => (Passenger.initial_state, [])
  end.

(** An event the callback and the detector can both handle: a pass, an
    empty capture, or a capture of at least one whole sample and no more
    than the buffer holds. *)
Definition event_ok (ev : event) : Prop :=
  match ev with
  | Capture pdm => pdm = [] \/ capture_ok pdm
  | Pass _ => True
  end.

(** A ready buffer holds at least one sample. *)
Definition ready_ok (s : state) : Prop :=
  audioReady s = true -> 1 <= samplesRead s.

Ltac proj :=
  cbn [audioBuffer sendBuffer samplesRead audioReady silenceCounter
       voiceCounter isTransmitting lastActivityTime packetSequence
       fst snd bind c_silence c_voice c_tx c_seq control_of
       sequence timestamp device_id sample_rate samples_count checksum flags reserved
       negb andb orb app] in *.

(** * Properties *)

(** ** Fixed-width conversions *)

Lemma u16_range z : 0 <= u16 z < 2 ^ 16.
Proof. apply Z.mod_pos_bound; lia. Qed.

Lemma u32_range z : 0 <= u32 z < 2 ^ 32.
Proof. apply Z.mod_pos_bound; lia. Qed.

Lemma u16_small z : 0 <= z < 2 ^ 16 -> u16 z = z.
Proof. intros; apply Z.mod_small; assumption. Qed.

Lemma u32_small z : 0 <= z < 2 ^ 32 -> u32 z = z.
Proof. intros; apply Z.mod_small; assumption. Qed.

Lemma i32_small z : - 2 ^ 31 <= z < 2 ^ 31 -> i32 z = z.
Proof. intros; unfold i32; rewrite Z.mod_small; lia. Qed.

Lemma i32_range z : - 2 ^ 31 <= i32 z < 2 ^ 31.
Proof.
  unfold i32. pose proof (Z.mod_pos_bound (z + 2 ^ 31) (2 ^ 32)). lia.
Qed.

Lemma u32_succ_u32 z k : u32 (u32 z + k) = u32 (z + k).
Proof. unfold u32. apply Zplus_mod_idemp_l. Qed.

Lemma byte_val_range b : 0 <= byte_val b < 2 ^ 8.
Proof.
  unfold byte_val. pose proof (Byte.to_N_bounded b). lia.
Qed.

Lemma u16_lxor a b : u16 (Z.lxor a b) = Z.lxor (u16 a) (u16 b).
Proof.
  unfold u16. rewrite <- !Z.land_ones by lia.
  apply Z.bits_inj'; intros n Hn.
  rewrite Z.lxor_spec, !Z.land_spec, Z.lxor_spec.
  destruct (Z.testbit (Z.ones 16) n); rewrite ?andb_true_r, ?andb_false_r; reflexivity.
Qed.

(** ** The checksum *)

Lemma crc_shift_range crc : 0 <= crc_shift crc < 2 ^ 16.
Proof. unfold crc_shift; destruct (Z.land crc 1 =? 0); apply u16_range. Qed.

Lemma crc_shifts_range j crc :
  0 <= crc < 2 ^ 16 -> 0 <= crc_shifts j crc < 2 ^ 16.
Proof.
  revert crc; induction j as [|j IH]; intros crc H; simpl; [assumption|].
  apply IH, crc_shift_range.
Qed.

Lemma crc_byte_range data crc i : 0 <= crc_byte data crc i < 2 ^ 16.
Proof. unfold crc_byte. apply crc_shifts_range, u16_range. Qed.

Lemma calculateCRC16_S data n :
  calculateCRC16 data (S n) = crc_byte data (calculateCRC16 data n) n.
Proof.
  unfold calculateCRC16. rewrite seq_S, fold_left_app. reflexivity.
Qed.

Lemma calculateCRC16_range data n : 0 <= calculateCRC16 data n < 2 ^ 16.
Proof.
  destruct n as [|n]; [unfold calculateCRC16; simpl; lia|].
  rewrite calculateCRC16_S. apply crc_byte_range.
Qed.

Lemma in_z_range len : forall start x,
  start <= x < start + Z.of_nat len -> In x (z_range start len).
Proof.
  induction len as [|len IH]; intros start x H; [lia|].
  simpl. destruct (Z.eq_dec start x) as [E|E]; [left; exact E|].
  right. apply IH. lia.
Qed.

Lemma land_1_odd x : (Z.land x 1 =? 0) = negb (Z.testbit x 0).
Proof.
  change 1 with (Z.ones 1). rewrite Z.land_ones by lia.
  change (2 ^ 1) with 2. rewrite <- Z.bit0_mod.
  destruct (Z.testbit x 0); reflexivity.
Qed.

Lemma crc_shift_lxor a b :
  crc_shift (Z.lxor a b) = Z.lxor (crc_shift a) (crc_shift b).
Proof.
  unfold crc_shift. rewrite !land_1_odd, Z.lxor_spec, Z.shiftr_lxor.
  destruct (Z.testbit a 0), (Z.testbit b 0); cbn [xorb negb];
    rewrite !u16_lxor; apply Z.bits_inj'; intros n _; rewrite !Z.lxor_spec;
    destruct (Z.testbit (u16 (Z.shiftr a 1)) n), (Z.testbit (u16 (Z.shiftr b 1)) n),
             (Z.testbit (u16 40961) n); reflexivity.
Qed.

Lemma crc_shifts_lxor j : forall a b,
  crc_shifts j (Z.lxor a b) = Z.lxor (crc_shifts j a) (crc_shifts j b).
Proof.
  induction j as [|j IH]; intros a b; [reflexivity|].
  cbn [crc_shifts]. rewrite crc_shift_lxor. apply IH.
Qed.

Lemma split_low_byte x :
  x = Z.lxor (Z.shiftl (Z.shiftr x 8) 8) (Z.land x 0xFF).
Proof.
  apply Z.bits_inj'; intros n Hn.
  rewrite Z.lxor_spec, Z.land_spec, Z.shiftl_spec by exact Hn.
  change 0xFF with (Z.ones 8).
  destruct (Z.ltb_spec n 8).
  - rewrite (Z.testbit_neg_r _ (n - 8)) by lia. rewrite Z.ones_spec_low by lia.
    rewrite andb_true_r. reflexivity.
  - rewrite Z.shiftr_spec by lia. rewrite Z.ones_spec_high by lia.
    rewrite andb_false_r, xorb_false_r. f_equal. lia.
Qed.

Lemma table_agrees_low : forallb table_agrees all_u8 = true.
Proof. vm_compute. reflexivity. Qed.

Lemma high_byte_passes_all : forallb high_byte_passes all_u8 = true.
Proof. vm_compute. reflexivity. Qed.

Lemma in_all_u8 x : 0 <= x < 2 ^ 8 -> In x all_u8.
Proof. intros H. unfold all_u8. apply in_z_range. lia. Qed.

Lemma crc_shifts_table x :
  0 <= x < 2 ^ 16 ->
  crc_shifts 8 x =
  Z.lxor (Z.shiftr x 8) (nth (Z.to_nat (Z.land x 0xFF)) crc16_table 0).
Proof.
  intros Hx.
  assert (Hhi : 0 <= Z.shiftr x 8 < 2 ^ 8).
  { rewrite Z.shiftr_div_pow2 by lia. split.
    - apply Z.div_pos; lia.
    - apply Z.div_lt_upper_bound; lia. }
  assert (Hlo : 0 <= Z.land x 0xFF < 2 ^ 8).
  { change 0xFF with (Z.ones 8). rewrite Z.land_ones by lia.
    apply Z.mod_pos_bound. lia. }
  rewrite (split_low_byte x) at 1. rewrite crc_shifts_lxor.
  pose proof high_byte_passes_all as H1. rewrite forallb_forall in H1.
  specialize (H1 _ (in_all_u8 _ Hhi)). apply Z.eqb_eq in H1. rewrite H1.
  pose proof table_agrees_low as H2. rewrite forallb_forall in H2.
  specialize (H2 _ (in_all_u8 _ Hlo)). apply Z.eqb_eq in H2. rewrite H2.
  f_equal.
  assert (E : Z.shiftr (Z.land x 0xFF) 8 = 0).
  { rewrite Z.shiftr_div_pow2 by lia. apply Z.div_small. lia. }
  rewrite E, Z.lxor_0_l.
  assert (E2 : Z.land (Z.land x 0xFF) 0xFF = Z.land x 0xFF).
  { rewrite <- Z.land_assoc. reflexivity. }
  rewrite E2. reflexivity.
Qed.

Lemma crc_byte_table data crc i :
  0 <= crc < 2 ^ 16 ->
  crc_byte data crc i = crc16_update crc (nth i data x00).
Proof.
  intros Hc. unfold crc_byte, crc16_update.
  pose proof (byte_val_range (nth i data x00)) as Hb.
  set (b := byte_val (nth i data x00)) in *.
  assert (Hx : u16 (Z.lxor crc b) = Z.lxor crc b).
  { rewrite u16_lxor, !u16_small; [reflexivity | lia | lia]. }
  rewrite Hx, crc_shifts_table.
  - rewrite Z.shiftr_lxor. f_equal.
    rewrite (Z.shiftr_div_pow2 b) by lia.
    rewrite (Z.div_small b) by lia. apply Z.lxor_0_r.
  - rewrite <- Hx. apply u16_range.
Qed.

Lemma firstn_snoc_nth {A} (d : A) (l : list A) n :
  (n < length l)%nat -> firstn (S n) l = firstn n l ++ [nth n l d].
Proof.
  revert n; induction l as [|a l IH]; intros n H; simpl in H; [lia|].
  destruct n as [|n]; [reflexivity|].
  change (a :: firstn (S n) l = a :: (firstn n l ++ [nth n l d])).
  f_equal. apply IH. lia.
Qed.

Lemma calculateCRC16_reference data n :
  (n <= length data)%nat ->
  calculateCRC16 data n = crc16_reference (firstn n data).
Proof.
  induction n as [|n IH]; intros H; [reflexivity|].
  rewrite calculateCRC16_S, (firstn_snoc_nth x00) by lia.
  unfold crc16_reference. rewrite fold_left_app. simpl.
  fold (crc16_reference (firstn n data)). rewrite <- IH by lia.
  apply crc_byte_table, calculateCRC16_range.
Qed.

Lemma calculateCRC16_nth_ext data data' n :
  (forall i, (i < n)%nat -> nth i data' x00 = nth i data x00) ->
  calculateCRC16 data' n = calculateCRC16 data n.
Proof.
  induction n as [|n IH]; intros H; [reflexivity|].
  rewrite !calculateCRC16_S, IH by (intros; apply H; lia).
  unfold crc_byte. rewrite H by lia. reflexivity.
Qed.

(** Only the bytes below [length] are read. *)
Lemma calculateCRC16_ext data data' n :
  firstn n data' = firstn n data ->
  calculateCRC16 data' n = calculateCRC16 data n.
Proof.
  intros H. apply calculateCRC16_nth_ext. intros i Hi.
  assert (Hlt : (i <? n)%nat = true) by (apply Nat.ltb_lt; exact Hi).
  pose proof (nth_firstn n data i x00) as H1.
  pose proof (nth_firstn n data' i x00) as H2.
  rewrite Hlt in H1, H2. rewrite <- H1, <- H2, H. reflexivity.
Qed.

Lemma calculateCRC16_firstn data n :
  (n <= length data)%nat ->
  calculateCRC16 data n = calculateCRC16 (firstn n data) (length (firstn n data)).
Proof.
  intros H. rewrite length_firstn, Nat.min_l by exact H.
  symmetry. apply calculateCRC16_ext. rewrite firstn_firstn, Nat.min_id. reflexivity.
Qed.

Lemma count_small sr : 0 <= sr -> u16 (Z.min sr (Z.quot PACKET_SIZE 2)) = Z.min sr (Z.quot PACKET_SIZE 2).
Proof.
  intros H. apply u16_small. change (Z.quot PACKET_SIZE 2) with 240. lia.
Qed.

Lemma sendAudioData_eq isFinal e s :
  0 <= samplesRead s -> length (sendBuffer s) = Z.to_nat PACKET_SIZE ->
  sendAudioData isFinal e s =
  ({| audioBuffer := audioBuffer s;
      sendBuffer := sendBuffer s;
      samplesRead := samplesRead s;
      audioReady := audioReady s;
      silenceCounter := silenceCounter s;
      voiceCounter := voiceCounter s;
      isTransmitting := isTransmitting s;
      lastActivityTime := lastActivityTime s;
      packetSequence := u32 (packetSequence s + 1) |},
   UdpDatagram
     (packet_with (packetSequence s) (flag_byte isFinal (packetSequence s)) e
        (Z.min (samplesRead s) (Z.quot PACKET_SIZE 2))
        (payload_bytes (samplesRead s) (sendBuffer s)))
     (payload_bytes (samplesRead s) (sendBuffer s))
   :: udp_log e).
Proof.
  intros Hsr Hsb. unfold sendAudioData, build_header, packet_with, payload_bytes.
  proj. rewrite count_small by exact Hsr.
  set (n := Z.to_nat (Z.min (samplesRead s) (Z.quot PACKET_SIZE 2) * 2)).
  assert (Hn : (n <= length (sendBuffer s))%nat).
  { rewrite Hsb. subst n. change (Z.quot PACKET_SIZE 2) with 240. unfold PACKET_SIZE. lia. }
  rewrite <- (calculateCRC16_firstn _ _ Hn).
  do 3 f_equal. unfold flag_byte, first_flag.
  destruct (u32 (packetSequence s + 1) =? 1), isFinal; reflexivity.
Qed.

Lemma payload_copy sr (ab sb : list byte) :
  0 <= sr -> length ab = Z.to_nat (2 * BUFFER_SIZE) ->
  payload_bytes sr
    (firstn (Z.to_nat (Z.min sr (Z.quot PACKET_SIZE 2) * 2)) ab ++
     skipn (Z.to_nat (Z.min sr (Z.quot PACKET_SIZE 2) * 2)) sb)
  = payload_bytes sr ab.
Proof.
  intros Hsr Hab. unfold payload_bytes.
  set (n := Z.to_nat (Z.min sr (Z.quot PACKET_SIZE 2) * 2)).
  assert (Hn : length (firstn n ab) = n).
  { rewrite length_firstn, Hab. subst n. change (Z.quot PACKET_SIZE 2) with 240.
    unfold BUFFER_SIZE. lia. }
  rewrite firstn_app, Hn, Nat.sub_diag, firstn_O, app_nil_r.
  rewrite firstn_firstn, Nat.min_id. reflexivity.
Qed.

Lemma copy_length sr (ab sb : list byte) :
  0 <= sr -> length ab = Z.to_nat (2 * BUFFER_SIZE) ->
  length sb = Z.to_nat PACKET_SIZE ->
  length (firstn (Z.to_nat (Z.min sr (Z.quot PACKET_SIZE 2) * 2)) ab ++
          skipn (Z.to_nat (Z.min sr (Z.quot PACKET_SIZE 2) * 2)) sb)
  = Z.to_nat PACKET_SIZE.
Proof.
  intros Hsr Hab Hsb.
  rewrite length_app, length_firstn, length_skipn, Hab, Hsb.
  change (Z.quot PACKET_SIZE 2) with 240. unfold BUFFER_SIZE, PACKET_SIZE. lia.
Qed.

Lemma loop_audio e s :
  audioReady s = true -> buffers_ok s -> 1 <= samplesRead s ->
  let r := vad_next (pending_voiced s) (control_of s) in
  exists s',
    loop e s = Ok (s', wifi_log e ++ pass_effects e s) /\
    control_of s' = fst r /\
    audioBuffer s' = audioBuffer s /\ samplesRead s' = samplesRead s /\
    audioReady s' = false /\ buffers_ok s' /\
    lastActivityTime s' =
      (if pending_voiced s then u32 (millis_vad e) else lastActivityTime s) /\
    sendBuffer s' =
      (if c_tx (fst r)
       then payload_bytes (samplesRead s) (audioBuffer s) ++
            skipn (length (payload_bytes (samplesRead s) (audioBuffer s))) (sendBuffer s)
       else sendBuffer s).
Proof.
  intros Hr (Hab & Hsb & Hsr) H1.
  destruct s as [ab sb sr ar sc vc tx la ps]. proj. subst ar.
  assert (H0 : 0 <= sr) by lia.
  pose proof (copy_length sr ab sb H0 Hab Hsb) as Hcl.
  pose proof (payload_copy sr ab sb H0 Hab) as Hpc.
  assert (Hpl : length (payload_bytes sr ab) = Z.to_nat (Z.min sr (Z.quot PACKET_SIZE 2) * 2)).
  { unfold payload_bytes. rewrite length_firstn, Hab.
    change (Z.quot PACKET_SIZE 2) with 240. unfold BUFFER_SIZE. lia. }
  unfold loop, processAudioWithVAD, mean_energy, pass_effects, pending_voiced. proj.
  assert (Hu : u32 sr = sr) by (apply u32_small; unfold BUFFER_SIZE in *; lia).
  rewrite Hu. destruct (Z.eqb_spec sr 0) as [E|_]; [lia|]. proj.
  destruct (energy_sum ab sr / sr >? ENERGY_THRESHOLD).
  - unfold on_voice, vad_next. proj.
    destruct tx; proj.
    + unfold copy_to_sendBuffer. proj. rewrite sendAudioData_eq by (proj; assumption).
      proj. rewrite Hpc, Hpl. unfold flag_byte. rewrite ?app_nil_r.
      eexists. split; [reflexivity|]. proj. unfold buffers_ok; proj. 
      repeat split; try assumption; try reflexivity; try lia.
    + destruct (i32 (vc + 1) >=? MIN_VOICE_FRAMES); proj.
      * unfold copy_to_sendBuffer. proj. rewrite sendAudioData_eq by (proj; assumption).
        proj. rewrite Hpc, Hpl. unfold flag_byte. rewrite ?app_nil_r.
        change (first_flag 0) with 1. change (u32 (0 + 1)) with 1.
        eexists. split; [reflexivity|]. proj. unfold buffers_ok; proj.
        repeat split; try assumption; try reflexivity; try lia.
      * eexists. split; [reflexivity|]. proj. unfold buffers_ok; proj.
        repeat split; try assumption; try reflexivity; try lia.
  - unfold on_silence, vad_next. proj.
    destruct tx; proj.
    + destruct (i32 (sc + 1) >=? SILENCE_FRAMES); proj.
      * rewrite sendAudioData_eq by (proj; assumption). proj. unfold flag_byte.
        eexists. split; [reflexivity|]. proj. unfold buffers_ok; proj.
        repeat split; try assumption; try reflexivity; try lia.
      * unfold copy_to_sendBuffer. proj. rewrite sendAudioData_eq by (proj; assumption).
        proj. rewrite Hpc, Hpl. unfold flag_byte. rewrite ?app_nil_r.
        change (first_flag 0) with 1. change (u32 (0 + 1)) with 1.
        eexists. split; [reflexivity|]. proj. unfold buffers_ok; proj.
        repeat split; try assumption; try reflexivity; try lia.
    + eexists. split; [reflexivity|]. proj. unfold buffers_ok; proj.
      repeat split; try assumption; try reflexivity; try lia.
Qed.

Lemma loop_idle e s : audioReady s = false -> loop e s = Ok (s, wifi_log e).
Proof. intros H. unfold loop. rewrite H. reflexivity. Qed.

(** A pass that returns has not divided by zero. *)
Lemma loop_Ok_samples e s r :
  loop e s = Ok r -> audioReady s = true -> 0 <= samplesRead s <= BUFFER_SIZE ->
  1 <= samplesRead s.
Proof.
  unfold loop, processAudioWithVAD, mean_energy. intros H Hr Hsr.
  rewrite Hr in H. proj.
  rewrite u32_small in H by (unfold BUFFER_SIZE in *; lia).
  destruct (Z.eqb_spec (samplesRead s) 0) as [E|E]; [discriminate H | lia].
Qed.

(** ** The capture callback *)

Lemma onPDMdata_Ok pdm s s' :
  onPDMdata pdm s = Ok s' ->
  control_of s' = control_of s /\ sendBuffer s' = sendBuffer s /\
  lastActivityTime s' = lastActivityTime s /\
  ((pdm = [] /\ s' = s) \/
   (1 <= Z.of_nat (length pdm) <= 2 * BUFFER_SIZE /\
    audioBuffer s' = pdm ++ skipn (length pdm) (audioBuffer s) /\
    samplesRead s' = Z.quot (Z.of_nat (length pdm)) 2 /\
    audioReady s' = true)).
Proof.
  unfold onPDMdata. intros H.
  destruct (Z.gtb_spec (Z.of_nat (length pdm)) 0) as [Hpos|Hz].
  - destruct (Z.gtb_spec (Z.of_nat (length pdm)) (2 * BUFFER_SIZE)) as [Hbig|Hfit];
      [discriminate H|].
    injection H as <-. proj. repeat split; try reflexivity.
    right. repeat split; try lia.
    apply i32_small.
    pose proof (Z.quot_pos (Z.of_nat (length pdm)) 2).
    pose proof (Z.quot_lt (Z.of_nat (length pdm)) 2).
    unfold BUFFER_SIZE in Hfit. lia.
  - injection H as <-. repeat split; try reflexivity.
    left. split; [|reflexivity]. destruct pdm; [reflexivity | simpl in Hz; lia].
Qed.

Lemma onPDMdata_capture_ok pdm s :
  capture_ok pdm ->
  exists s', onPDMdata pdm s = Ok s' /\
    audioBuffer s' = pdm ++ skipn (length pdm) (audioBuffer s) /\
    samplesRead s' = Z.quot (Z.of_nat (length pdm)) 2 /\
    1 <= samplesRead s' /\ audioReady s' = true /\
    control_of s' = control_of s /\ sendBuffer s' = sendBuffer s /\
    lastActivityTime s' = lastActivityTime s.
Proof.
  intros [Hlo Hhi].
  destruct (onPDMdata pdm s) as [s'|f] eqn:E.
  - exists s'. split; [reflexivity|].
    destruct (onPDMdata_Ok _ _ _ E) as (Hc & Hsb & Hla & [[Hnil _]|(_ & Hab & Hsr & Hr)]).
    + subst pdm. simpl in Hlo. lia.
    + repeat split; try assumption.
      rewrite Hsr. apply Z.quot_le_lower_bound; lia.
  - unfold onPDMdata in E.
    destruct (Z.gtb_spec (Z.of_nat (length pdm)) 0); [|lia].
    destruct (Z.gtb_spec (Z.of_nat (length pdm)) (2 * BUFFER_SIZE)); [lia|discriminate E].
Qed.

Lemma onPDMdata_buffers pdm s s' :
  onPDMdata pdm s = Ok s' -> buffers_ok s -> buffers_ok s'.
Proof.
  intros H (Hab & Hsb & Hsr).
  destruct (onPDMdata_Ok _ _ _ H) as (_ & Hsb' & _ & [[_ ->]|(Hlen & Hab' & Hsr' & _)]).
  - repeat split; tauto.
  - unfold buffers_ok. rewrite Hab', Hsb', Hsr', length_app, length_skipn, Hab.
    pose proof (Z.quot_pos (Z.of_nat (length pdm)) 2).
    assert (Z.quot (Z.of_nat (length pdm)) 2 <= BUFFER_SIZE).
    { apply Z.quot_le_upper_bound; lia. }
    unfold BUFFER_SIZE in *. repeat split; try assumption; lia.
Qed.

(** ** The energy of a capture *)

Lemma fold_left_ext_in {A B} (f g : A -> B -> A) (l : list B) :
  (forall a b, In b l -> f a b = g a b) ->
  forall a, fold_left f l a = fold_left g l a.
Proof.
  induction l as [|b l IH]; intros H a; [reflexivity|].
  simpl. rewrite H by (left; reflexivity).
  apply IH. intros; apply H; right; assumption.
Qed.

Lemma sample_at_app pdm rest i :
  (2 * i + 1 < length pdm)%nat ->
  sample_at (pdm ++ rest) i = sample_at pdm i.
Proof.
  intros H. unfold sample_at. rewrite !app_nth1 by lia. reflexivity.
Qed.

Lemma energy_sum_app pdm rest n :
  0 <= n -> 2 * n <= Z.of_nat (length pdm) ->
  energy_sum (pdm ++ rest) n = energy_sum pdm n.
Proof.
  intros H0 Hn. unfold energy_sum. apply fold_left_ext_in.
  intros a i Hi. apply in_seq in Hi. rewrite sample_at_app by lia. reflexivity.
Qed.

Lemma pending_voiced_capture pdm s s' :
  capture_ok pdm -> onPDMdata pdm s = Ok s' ->
  forall e, pending_voiced s' = voiced (pdm, e).
Proof.
  intros Hok H e.
  destruct (onPDMdata_capture_ok pdm s Hok) as (s1 & H1 & Hab & Hsr & Hpos & _).
  rewrite H in H1. injection H1 as <-.
  unfold pending_voiced, voiced, frame_energy. cbn [fst].
  rewrite Hab, Hsr. destruct Hok as [Hlo Hhi].
  pose proof (Z.quot_pos (Z.of_nat (length pdm)) 2) as Hq0.
  assert (Hq : 2 * Z.quot (Z.of_nat (length pdm)) 2 <= Z.of_nat (length pdm)).
  { apply Z.mul_quot_le; lia. }
  rewrite energy_sum_app by lia.
  rewrite u32_small; [reflexivity|].
  unfold BUFFER_SIZE in Hhi. lia.
Qed.

(** ** Runs *)

Lemma run_cons s ev evs s2 fx :
  run s (ev :: evs) = Ok (s2, fx) ->
  exists s1 fx1 fx2,
    step s ev = Ok (s1, fx1) /\ run s1 evs = Ok (s2, fx2) /\ fx = fx1 ++ fx2.
Proof.
  simpl. destruct (step s ev) as [[s1 fx1]|f] eqn:E1; [|discriminate].
  cbn [bind]. destruct (run s1 evs) as [[s2' fx2]|f] eqn:E2; [|discriminate].
  cbn [bind]. intros H. injection H as <- <-.
  exists s1, fx1, fx2. repeat split. exact E2.
Qed.

Lemma run_app evs1 : forall s evs2,
  run s (evs1 ++ evs2) =
  ('(s1, fx1) <- run s evs1 ;;
   '(s2, fx2) <- run s1 evs2 ;;
   Ok (s2, fx1 ++ fx2)).
Proof.
  induction evs1 as [|ev evs1 IH]; intros s evs2.
  - simpl. destruct (run s evs2) as [[s2 fx2]|f]; reflexivity.
  - simpl. destruct (step s ev) as [[s1 fx1]|f]; [|reflexivity].
    cbn [bind]. rewrite IH.
    destruct (run s1 evs1) as [[s1' fx1']|f]; [|reflexivity].
    cbn [bind]. destruct (run s1' evs2) as [[s2 fx2]|f]; [|reflexivity].
    cbn [bind]. rewrite app_assoc. reflexivity.
Qed.

(** An invariant of [step] holds along every run, and what every step
    emits satisfies [P] is true of the whole trace. *)
Lemma run_invariant (I : state -> Prop) (P : effect -> Prop) :
  (forall s ev s' fx, I s -> step s ev = Ok (s', fx) -> I s' /\ Forall P fx) ->
  forall evs s s' fx, I s -> run s evs = Ok (s', fx) -> I s' /\ Forall P fx.
Proof.
  intros Hstep. induction evs as [|ev evs IH]; intros s s' fx Hi H.
  - simpl in H. injection H as <- <-. split; [assumption | constructor].
  - apply run_cons in H. destruct H as (s1 & fx1 & fx2 & H1 & H2 & ->).
    destruct (Hstep _ _ _ _ Hi H1) as [Hi1 Hp1].
    destruct (IH _ _ _ Hi1 H2) as [Hi2 Hp2].
    split; [assumption|]. apply Forall_app. split; assumption.
Qed.

(** ** What a step does, case by case *)

Lemma step_cases s ev s' fx :
  step s ev = Ok (s', fx) -> buffers_ok s ->
  buffers_ok s' /\
  ((control_of s' = control_of s /\ sendBuffer s' = sendBuffer s /\
    lastActivityTime s' = lastActivityTime s /\
    (fx = [] \/ fx = [SerialPrintln MsgWifiLost])) \/
   (exists e, ev = Pass e /\ audioReady s = true /\ 1 <= samplesRead s /\
      fx = wifi_log e ++ pass_effects e s /\
      control_of s' = fst (vad_next (pending_voiced s) (control_of s)))).
Proof.
  intros H Hb. destruct ev as [pdm|e]; simpl in H.
  - destruct (onPDMdata pdm s) as [s1|f] eqn:E; [|discriminate H].
    cbn [bind] in H. injection H as <- <-.
    split; [eapply onPDMdata_buffers; eassumption|].
    left. destruct (onPDMdata_Ok _ _ _ E) as (Hc & Hsb & Hla & _).
    repeat split; try assumption. left; reflexivity.
  - destruct (audioReady s) eqn:Hr.
    + pose proof (loop_Ok_samples _ _ _ H Hr (proj2 (proj2 Hb))) as H1.
      destruct (loop_audio e s Hr Hb H1) as (s1 & Hl & Hc & _ & _ & _ & Hb1 & _).
      rewrite H in Hl. injection Hl as <- ->.
      split; [assumption|]. right. exists e. repeat split; assumption.
    + rewrite loop_idle in H by assumption. injection H as <- <-.
      split; [assumption|]. left. repeat split.
      unfold wifi_log. destruct (wifi_connected e); [left|right]; reflexivity.
Qed.

(** ** The invariants *)

Lemma vad_next_counters v s c' :
  counters_ok s -> c' = fst (vad_next v (control_of s)) ->
  0 <= c_seq c' < 2 ^ 32 /\
  (if c_tx c'
   then 0 <= c_silence c' < SILENCE_FRAMES
   else 0 <= c_voice c' < MIN_VOICE_FRAMES).
Proof.
  intros [Hps Hc] ->. unfold vad_next. proj.
  pose proof (u32_range (packetSequence s + 1)) as Hu.
  unfold SILENCE_FRAMES, MIN_VOICE_FRAMES in *.
  destruct v, (isTransmitting s); proj.
  - split; [exact Hu | lia].
  - rewrite i32_small by lia.
    destruct (Z.geb_spec (voiceCounter s + 1) 3); proj; split; lia.
  - rewrite i32_small by lia.
    destruct (Z.geb_spec (silenceCounter s + 1) 10); proj; split; lia.
  - split; lia.
Qed.

Lemma step_counters s ev s' fx :
  step s ev = Ok (s', fx) -> buffers_ok s -> counters_ok s -> counters_ok s'.
Proof.
  intros H Hb Hc.
  destruct (step_cases _ _ _ _ H Hb) as [_ [(Hctl & _)|(e & _ & _ & _ & _ & Hctl)]].
  - unfold counters_ok in *. unfold control_of in Hctl.
    injection Hctl as Hs Hv Ht Hp. rewrite Hs, Hv, Ht, Hp. exact Hc.
  - pose proof (vad_next_counters (pending_voiced s) s (control_of s') Hc Hctl) as H'.
    exact H'.
Qed.

Lemma initial_buffers : buffers_ok initial_state.
Proof.
  unfold buffers_ok, initial_state. proj. rewrite !repeat_length.
  unfold BUFFER_SIZE. repeat split; lia.
Qed.

Lemma initial_counters : counters_ok initial_state.
Proof. unfold counters_ok, initial_state. proj. unfold MIN_VOICE_FRAMES. lia. Qed.

Lemma run_ok evs : forall s s' fx,
  run s evs = Ok (s', fx) -> buffers_ok s -> counters_ok s ->
  buffers_ok s' /\ counters_ok s'.
Proof.
  intros s s' fx H Hb Hc.
  destruct (run_invariant (fun s => buffers_ok s /\ counters_ok s) (fun _ => True))
    with (evs := evs) (s := s) (s' := s') (fx := fx) as [Hi _];
    [ | split; assumption | assumption | exact Hi ].
  intros s0 ev s1 fx1 [Hb0 Hc0] Hs. split.
  - split; [exact (proj1 (step_cases _ _ _ _ Hs Hb0))
           | eapply step_counters; eassumption].
  - apply Forall_forall. intros; exact I.
Qed.

Lemma reachable_ok s : reachable s -> buffers_ok s /\ counters_ok s.
Proof.
  intros (evs & fx & H).
  eapply run_ok; [exact H | exact initial_buffers | exact initial_counters].
Qed.

(** ** Every datagram of a run *)

Lemma datagrams_app fx1 fx2 :
  datagrams (fx1 ++ fx2) = datagrams fx1 ++ datagrams fx2.
Proof.
  induction fx1 as [|[h p|m] fx1 IH]; simpl; [reflexivity | f_equal; exact IH | exact IH].
Qed.

Lemma datagrams_wifi_log e : datagrams (wifi_log e) = [].
Proof. unfold wifi_log. destruct (wifi_connected e); reflexivity. Qed.

Lemma datagrams_udp_log e : datagrams (udp_log e) = [].
Proof. unfold udp_log. destruct (udp_ok e); reflexivity. Qed.

Lemma length_payload_bytes sr (buf : list byte) :
  0 <= sr -> (Z.to_nat PACKET_SIZE <= length buf)%nat ->
  Z.of_nat (length (payload_bytes sr buf)) = Z.min sr (Z.quot PACKET_SIZE 2) * 2.
Proof.
  intros Hsr Hbuf. unfold payload_bytes. rewrite length_firstn.
  change (Z.quot PACKET_SIZE 2) with 240 in *. unfold PACKET_SIZE in Hbuf. lia.
Qed.

(** The datagrams of one pass: at most one, with the numbering of
    [vad_next]. *)
Lemma datagrams_pass_effects e s :
  buffers_ok s -> 1 <= samplesRead s -> counters_ok s ->
  numbering (pass_effects e s) = snd (vad_next (pending_voiced s) (control_of s)) /\
  (length (datagrams (pass_effects e s)) <= 1)%nat /\
  Forall datagram_ok (datagrams (pass_effects e s)).
Proof.
  intros (Hab & Hsb & Hsr) H1 [Hps _].
  assert (Hlen : forall b : bool,
    Z.of_nat (length (payload_bytes (samplesRead s)
                        (if b then sendBuffer s else audioBuffer s)))
    = Z.min (samplesRead s) (Z.quot PACKET_SIZE 2) * 2).
  { intros b. apply length_payload_bytes; [lia|].
    destruct b; [rewrite Hsb | rewrite Hab]; unfold BUFFER_SIZE, PACKET_SIZE; lia. }
  unfold pass_effects, numbering, vad_next. proj.
  pose proof (u32_range (packetSequence s + 1)) as Hu.
  destruct (pending_voiced s), (isTransmitting s); proj;
    try destruct (i32 (voiceCounter s + 1) >=? MIN_VOICE_FRAMES);
    try destruct (i32 (silenceCounter s + 1) >=? SILENCE_FRAMES);
    proj; simpl datagrams; rewrite ?datagrams_app, ?datagrams_udp_log;
    simpl; (split; [reflexivity|]); (split; [lia|]);
    repeat constructor; unfold packet_with; proj;
    try exact (Hlen false); try exact (Hlen true);
    change (Z.quot PACKET_SIZE 2) with 240; try lia.
Qed.

Lemma step_datagrams s ev s' fx :
  step s ev = Ok (s', fx) -> buffers_ok s -> counters_ok s ->
  Forall datagram_ok (datagrams fx).
Proof.
  intros H Hb Hc.
  destruct (step_cases _ _ _ _ H Hb) as [_ [(_ & _ & _ & [-> | ->])|(e & _ & _ & H1 & -> & _)]];
    try (simpl; constructor).
  rewrite datagrams_app, datagrams_wifi_log. simpl.
  apply datagrams_pass_effects; assumption.
Qed.

Lemma run_datagrams evs : forall s s' fx,
  run s evs = Ok (s', fx) -> buffers_ok s -> counters_ok s ->
  Forall datagram_ok (datagrams fx).
Proof.
  induction evs as [|ev evs IH]; intros s s' fx H Hb Hc.
  - simpl in H. injection H as <- <-. constructor.
  - apply run_cons in H. destruct H as (s1 & fx1 & fx2 & H1 & H2 & ->).
    rewrite datagrams_app. apply Forall_app. split.
    + eapply step_datagrams; eassumption.
    + destruct (run_ok [ev] s s1 fx1) as [Hb1 Hc1]; try assumption.
      { simpl. rewrite H1. cbn [bind]. rewrite app_nil_r. reflexivity. }
      eapply IH; eassumption.
Qed.

(** ** The checksum, continued *)

Lemma calculateCRC16_bitwise payload :
  calculateCRC16 payload (length payload) = crc16_bitwise payload.
Proof.
  induction payload as [|b l IH] using rev_ind; [reflexivity|].
  rewrite length_app, Nat.add_1_r, calculateCRC16_S.
  unfold crc16_bitwise in *. rewrite fold_left_app. cbn [fold_left].
  rewrite <- IH.
  assert (E : calculateCRC16 (l ++ [b]) (length l) = calculateCRC16 l (length l)).
  { apply calculateCRC16_ext. rewrite firstn_app, Nat.sub_diag, firstn_O, app_nil_r.
    reflexivity. }
  unfold crc_byte. rewrite E, app_nth2, Nat.sub_diag by lia. simpl nth.
  f_equal. rewrite u16_lxor, !u16_small; [reflexivity | |].
  - pose proof (byte_val_range b). lia.
  - apply calculateCRC16_range.
Qed.

(** C2.  The integrity code is the CRC-16 of polynomial 0xA001 (reflected)
    with seed 0xFFFF: on every payload [calculateCRC16] agrees with the
    table-driven reference and with the byte-by-byte description (eight
    shift/XOR steps per byte), and fits 16 bits; it reads only the first
    [length] bytes at the pointer; on length 0 it returns the seed 0xFFFF;
    the single byte 0x00 gives 0x40BF; and in every datagram of every run
    the checksum field is that code of the payload bytes alone, the
    header taking no part. *)
Theorem C2_checksum_is_crc16 :
  (forall payload : list byte,
     calculateCRC16 payload (length payload) = crc16_reference payload /\
     calculateCRC16 payload (length payload) = crc16_bitwise payload /\
     0 <= calculateCRC16 payload (length payload) < 2 ^ 16) /\
  (forall (data : list byte) (n : nat),
     calculateCRC16 data n = calculateCRC16 (firstn n data) n) /\
  (forall data : list byte, calculateCRC16 data 0 = 0xFFFF) /\
  calculateCRC16 [x00] 1 = 0x40BF /\
  (forall evs s fx h p,
     run initial_state evs = Ok (s, fx) -> In (h, p) (datagrams fx) ->
     checksum h = calculateCRC16 p (length p) /\
     Z.of_nat (length p) = samples_count h * 2).
Proof.
  split; [|split; [|split; [|split]]].
  - intros payload. split; [|split].
    + rewrite calculateCRC16_reference by lia. rewrite firstn_all. reflexivity.
    + apply calculateCRC16_bitwise.
    + apply calculateCRC16_range.
  - intros data n. symmetry. apply calculateCRC16_ext.
    rewrite firstn_firstn, Nat.min_id. reflexivity.
  - reflexivity.
  - vm_compute. reflexivity.
  - intros evs s fx h p Hrun Hin.
    pose proof (run_datagrams _ _ _ _ Hrun initial_buffers initial_counters) as Hall.
    rewrite Forall_forall in Hall. specialize (Hall _ Hin).
    destruct Hall as (Hc & _ & Hl & _). split; assumption.
Qed.

Lemma scenario_run :
  run initial_state (flat_map frame_events scenario)
  = Ok (final_state (feed initial_state scenario),
        effects_of (feed initial_state scenario)).
Proof. vm_compute. reflexivity. Qed.

Lemma C2_checksum_witness :
  checksum (fst scenario_first) =
    calculateCRC16 (snd scenario_first) (length (snd scenario_first)) /\
  Z.of_nat (length (snd scenario_first)) = samples_count (fst scenario_first) * 2.
Proof.
  apply (proj2 (proj2 (proj2 (proj2 C2_checksum_is_crc16)))
           (flat_map frame_events scenario)
           (final_state (feed initial_state scenario))
           (effects_of (feed initial_state scenario))).
  - exact scenario_run.
  - vm_compute. left. reflexivity.
Defined.

(** ** Frames *)

Lemma feed_cons s f fs :
  feed s (f :: fs) =
  ('(s1, fx1) <- feed s [f] ;;
   '(s2, fx2) <- feed s1 fs ;;
   Ok (s2, fx1 ++ fx2)).
Proof.
  unfold feed. cbn [flat_map]. rewrite app_nil_r. apply run_app.
Qed.

Lemma numbering_pass_effects e s :
  numbering (pass_effects e s) = snd (vad_next (pending_voiced s) (control_of s)).
Proof.
  unfold pass_effects, numbering, vad_next. proj.
  destruct (pending_voiced s), (isTransmitting s); proj;
    try destruct (i32 (voiceCounter s + 1) >=? MIN_VOICE_FRAMES);
    try destruct (i32 (silenceCounter s + 1) >=? SILENCE_FRAMES);
    proj; simpl datagrams; rewrite ?datagrams_app, ?datagrams_udp_log;
    reflexivity.
Qed.

Lemma numbering_app fx1 fx2 : numbering (fx1 ++ fx2) = numbering fx1 ++ numbering fx2.
Proof. unfold numbering. rewrite datagrams_app. apply map_app. Qed.

(** One frame moves the control state by [vad_next] at the frame's
    classification; it never faults on a well-formed capture. *)
Lemma feed_frame s f :
  buffers_ok s -> frame_ok f ->
  exists s' fx,
    feed s [f] = Ok (s', fx) /\
    control_of s' = fst (vad_next (voiced f) (control_of s)) /\
    numbering fx = snd (vad_next (voiced f) (control_of s)) /\
    buffers_ok s' /\ audioReady s' = false.
Proof.
  intros Hb Hok. destruct f as [pdm e]. unfold frame_ok in Hok. cbn [fst] in Hok.
  destruct (onPDMdata_capture_ok pdm s Hok) as (s1 & H1 & _ & _ & Hpos & Hr & Hc & _).
  pose proof (onPDMdata_buffers _ _ _ H1 Hb) as Hb1.
  destruct (loop_audio e s1 Hr Hb1 Hpos) as (s2 & Hl & Hc2 & _ & _ & Hr2 & Hb2 & _).
  exists s2, (wifi_log e ++ pass_effects e s1).
  rewrite (pending_voiced_capture pdm s s1 Hok H1 e), Hc in Hc2.
  split; [|split; [assumption|split; [|split; assumption]]].
  - unfold feed, frame_events. cbn [flat_map fst snd app run step].
    rewrite H1. cbn [bind]. rewrite Hl. cbn [bind]. rewrite app_nil_r. reflexivity.
  - rewrite numbering_app. unfold numbering at 1. rewrite datagrams_wifi_log.
    cbn [map app]. rewrite numbering_pass_effects.
    rewrite (pending_voiced_capture pdm s s1 Hok H1 e), Hc. reflexivity.
Qed.

Lemma feed_control fs : forall s,
  buffers_ok s -> Forall frame_ok fs ->
  exists s' fx,
    feed s fs = Ok (s', fx) /\
    control_of s' = fst (control_run (map voiced fs) (control_of s)) /\
    numbering fx = snd (control_run (map voiced fs) (control_of s)) /\
    buffers_ok s'.
Proof.
  induction fs as [|f fs IH]; intros s Hb Hall.
  - exists s, []. split; [reflexivity|]. split; [reflexivity|]. split; [reflexivity | assumption].
  - inversion Hall as [|? ? Hf Hfs]; subst.
    destruct (feed_frame s f Hb Hf) as (s1 & fx1 & H1 & Hc1 & Hn1 & Hb1 & _).
    destruct (IH s1 Hb1 Hfs) as (s2 & fx2 & H2 & Hc2 & Hn2 & Hb2).
    exists s2, (fx1 ++ fx2).
    rewrite feed_cons, H1. cbn [bind]. rewrite H2. cbn [bind].
    cbn [map control_run].
    destruct (vad_next (voiced f) (control_of s)) as [c1 out1] eqn:E1.
    cbn [fst snd] in Hc1, Hn1. rewrite Hc1 in Hc2, Hn2.
    destruct (control_run (map voiced fs) c1) as [c2 out2] eqn:E2.
    cbn [fst snd] in *. rewrite numbering_app, Hn1, Hn2.
    split; [reflexivity|]. split; [assumption|]. split; [reflexivity | assumption].
Qed.

(** ** Counting consecutive frames on the control state *)

Lemma control_run_cons_fst v vs c :
  fst (control_run (v :: vs) c) = fst (control_run vs (fst (vad_next v c))).
Proof.
  cbn [control_run]. destruct (vad_next v c) as [c1 out1]. cbn [fst].
  destruct (control_run vs c1) as [c2 out2]. reflexivity.
Qed.



Lemma map_voiced_const (b : bool) fs :
  Forall (fun f => voiced f = b) fs -> map voiced fs = repeat b (length fs).
Proof.
  induction 1 as [|f fs Hf _ IH]; [reflexivity|].
  cbn [map length repeat]. rewrite Hf, IH. reflexivity.
Qed.

(** ** The two transitions on the control state *)


Lemma vad_next_stop v c :
  c_tx c = true -> 0 <= c_silence c < SILENCE_FRAMES ->
  let c' := fst (vad_next v c) in
  (c_tx c' = false <-> c_silence c' = SILENCE_FRAMES) /\
  (c_tx c' = false -> v = false /\ c_silence c = SILENCE_FRAMES - 1 /\ c_voice c' = 0).
Proof.
  unfold vad_next, SILENCE_FRAMES. intros Ht Hv. rewrite Ht.
  destruct v; proj.
  - split; [split; intros; [discriminate | lia] | discriminate].
  - rewrite i32_small by lia.
    destruct (Z.geb_spec (c_silence c + 1) 10); proj.
    + split; [split; intros; [lia | reflexivity] | intros; repeat split; lia].
    + split; [split; intros; [discriminate | lia] | discriminate].
Qed.

Lemma control_of_eq s s' :
  control_of s' = control_of s ->
  silenceCounter s' = silenceCounter s /\ voiceCounter s' = voiceCounter s /\
  isTransmitting s' = isTransmitting s /\ packetSequence s' = packetSequence s.
Proof. unfold control_of. intros H. injection H as -> -> -> ->. repeat split. Qed.


Lemma reachable_initial : reachable initial_state.
Proof. exists [], []. reflexivity. Qed.

Lemma frame_ok_loud : frame_ok (loud, env0).
Proof. unfold frame_ok, capture_ok. vm_compute. split; discriminate. Qed.

Lemma frame_ok_quiet : frame_ok (quiet, env0).
Proof. unfold frame_ok, capture_ok. vm_compute. split; discriminate. Qed.


Lemma voiced_quiet : voiced (quiet, env0) = false.
Proof. vm_compute. reflexivity. Qed.

Lemma Forall_repeat_intro {A} (P : A -> Prop) x n : P x -> Forall P (repeat x n).
Proof. intros H. induction n; simpl; constructor; assumption. Qed.


(** ** The end of an utterance *)

Lemma numbering_singleton fx sq fl :
  numbering fx = [(sq, fl)] ->
  exists h p, datagrams fx = [(h, p)] /\ sequence h = sq /\ flags h = fl.
Proof.
  unfold numbering. destruct (datagrams fx) as [|[h p] [|d ds]]; try discriminate.
  cbn [map fst]. intros H. injection H as <- <-. exists h, p. repeat split.
Qed.

Lemma vad_next_stop_out v c :
  c_tx c = true -> c_tx (fst (vad_next v c)) = false ->
  snd (vad_next v c) = [(c_seq c, Z.lor (first_flag (c_seq c)) 2)].
Proof.
  unfold vad_next. intros Ht. rewrite Ht.
  destruct v; proj; [discriminate|].
  destruct (i32 (c_silence c + 1) >=? SILENCE_FRAMES); proj;
    [reflexivity | discriminate].
Qed.

Lemma first_flag_cases sq : first_flag sq = 0 \/ first_flag sq = 1.
Proof. unfold first_flag. destruct (u32 (sq + 1) =? 1); [right|left]; reflexivity. Qed.

Lemma step_numbering s ev s' fx :
  step s ev = Ok (s', fx) -> buffers_ok s ->
  (control_of s' = control_of s /\ numbering fx = []) \/
  (exists e, ev = Pass e /\ audioReady s = true /\
     control_of s' = fst (vad_next (pending_voiced s) (control_of s)) /\
     numbering fx = snd (vad_next (pending_voiced s) (control_of s))).
Proof.
  intros H Hb.
  destruct (step_cases _ _ _ _ H Hb) as [_ [(Hctl & _ & _ & [-> | ->])|(e & -> & Hr & _ & -> & Hctl)]].
  - left. split; [assumption | reflexivity].
  - left. split; [assumption | reflexivity].
  - right. exists e. repeat split; try assumption.
    rewrite numbering_app. unfold numbering at 1. rewrite datagrams_wifi_log.
    cbn [map app]. apply numbering_pass_effects.
Qed.

(** C8, as the sketch has it.  On every Transmitting to Idle transition
    exactly one datagram is sent, it has flag bit 1 set, and afterwards
    the voice counter is 0 and the silence counter equals SILENCE_FRAMES:
    the transition does not reset it. *)
Theorem C8_final_packet_and_counters :
  forall s ev s' fx,
    reachable s -> step s ev = Ok (s', fx) ->
    isTransmitting s = true -> isTransmitting s' = false ->
    (exists h p, datagrams fx = [(h, p)] /\ end_flag h = true) /\
    voiceCounter s' = 0 /\ silenceCounter s' = SILENCE_FRAMES.
Proof.
  intros s ev s' fx Hre Hstep Htx Hidle.
  destruct (reachable_ok s Hre) as [Hb [_ Hc]]. rewrite Htx in Hc.
  destruct (step_numbering _ _ _ _ Hstep Hb) as [[Hctl _]|(e & _ & _ & Hctl & Hnum)].
  - apply control_of_eq in Hctl. destruct Hctl as (_ & _ & Ht & _). congruence.
  - assert (Hf : c_tx (fst (vad_next (pending_voiced s) (control_of s))) = false).
    { rewrite <- Hctl. exact Hidle. }
    destruct (vad_next_stop (pending_voiced s) (control_of s) Htx Hc) as [H1 H2].
    cbv zeta in H1, H2. destruct (H2 Hf) as (_ & _ & Hv). apply H1 in Hf.
    rewrite <- Hctl in Hf, Hv. proj.
    rewrite (vad_next_stop_out (pending_voiced s) (control_of s) Htx) in Hnum
      by (rewrite <- Hctl; exact Hidle).
    destruct (numbering_singleton _ _ _ Hnum) as (h & p & Hd & _ & Hfl).
    split; [|split; assumption].
    exists h, p. split; [assumption|]. unfold end_flag. rewrite Hfl.
    proj. destruct (first_flag_cases (packetSequence s)) as [-> | ->]; reflexivity.
Qed.

Lemma scenario_before_stop_run :
  run initial_state (removelast scenario_events)
  = Ok (scenario_before_stop, effects_of (run initial_state (removelast scenario_events))).
Proof. vm_compute. reflexivity. Qed.

Lemma scenario_before_stop_reachable : reachable scenario_before_stop.
Proof. eexists _, _. exact scenario_before_stop_run. Qed.

Lemma scenario_last_step :
  step scenario_before_stop (Pass env0)
  = Ok (final_state (step scenario_before_stop (Pass env0)),
        effects_of (step scenario_before_stop (Pass env0))).
Proof. vm_compute. reflexivity. Qed.

Lemma C8_final_packet_witness :
  (exists h p,
     datagrams (effects_of (step scenario_before_stop (Pass env0))) = [(h, p)] /\
     end_flag h = true) /\
  voiceCounter (final_state (step scenario_before_stop (Pass env0))) = 0 /\
  silenceCounter (final_state (step scenario_before_stop (Pass env0))) = SILENCE_FRAMES.
Proof.
  apply (C8_final_packet_and_counters scenario_before_stop (Pass env0)).
  - exact scenario_before_stop_reachable.
  - exact scenario_last_step.
  - vm_compute. reflexivity.
  - vm_compute. reflexivity.
Defined.

(** C8 as stated fails: the last pass of the scenario ends the utterance
    and leaves the silence counter at 10, not 0. *)
Lemma C8_silence_counter_not_reset :
  reachable scenario_before_stop /\
  isTransmitting scenario_before_stop = true /\
  step scenario_before_stop (Pass env0)
  = Ok (final_state (step scenario_before_stop (Pass env0)),
        effects_of (step scenario_before_stop (Pass env0))) /\
  isTransmitting (final_state (step scenario_before_stop (Pass env0))) = false /\
  silenceCounter (final_state (step scenario_before_stop (Pass env0))) = 10 /\
  silenceCounter (final_state (step scenario_before_stop (Pass env0))) <> 0.
Proof.
  split; [exact scenario_before_stop_reachable|].
  split; [vm_compute; reflexivity|].
  split; [exact scenario_last_step|].
  split; [vm_compute; reflexivity|].
  split; [vm_compute; reflexivity | vm_compute; discriminate].
Qed.

(** ** The scenario *)

Lemma scenario_voiced fs :
  map (fun f => frame_energy (fst f)) fs = scenario_energies ->
  map voiced fs = repeat true 3 ++ repeat false 10.
Proof.
  intros H.
  assert (E : map voiced fs =
              map (fun en => en >? ENERGY_THRESHOLD)
                  (map (fun f => frame_energy (fst f)) fs)).
  { rewrite map_map. reflexivity. }
  rewrite E.
  rewrite H. reflexivity.
Qed.

Lemma Forall_firstn {A} (P : A -> Prop) k (l : list A) :
  Forall P l -> Forall P (firstn k l).
Proof.
  intros H. rewrite Forall_forall in *. intros x Hx. apply H.
  rewrite <- (firstn_skipn k l). apply in_or_app. left. exact Hx.
Qed.

(** C4, as the sketch has it.  Any thirteen well-formed frames with
    energies 900, 900, 900 and ten times 200, fed after power-up, are
    processed without fault and produce eleven datagrams: none for the
    first two frames, then one per frame, numbered 0 to 10, the first with
    the start flag alone, the last (on the tenth silent frame) with the
    end flag alone, the others with no flag; the node transmits from the
    third frame to the twelfth and is idle after the thirteenth. *)
Theorem C4_scenario_eleven_packets :
  forall (fs : list frame) (k : nat),
    Forall frame_ok fs ->
    map (fun f => frame_energy (fst f)) fs = scenario_energies ->
    (k <= 13)%nat ->
    exists s' fx,
      feed initial_state (firstn k fs) = Ok (s', fx) /\
      numbering fx = firstn (k - 2) scenario_numbering /\
      length (datagrams fx) = (k - 2)%nat /\
      isTransmitting s' = (3 <=? k)%nat && (k <? 13)%nat.
Proof.
  intros fs k Hok Hen Hk.
  destruct (feed_control (firstn k fs) initial_state initial_buffers
              (Forall_firstn _ k fs Hok)) as (s' & fx & Hfeed & Hctl & Hnum & _).
  exists s', fx. split; [exact Hfeed|].
  rewrite <- firstn_map, (scenario_voiced fs Hen) in Hctl, Hnum.
  change (isTransmitting s') with (c_tx (control_of s')).
  assert (Hlen : length (datagrams fx) = length (numbering fx)).
  { unfold numbering. rewrite length_map. reflexivity. }
  rewrite Hlen, Hnum, Hctl.
  do 14 (destruct k as [|k]; [vm_compute; repeat split|]).
  lia.
Qed.

Lemma scenario_frames_ok : Forall frame_ok scenario.
Proof.
  unfold scenario. apply Forall_app. split; apply Forall_repeat_intro;
    [exact frame_ok_loud | exact frame_ok_quiet].
Qed.

Lemma scenario_has_energies :
  map (fun f => frame_energy (fst f)) scenario = scenario_energies.
Proof. vm_compute. reflexivity. Qed.

Lemma C4_scenario_witness :
  exists s' fx,
    feed initial_state (firstn 13 scenario) = Ok (s', fx) /\
    numbering fx = firstn (13 - 2) scenario_numbering /\
    length (datagrams fx) = (13 - 2)%nat /\
    isTransmitting s' = (3 <=? 13)%nat && (13 <? 13)%nat.
Proof.
  apply (C4_scenario_eleven_packets scenario 13).
  - exact scenario_frames_ok.
  - exact scenario_has_energies.
  - apply le_n.
Defined.

(** C4 as stated fails: the scenario sends eleven datagrams, not four. *)
Lemma C4_packet_count_is_eleven :
  map (fun f => frame_energy (fst f)) scenario = [900; 900; 900] ++ repeat 200 10 /\
  feed initial_state scenario
  = Ok (final_state (feed initial_state scenario),
        effects_of (feed initial_state scenario)) /\
  length (datagrams (effects_of (feed initial_state scenario))) = 11%nat /\
  length (datagrams (effects_of (feed initial_state scenario))) <> 4%nat.
Proof.
  split; [exact scenario_has_energies|].
  split; [exact scenario_run|].
  split; [vm_compute; reflexivity | vm_compute; discriminate].
Qed.

(** ** The datagram of a frame *)

Lemma datagrams_pass_effects_eq e s :
  let r := vad_next (pending_voiced s) (control_of s) in
  let stops := c_tx (control_of s) && negb (c_tx (fst r)) in
  let p := payload_bytes (samplesRead s)
             (if stops then sendBuffer s else audioBuffer s) in
  datagrams (pass_effects e s) =
  match snd r with
  | [] => []
  | (sq, fl) :: _ =>
      [(packet_with sq fl e (Z.min (samplesRead s) (Z.quot PACKET_SIZE 2)) p, p)]
  end.
Proof.
  cbv zeta. unfold pass_effects.
  destruct (snd (vad_next (pending_voiced s) (control_of s))) as [|[sq fl] tl];
    [reflexivity|].
  rewrite datagrams_app.
  match goal with |- datagrams (if ?b then _ else _) ++ _ = _ => destruct b end;
    cbn [datagrams app]; rewrite datagrams_app, datagrams_udp_log;
    match goal with |- context [datagrams (if ?b then _ else _)] => destruct b end;
    reflexivity.
Qed.

(** A frame, with what it sends. *)
Lemma feed_frame_effects s pdm e :
  buffers_ok s -> capture_ok pdm ->
  exists s1 s',
    onPDMdata pdm s = Ok s1 /\
    audioBuffer s1 = pdm ++ skipn (length pdm) (audioBuffer s) /\
    samplesRead s1 = Z.quot (Z.of_nat (length pdm)) 2 /\
    1 <= samplesRead s1 /\
    control_of s1 = control_of s /\ sendBuffer s1 = sendBuffer s /\
    pending_voiced s1 = voiced (pdm, e) /\ buffers_ok s1 /\
    feed s [(pdm, e)] = Ok (s', wifi_log e ++ pass_effects e s1) /\
    control_of s' = fst (vad_next (voiced (pdm, e)) (control_of s)) /\
    buffers_ok s'.
Proof.
  intros Hb Hok.
  destruct (onPDMdata_capture_ok pdm s Hok) as (s1 & H1 & Hab & Hsr & Hpos & Hr & Hc & Hsb & _).
  pose proof (onPDMdata_buffers _ _ _ H1 Hb) as Hb1.
  destruct (loop_audio e s1 Hr Hb1 Hpos) as (s2 & Hl & Hc2 & _ & _ & _ & Hb2 & _).
  pose proof (pending_voiced_capture pdm s s1 Hok H1 e) as Hv.
  exists s1, s2. rewrite Hv, Hc in Hc2.
  repeat (split; [assumption|]). split; [|split; assumption].
  unfold feed, frame_events. cbn [flat_map fst snd app run step].
  rewrite H1. cbn [bind]. rewrite Hl. cbn [bind]. rewrite app_nil_r. reflexivity.
Qed.

Lemma payload_bytes_capture pdm (rest : list byte) :
  payload_bytes (Z.quot (Z.of_nat (length pdm)) 2) (pdm ++ rest)
  = payload_bytes (Z.quot (Z.of_nat (length pdm)) 2) pdm.
Proof.
  unfold payload_bytes.
  set (n := Z.to_nat (Z.min (Z.quot (Z.of_nat (length pdm)) 2) (Z.quot PACKET_SIZE 2) * 2)).
  assert (Hn : (n <= length pdm)%nat).
  { subst n. pose proof (Z.mul_quot_le (Z.of_nat (length pdm)) 2).
    pose proof (Z.quot_pos (Z.of_nat (length pdm)) 2). lia. }
  rewrite firstn_app. replace (n - length pdm)%nat with 0%nat by lia.
  rewrite firstn_O, app_nil_r. reflexivity.
Qed.

Lemma length_le_bytes n : forall z, length (le_bytes n z) = n.
Proof. induction n as [|n IH]; intros z; simpl; [reflexivity | rewrite IH; reflexivity]. Qed.

Lemma length_header_bytes h : Z.of_nat (length (header_bytes h)) = HEADER_SIZE.
Proof.
  unfold header_bytes. rewrite !length_app, !length_le_bytes. reflexivity.
Qed.

Lemma datagram_size_eq h (p : list byte) :
  datagram_size (h, p) = HEADER_SIZE + Z.of_nat (length p).
Proof.
  unfold datagram_size, datagram_bytes. cbn [fst snd].
  rewrite length_app, Nat2Z.inj_add, length_header_bytes. reflexivity.
Qed.

(** ** A frame while transmitting *)

Lemma vad_next_tx v c :
  c_tx c = true ->
  exists fl, snd (vad_next v c) = [(c_seq c, fl)] /\
             c_seq (fst (vad_next v c)) = u32 (c_seq c + 1).
Proof.
  unfold vad_next. intros ->.
  destruct v; proj; [eexists; split; reflexivity|].
  destruct (i32 (c_silence c + 1) >=? SILENCE_FRAMES); proj;
    eexists; split; reflexivity.
Qed.

(** A frame captured while transmitting: one datagram. *)
Lemma frame_while_transmitting s f :
  reachable s -> frame_ok f -> isTransmitting s = true ->
  exists s' fx h p,
    feed s [f] = Ok (s', fx) /\
    datagrams fx = [(h, p)] /\
    sequence h = packetSequence s /\
    packetSequence s' = u32 (packetSequence s + 1) /\
    samples_count h = Z.min (frame_samples f) (Z.quot PACKET_SIZE 2) /\
    Z.of_nat (length p) = samples_count h * 2 /\
    control_of s' = fst (vad_next (voiced f) (control_of s)) /\
    (isTransmitting s' = true ->
     p = firstn (Z.to_nat (samples_count h * 2)) (fst f)).
Proof.
  destruct f as [pdm e]. intros Hre Hok Htx. unfold frame_ok in Hok. cbn [fst] in Hok.
  destruct (reachable_ok s Hre) as [Hb _].
  destruct (feed_frame_effects s pdm e Hb Hok)
    as (s1 & s' & _ & Hab & Hsr & Hpos & Hc1 & _ & Hv & Hb1 & Hfeed & Hctl & _).
  destruct (vad_next_tx (voiced (pdm, e)) (control_of s) Htx) as (fl & Hout & Hseq).
  pose proof (datagrams_pass_effects_eq e s1) as Hd. cbv zeta in Hd.
  rewrite Hv, Hc1, Hout in Hd.
  eexists s', _, _, _. split; [exact Hfeed|].
  rewrite datagrams_app, datagrams_wifi_log. cbn [app].
  split; [exact Hd|]. unfold packet_with, frame_samples. proj.
  split; [reflexivity|]. split; [rewrite <- Hseq, <- Hctl; reflexivity|].
  split; [rewrite Hsr; reflexivity|].
  split; [|split; [exact Hctl|]].
  - destruct Hb1 as (Hab1 & Hsb1 & _).
    apply length_payload_bytes; [lia|].
    match goal with |- context [if ?b then _ else _] => destruct b end;
      [rewrite Hsb1 | rewrite Hab1]; unfold BUFFER_SIZE, PACKET_SIZE; lia.
  - intros Ht. change (isTransmitting s') with (c_tx (control_of s')) in Ht.
    rewrite Hctl in Ht. rewrite Ht, Htx. cbn [negb andb].
    rewrite Hab, Hsr. apply payload_bytes_capture.
Qed.

(** C5, as the sketch has it.  A frame captured while transmitting is
    processed without fault and sends exactly one datagram, whatever the
    number of samples: it carries the current sequence number, the
    counter advances by one, the sample count is min(n, 240), and while
    the utterance goes on the payload is the first min(n, 240) samples of
    the capture.  Nothing is split; samples beyond the 240th are not
    sent. *)
Theorem C5_one_datagram_per_frame :
  forall s f,
    reachable s -> frame_ok f -> isTransmitting s = true ->
    exists s' fx h p,
      feed s [f] = Ok (s', fx) /\
      datagrams fx = [(h, p)] /\
      sequence h = packetSequence s /\
      packetSequence s' = u32 (packetSequence s + 1) /\
      samples_count h = Z.min (frame_samples f) (Z.quot PACKET_SIZE 2) /\
      (isTransmitting s' = true ->
       p = firstn (Z.to_nat (samples_count h * 2)) (fst f)).
Proof.
  intros s f Hre Hok Htx.
  destruct (frame_while_transmitting s f Hre Hok Htx)
    as (s' & fx & h & p & H1 & H2 & H3 & H4 & H5 & _ & _ & H6).
  exists s', fx, h, p. repeat split; assumption.
Qed.

Lemma scenario_transmitting_run :
  run initial_state (flat_map frame_events (repeat (loud, env0) 3))
  = Ok (scenario_transmitting,
        effects_of (feed initial_state (repeat (loud, env0) 3))).
Proof. vm_compute. reflexivity. Qed.

Lemma scenario_transmitting_reachable : reachable scenario_transmitting.
Proof. eexists _, _. exact scenario_transmitting_run. Qed.

Lemma C5_one_datagram_witness :
  exists s' fx h p,
    feed scenario_transmitting [(loud, env0)] = Ok (s', fx) /\
    datagrams fx = [(h, p)] /\
    sequence h = packetSequence scenario_transmitting /\
    packetSequence s' = u32 (packetSequence scenario_transmitting + 1) /\
    samples_count h = Z.min (frame_samples (loud, env0)) (Z.quot PACKET_SIZE 2) /\
    (isTransmitting s' = true ->
     p = firstn (Z.to_nat (samples_count h * 2)) (fst (loud, env0))).
Proof.
  apply (C5_one_datagram_per_frame scenario_transmitting (loud, env0)).
  - exact scenario_transmitting_reachable.
  - exact frame_ok_loud.
  - vm_compute. reflexivity.
Defined.

Lemma frame_ok_burst : frame_ok (burst, env0).
Proof. unfold frame_ok, capture_ok. vm_compute. split; discriminate. Qed.

Lemma voiced_burst : voiced (burst, env0) = true.
Proof. vm_compute. reflexivity. Qed.

(** A full buffer captured right after the utterance has started. *)
Lemma burst_while_transmitting :
  exists s' fx h p,
    feed scenario_transmitting [(burst, env0)] = Ok (s', fx) /\
    datagrams fx = [(h, p)] /\
    samples_count h = 240 /\
    Z.of_nat (length p) = 480 /\
    p = firstn 480 burst.
Proof.
  destruct (frame_while_transmitting scenario_transmitting (burst, env0)
              scenario_transmitting_reachable frame_ok_burst eq_refl)
    as (s' & fx & h & p & Hfeed & Hd & _ & _ & Hcnt & Hlen & Hctl & Hp).
  assert (Hn : Z.min (frame_samples (burst, env0)) (Z.quot PACKET_SIZE 2) = 240)
    by (vm_compute; reflexivity).
  rewrite Hn in Hcnt. rewrite Hcnt in Hlen, Hp.
  exists s', fx, h, p. repeat split; try assumption.
  apply Hp. change (isTransmitting s') with (c_tx (control_of s')).
  rewrite Hctl, voiced_burst. vm_compute. reflexivity.
Qed.

(** C5 as stated fails: a capture of 256 samples (512 bytes) taken while
    transmitting leaves in one datagram of 480 payload bytes; its last 16
    samples are never sent. *)
Lemma C5_frame_is_truncated :
  reachable scenario_transmitting /\
  isTransmitting scenario_transmitting = true /\
  frame_samples (burst, env0) = 256 /\
  exists s' fx h p,
    feed scenario_transmitting [(burst, env0)] = Ok (s', fx) /\
    datagrams fx = [(h, p)] /\
    samples_count h = 240 /\
    concat (map snd (datagrams fx)) = firstn 480 burst /\
    concat (map snd (datagrams fx)) <> burst.
Proof.
  split; [exact scenario_transmitting_reachable|].
  split; [vm_compute; reflexivity|].
  split; [vm_compute; reflexivity|].
  destruct burst_while_transmitting as (s' & fx & h & p & Hfeed & Hd & Hcnt & Hlen & Hp).
  exists s', fx, h, p. rewrite Hd. cbn [map snd concat]. rewrite app_nil_r.
  repeat split; try assumption.
  intros E. apply (f_equal (@length byte)) in E.
  apply (f_equal Z.of_nat) in E. rewrite Hlen in E. vm_compute in E. discriminate E.
Qed.

(** ** The size of a datagram *)

(** C7, as the sketch has it.  In every datagram of every run the sample
    count is between 1 and PACKET_SIZE/2 = 240, the payload is
    samples_count * 2 bytes, at most PACKET_SIZE = 480, and the datagram is
    the 18-byte packed header followed by the payload, at most 498 bytes
    in all; a capture of n samples, for every n from 1 to the 512 the
    buffer holds, is sent with samples_count = min(n, 240). *)
Theorem C7_datagram_size_bound :
  (forall evs s fx h p,
     run initial_state evs = Ok (s, fx) -> In (h, p) (datagrams fx) ->
     1 <= samples_count h <= Z.quot PACKET_SIZE 2 /\
     Z.of_nat (length p) = samples_count h * 2 /\
     Z.of_nat (length p) <= PACKET_SIZE /\
     datagram_size (h, p) = HEADER_SIZE + samples_count h * 2 /\
     datagram_size (h, p) <= HEADER_SIZE + PACKET_SIZE) /\
  (forall s f,
     reachable s -> frame_ok f ->
     1 <= frame_samples f <= BUFFER_SIZE /\
     exists s' fx,
       feed s [f] = Ok (s', fx) /\
       forall h p, In (h, p) (datagrams fx) ->
         samples_count h = Z.min (frame_samples f) (Z.quot PACKET_SIZE 2)).
Proof.
  split.
  - intros evs s fx h p Hrun Hin.
    pose proof (run_datagrams _ _ _ _ Hrun initial_buffers initial_counters) as Hall.
    rewrite Forall_forall in Hall. specialize (Hall _ Hin).
    destruct Hall as (_ & Hcnt & Hlen & _).
    rewrite datagram_size_eq, Hlen.
    change (Z.quot PACKET_SIZE 2) with 240 in *. unfold PACKET_SIZE, HEADER_SIZE.
    repeat split; lia.
  - intros s [pdm e] Hre Hok. unfold frame_ok in Hok. cbn [fst] in Hok.
    destruct (reachable_ok s Hre) as [Hb _].
    destruct (feed_frame_effects s pdm e Hb Hok)
      as (s1 & s' & _ & _ & Hsr & Hpos & _ & _ & _ & (_ & _ & Hhi) & Hfeed & _).
    unfold frame_samples. cbn [fst]. rewrite <- Hsr.
    split; [lia|].
    exists s', (wifi_log e ++ pass_effects e s1). split; [exact Hfeed|].
    intros h p Hin.
    rewrite datagrams_app, datagrams_wifi_log, datagrams_pass_effects_eq in Hin.
    cbn [app] in Hin.
    destruct (snd (vad_next (pending_voiced s1) (control_of s1))) as [|[sq fl] tl];
      [contradiction|].
    destruct Hin as [Hin|[]]. injection Hin as <- _. reflexivity.
Qed.

Lemma C7_datagram_size_witness :
  1 <= samples_count (fst scenario_first) <= Z.quot PACKET_SIZE 2 /\
  Z.of_nat (length (snd scenario_first)) = samples_count (fst scenario_first) * 2 /\
  Z.of_nat (length (snd scenario_first)) <= PACKET_SIZE /\
  datagram_size (fst scenario_first, snd scenario_first)
  = HEADER_SIZE + samples_count (fst scenario_first) * 2 /\
  datagram_size (fst scenario_first, snd scenario_first) <= HEADER_SIZE + PACKET_SIZE.
Proof.
  apply (proj1 C7_datagram_size_bound
           (flat_map frame_events scenario)
           (final_state (feed initial_state scenario))
           (effects_of (feed initial_state scenario))).
  - exact scenario_run.
  - vm_compute. left. reflexivity.
Defined.

(** C7 as stated fails: a full buffer captured while transmitting leaves
    as a datagram of 240 samples that is 498 bytes long, not
    16 + 240 * 2 = 496, and larger than the one size the sketch
    configures, PACKET_SIZE. *)
Lemma C7_header_is_18_bytes :
  reachable scenario_transmitting /\
  exists s' fx h p,
    feed scenario_transmitting [(burst, env0)] = Ok (s', fx) /\
    In (h, p) (datagrams fx) /\
    samples_count h = 240 /\
    datagram_size (h, p) = 498 /\
    datagram_size (h, p) <> 16 + samples_count h * 2 /\
    PACKET_SIZE < datagram_size (h, p).
Proof.
  split; [exact scenario_transmitting_reachable|].
  destruct burst_while_transmitting as (s' & fx & h & p & Hfeed & Hd & Hcnt & Hlen & _).
  exists s', fx, h, p. rewrite Hd, datagram_size_eq, Hlen, Hcnt.
  unfold HEADER_SIZE, PACKET_SIZE.
  repeat split; try assumption; try lia. left; reflexivity.
Qed.

(** ** C10: a capture of a single byte *)

(** C10 does not hold of the code.  A capture of one byte passes the test
    [bytesAvailable > 0], so the callback sets [samplesRead = 1 / 2 = 0]
    and raises the ready flag; the next pass of the loop then divides the
    energy by zero. *)
Lemma C10_one_byte_capture_divides_by_zero :
  (exists s1,
     onPDMdata [x01] initial_state = Ok s1 /\
     audioReady s1 = true /\ samplesRead s1 = 0 /\
     processAudioWithVAD env0 s1 = Fault DivisionByZero) /\
  run initial_state [Capture [x01]; Pass env0] = Fault DivisionByZero.
Proof.
  split; [|vm_compute; reflexivity].
  eexists. split; [vm_compute; reflexivity|].
  split; [reflexivity|]. split; [reflexivity | vm_compute; reflexivity].
Qed.

(** With at least one whole sample in every capture the claim holds: the
    buffer handed to the detector has [samplesRead >= 1] and the pass
    returns. *)
Lemma whole_sample_capture_is_processed s pdm e :
  buffers_ok s -> capture_ok pdm ->
  exists s1 r,
    onPDMdata pdm s = Ok s1 /\ 1 <= samplesRead s1 /\ audioReady s1 = true /\
    loop e s1 = Ok r.
Proof.
  intros Hb Hok.
  destruct (onPDMdata_capture_ok pdm s Hok) as (s1 & H1 & _ & _ & Hpos & Hr & _).
  pose proof (onPDMdata_buffers _ _ _ H1 Hb) as Hb1.
  destruct (loop_audio e s1 Hr Hb1 Hpos) as (s2 & Hl & _).
  exists s1, (s2, wifi_log e ++ pass_effects e s1). repeat split; assumption.
Qed.

(** ** The result of a send *)

Lemma same_but_log_loop e s :
  same_but_log (loop (with_udp true e) s) (loop e s).
Proof.
  destruct e as [wifi mv ms ok].
  unfold loop, processAudioWithVAD, wifi_log. cbn [with_udp wifi_connected].
  destruct (audioReady s).
  - destruct (mean_energy _) as [energy|f]; cbn [bind]; [|reflexivity].
    destruct (energy >? ENERGY_THRESHOLD).
    + unfold on_voice. proj.
      destruct (isTransmitting s); proj;
        [|destruct (i32 (voiceCounter s + 1) >=? MIN_VOICE_FRAMES); proj];
        unfold sendAudioData, udp_log; proj;
        cbn [with_udp udp_ok millis_vad millis_send bind];
        destruct wifi, ok; cbn; repeat split; lia.
    + unfold on_silence. proj.
      destruct (isTransmitting s); proj;
        [destruct (i32 (silenceCounter s + 1) >=? SILENCE_FRAMES); proj|];
        unfold sendAudioData, udp_log; proj;
        cbn [with_udp udp_ok millis_vad millis_send bind];
        destruct wifi, ok; cbn; repeat split; lia.
  - destruct wifi; cbn; repeat split; lia.
Qed.

Lemma same_but_log_step s ev :
  same_but_log (step s (set_udp true ev)) (step s ev).
Proof.
  destruct ev as [pdm|e]; cbn [set_udp step]; [|apply same_but_log_loop].
  destruct (onPDMdata pdm s) as [s1|f]; cbn [bind]; cbn; repeat split; lia.
Qed.

Lemma same_but_log_run evs : forall s,
  same_but_log (run s (map (set_udp true) evs)) (run s evs).
Proof.
  induction evs as [|ev evs IH]; intros s; cbn [map run]; [cbn; repeat split; lia|].
  pose proof (same_but_log_step s ev) as Hs. unfold same_but_log in Hs.
  destruct (step s (set_udp true ev)) as [[s1 fx1]|f1],
           (step s ev) as [[s2 fx2]|f2];
    try contradiction; cbn [bind]; [|exact Hs].
  destruct Hs as (<- & Hd & Hf & Hl).
  specialize (IH s1). unfold same_but_log in IH.
  destruct (run s1 (map (set_udp true) evs)) as [[s3 fx3]|f3],
           (run s1 evs) as [[s4 fx4]|f4];
    try contradiction; cbn [bind same_but_log]; [|exact IH].
  destruct IH as (<- & Hd' & Hf' & Hl').
  rewrite !datagrams_app, !filter_app, !length_app, Hd, Hd', Hf, Hf'.
  repeat split. lia.
Qed.

(** C9.  Whatever [udp.endPacket()] reports, [sendAudioData] sends one
    datagram and advances the sequence counter by one (in 32 bits), and
    the state it leaves is the same; a failure adds the console line and
    nothing else.  Hence every run ends in the state, counters and
    transmitting flag included, in which it ends when all its sends
    succeed, with the same datagrams (none is sent twice, none is
    dropped), or faults alike; its output differs by the
    "ERRO: Falha UDP" lines only. *)
Theorem C9_send_result_is_only_logged :
  (forall isFinal e s,
     packetSequence (fst (sendAudioData isFinal e s)) = u32 (packetSequence s + 1) /\
     length (datagrams (snd (sendAudioData isFinal e s))) = 1%nat /\
     fst (sendAudioData isFinal (with_udp false e) s)
     = fst (sendAudioData isFinal (with_udp true e) s) /\
     snd (sendAudioData isFinal (with_udp false e) s)
     = snd (sendAudioData isFinal (with_udp true e) s) ++ [SerialPrintln MsgUdpFail]) /\
  (forall evs s,
     same_but_log (run s (map (set_udp true) evs)) (run s evs)).
Proof.
  split; [|intros evs s; apply same_but_log_run].
  intros isFinal e s. unfold sendAudioData. proj.
  repeat split. cbn [datagrams length]. rewrite datagrams_udp_log. reflexivity.
Qed.

(** ** Sequence numbers and flags along a trace *)

Lemma first_flag_start sq :
  0 <= sq < 2 ^ 32 -> Z.testbit (first_flag sq) 0 = (sq =? 0).
Proof.
  intros H. unfold first_flag.
  destruct (Z.eqb_spec sq 0) as [->|Hn]; [reflexivity|].
  destruct (Z.eq_dec sq (2 ^ 32 - 1)) as [->|Hm]; [reflexivity|].
  rewrite u32_small by lia.
  destruct (Z.eqb_spec (sq + 1) 1); [lia | reflexivity].
Qed.

Lemma first_flag_end sq : Z.testbit (first_flag sq) 1 = false.
Proof. destruct (first_flag_cases sq) as [-> | ->]; reflexivity. Qed.

Lemma final_flag_start sq :
  0 <= sq < 2 ^ 32 -> Z.testbit (Z.lor (first_flag sq) 2) 0 = (sq =? 0).
Proof.
  intros H. rewrite Z.lor_spec, first_flag_start by exact H.
  change (Z.testbit 2 0) with false. apply orb_false_r.
Qed.

Lemma final_flag_end sq : Z.testbit (Z.lor (first_flag sq) 2) 1 = true.
Proof. rewrite Z.lor_spec. change (Z.testbit 2 1) with true. apply orb_true_r. Qed.

Lemma u32_idem z : u32 (u32 z) = u32 z.
Proof. apply u32_small, u32_range. Qed.

(** The four kinds of pass over a ready buffer. *)
Lemma pass_effects_shape e s :
  0 <= packetSequence s < 2 ^ 32 ->
  let c' := fst (vad_next (pending_voiced s) (control_of s)) in
  match isTransmitting s, c_tx c' with
  | false, false => pass_effects e s = [] /\ c_seq c' = packetSequence s
  | false, true =>
      exists h p,
        pass_effects e s
        = SerialPrintln MsgVoiceStart :: UdpDatagram h p :: udp_log e /\
        sequence h = 0 /\ start_flag h = true /\ end_flag h = false /\
        c_seq c' = 1
  | true, true =>
      exists h p,
        pass_effects e s = UdpDatagram h p :: udp_log e /\
        sequence h = packetSequence s /\
        start_flag h = (packetSequence s =? 0) /\ end_flag h = false /\
        c_seq c' = u32 (packetSequence s + 1)
  | true, false =>
      exists h p,
        pass_effects e s
        = UdpDatagram h p :: udp_log e ++ [SerialPrintln MsgSilenceEnd] /\
        sequence h = packetSequence s /\
        start_flag h = (packetSequence s =? 0) /\ end_flag h = true /\
        c_seq c' = u32 (packetSequence s + 1)
  end.
Proof.
  intros Hps. unfold pass_effects, vad_next, start_flag, end_flag. proj.
  destruct (pending_voiced s), (isTransmitting s); proj;
    try destruct (i32 (voiceCounter s + 1) >=? MIN_VOICE_FRAMES);
    try destruct (i32 (silenceCounter s + 1) >=? SILENCE_FRAMES);
    proj; try (split; reflexivity);
    eexists _, _; (split; [rewrite ?app_nil_r; reflexivity|]);
    unfold packet_with; proj;
    repeat split;
    auto using first_flag_start, first_flag_end, final_flag_start, final_flag_end.
Qed.

Lemma leading_wifi_log e fx : leading_packets (wifi_log e ++ fx) = leading_packets fx.
Proof. unfold wifi_log. destruct (wifi_connected e); reflexivity. Qed.

Lemma utterances_wifi_log e fx : utterances (wifi_log e ++ fx) = utterances fx.
Proof. unfold wifi_log. destruct (wifi_connected e); reflexivity. Qed.

Lemma leading_udp_log e fx : leading_packets (udp_log e ++ fx) = leading_packets fx.
Proof. unfold udp_log. destruct (udp_ok e); reflexivity. Qed.

Lemma utterances_udp_log e fx : utterances (udp_log e ++ fx) = utterances fx.
Proof. unfold udp_log. destruct (udp_ok e); reflexivity. Qed.

Lemma well_flagged_u32 u : forall n m,
  u32 n = u32 m -> well_flagged n u -> well_flagged m u.
Proof.
  induction u as [|h u IH]; intros n m E H; [exact I|].
  cbn [well_flagged] in *. rewrite <- E.
  destruct H as (H1 & H2 & H3 & H4). repeat split; try assumption.
  apply (IH (n + 1)); [|assumption].
  rewrite <- (u32_succ_u32 n 1), <- (u32_succ_u32 m 1), E. reflexivity.
Qed.

(** Along a run the packets that continue the utterance in progress and
    every utterance started in the run are numbered and flagged as
    [well_flagged] says; no datagram is sent outside an utterance. *)
Lemma run_well_flagged evs : forall s s' fx,
  run s evs = Ok (s', fx) -> buffers_ok s -> counters_ok s ->
  (if isTransmitting s
   then well_flagged (packetSequence s) (leading_packets fx)
   else leading_packets fx = []) /\
  Forall (well_flagged 0) (utterances fx).
Proof.
  induction evs as [|ev evs IH]; intros s s' fx Hrun Hb Hc.
  - simpl in Hrun. injection Hrun as <- <-. cbn [leading_packets utterances].
    split; [destruct (isTransmitting s); [exact I | reflexivity] | constructor].
  - apply run_cons in Hrun. destruct Hrun as (s1 & fx1 & fx2 & H1 & H2 & ->).
    pose proof (step_counters _ _ _ _ H1 Hb Hc) as Hc1.
    destruct (step_cases _ _ _ _ H1 Hb) as [Hb1 Hcase].
    destruct (IH _ _ _ H2 Hb1 Hc1) as [IHl IHu].
    destruct Hc as [Hps _].
    destruct Hcase as [(Hctl & _ & _ & Hfx)|(e & _ & _ & _ & -> & Hctl)].
    + apply control_of_eq in Hctl. destruct Hctl as (_ & _ & Ht & Hp).
      rewrite Ht, Hp in IHl.
      destruct Hfx as [-> | ->]; cbn [app leading_packets utterances];
        split; assumption.
    + rewrite <- app_assoc, leading_wifi_log, utterances_wifi_log.
      pose proof (pass_effects_shape e s Hps) as Hsh. cbv zeta in Hsh.
      rewrite <- Hctl in Hsh. proj.
      destruct (isTransmitting s), (isTransmitting s1).
      * destruct Hsh as (h & p & -> & Hsq & Hst & Hen & Hnx).
        cbn [app leading_packets utterances well_flagged].
        rewrite leading_udp_log, utterances_udp_log.
        rewrite u32_small by exact Hps.
        split; [|exact IHu].
        split; [exact Hsq|]. split; [exact Hst|].
        split; [rewrite Hen; discriminate|].
        apply (well_flagged_u32 _ (packetSequence s1)); [|exact IHl].
        rewrite Hnx. apply u32_idem.
      * destruct Hsh as (h & p & -> & Hsq & Hst & Hen & Hnx).
        cbn [app leading_packets utterances well_flagged].
        rewrite <- app_assoc, leading_udp_log, utterances_udp_log.
        cbn [app leading_packets utterances]. rewrite IHl.
        rewrite u32_small by exact Hps.
        split; [|exact IHu]. repeat split; assumption.
      * destruct Hsh as (h & p & -> & Hsq & Hst & Hen & Hnx).
        cbn [app leading_packets utterances].
        rewrite leading_udp_log, utterances_udp_log.
        split; [reflexivity|]. constructor; [|exact IHu].
        cbn [well_flagged]. rewrite Hnx in IHl.
        split; [exact Hsq|]. split; [rewrite Hst; reflexivity|].
        split; [rewrite Hen; discriminate | exact IHl].
      * destruct Hsh as [-> _]. cbn [app]. split; assumption.
Qed.

Lemma well_flagged_nth u : forall n k h,
  well_flagged n u -> nth_error u k = Some h ->
  sequence h = u32 (n + Z.of_nat k) /\
  start_flag h = (u32 (n + Z.of_nat k) =? 0) /\
  (end_flag h = true -> S k = length u).
Proof.
  induction u as [|h0 u IH]; intros n k h H Hk; [destruct k; discriminate|].
  cbn [well_flagged] in H. destruct H as (H1 & H2 & H3 & H4).
  destruct k as [|k]; cbn [nth_error] in Hk.
  - injection Hk as <-. rewrite Z.add_0_r.
    repeat split; try assumption. intros He. rewrite (H3 He). reflexivity.
  - destruct (IH (n + 1) k h H4 Hk) as (I1 & I2 & I3).
    replace (n + Z.of_nat (S k)) with (n + 1 + Z.of_nat k) by lia.
    repeat split; try assumption. intros He. cbn [length]. rewrite (I3 He). reflexivity.
Qed.

(** The utterances of a trace, after the packets that continue an earlier
    one, are its datagrams in order. *)
Lemma datagrams_utterances fx :
  map fst (datagrams fx) = leading_packets fx ++ concat (utterances fx).
Proof.
  induction fx as [|[h p|m] fx IH]; [reflexivity| |].
  - cbn [datagrams map fst leading_packets utterances app]. rewrite IH. reflexivity.
  - destruct m; cbn [datagrams leading_packets utterances concat app]; exact IH.
Qed.

(** What one step does to the sequence counter. *)
Lemma step_sequence s ev s' fx :
  step s ev = Ok (s', fx) -> buffers_ok s -> counters_ok s ->
  (length (datagrams fx) <= 1)%nat /\
  packetSequence s' =
    u32 ((if negb (isTransmitting s) && isTransmitting s' then 0 else packetSequence s)
         + Z.of_nat (length (datagrams fx))) /\
  forall h p, In (h, p) (datagrams fx) ->
    sequence h = (if isTransmitting s then packetSequence s else 0) /\
    (isTransmitting s = false -> start_flag h = true) /\
    start_flag h = (sequence h =? 0) /\
    end_flag h = negb (isTransmitting s').
Proof.
  intros Hstep Hb [Hps _].
  destruct (step_cases _ _ _ _ Hstep Hb) as [_ [(Hctl & _ & _ & Hfx)|(e & _ & _ & _ & -> & Hctl)]].
  - apply control_of_eq in Hctl. destruct Hctl as (_ & _ & Ht & Hp).
    rewrite Ht, Hp, andb_negb_l.
    destruct Hfx as [-> | ->]; cbn [datagrams length];
      (split; [lia|]); (split; [rewrite Z.add_0_r, u32_small by exact Hps; reflexivity|]);
      intros h p [].
  - rewrite datagrams_app, datagrams_wifi_log. cbn [app].
    pose proof (pass_effects_shape e s Hps) as Hsh. cbv zeta in Hsh.
    rewrite <- Hctl in Hsh. proj.
    change (packetSequence s') with (c_seq (control_of s')).
    destruct (isTransmitting s), (isTransmitting s'); cbn [negb andb].
    + destruct Hsh as (h & p & -> & Hsq & Hst & Hen & Hnx).
      cbn [datagrams]. rewrite datagrams_udp_log. cbn [length].
      split; [lia|]. split; [exact Hnx|].
      intros h' p' [E|[]]. injection E as <- <-.
      rewrite Hsq. repeat split; try assumption. discriminate.
    + destruct Hsh as (h & p & -> & Hsq & Hst & Hen & Hnx).
      cbn [datagrams]. rewrite datagrams_app, datagrams_udp_log. cbn [datagrams app length].
      split; [lia|]. split; [exact Hnx|].
      intros h' p' [E|[]]. injection E as <- <-.
      rewrite Hsq. repeat split; try assumption. discriminate.
    + destruct Hsh as (h & p & -> & Hsq & Hst & Hen & Hnx).
      cbn [datagrams]. rewrite datagrams_udp_log. cbn [length].
      split; [lia|]. split; [exact Hnx|].
      intros h' p' [E|[]]. injection E as <- <-.
      rewrite Hsq. repeat split; try assumption; try (intros _; exact Hst).
    + destruct Hsh as [-> Hnx]. cbn [datagrams length].
      split; [lia|]. split; [rewrite Z.add_0_r, u32_small by exact Hps; exact Hnx|].
      intros h p [].
Qed.

(** C6.  In every run from power-up the datagrams are, in order, those of
    the utterances the run starts, and the k-th packet of an utterance
    (from 0) carries sequence number k in 32 bits; every step sends at
    most one datagram, and the sequence counter after the step is its
    value before, or 0 if the step entered Transmitting, plus the number
    of datagrams the step sent. *)
Theorem C6_sequence_numbers_contiguous :
  (forall evs s fx,
     run initial_state evs = Ok (s, fx) ->
     map fst (datagrams fx) = concat (utterances fx) /\
     forall u k h,
       In u (utterances fx) -> nth_error u k = Some h ->
       sequence h = u32 (Z.of_nat k) /\
       (Z.of_nat k < 2 ^ 32 -> sequence h = Z.of_nat k)) /\
  (forall s ev s' fx,
     reachable s -> step s ev = Ok (s', fx) ->
     (length (datagrams fx) <= 1)%nat /\
     packetSequence s' =
       u32 ((if negb (isTransmitting s) && isTransmitting s' then 0
             else packetSequence s)
            + Z.of_nat (length (datagrams fx)))).
Proof.
  split.
  - intros evs s fx Hrun.
    destruct (run_well_flagged evs _ _ _ Hrun initial_buffers initial_counters)
      as [Hl Hu].
    cbn [initial_state isTransmitting] in Hl.
    split; [rewrite datagrams_utterances, Hl; reflexivity|].
    intros u k h Hin Hk. rewrite Forall_forall in Hu.
    destruct (well_flagged_nth u 0 k h (Hu u Hin) Hk) as (Hs & _).
    rewrite Z.add_0_l in Hs. split; [exact Hs|].
    intros Hlt. rewrite Hs. apply u32_small. lia.
  - intros s ev s' fx Hre Hstep.
    destruct (reachable_ok s Hre) as [Hb Hc].
    destruct (step_sequence _ _ _ _ Hstep Hb Hc) as (H1 & H2 & _).
    split; assumption.
Qed.

Lemma C6_sequence_witness :
  sequence scenario_last = u32 (Z.of_nat 10) /\
  (Z.of_nat 10 < 2 ^ 32 -> sequence scenario_last = Z.of_nat 10).
Proof.
  apply (proj2 (proj1 C6_sequence_numbers_contiguous
                  (flat_map frame_events scenario)
                  (final_state (feed initial_state scenario))
                  (effects_of (feed initial_state scenario))
                  scenario_run)
           scenario_utterance 10%nat scenario_last).
  - vm_compute. left. reflexivity.
  - vm_compute. reflexivity.
Defined.




(** ** The sequence counter wraps within one utterance *)










(** ** The older sketch splits a frame and numbers nothing *)

Lemma firstn_add_skipn {A} a b : forall l : list A,
  firstn a l ++ firstn b (skipn a l) = firstn (a + b) l.
Proof.
  induction a as [|a IH]; intros l; [reflexivity|].
  destruct l as [|x l]; [destruct b; reflexivity|].
  cbn [firstn skipn app Nat.add]. rewrite IH. reflexivity.
Qed.

Lemma nth_map_seq {A} (f : nat -> A) k i d :
  (i < k)%nat -> nth i (map f (seq 0 k)) d = f i.
Proof.
  intros H. rewrite (nth_indep _ d (f 0%nat)) by (rewrite length_map, length_seq; exact H).
  rewrite map_nth, seq_nth by exact H. reflexivity.
Qed.

Lemma legacy_chunks_prefix (buf : list byte) n j :
  0 <= n -> (j <= Legacy.packetCount n)%nat ->
  concat (map (Legacy.chunk buf n) (seq 0 j))
  = firstn (Z.to_nat (Z.min (Z.of_nat j * 256) (n * 2))) buf.
Proof.
  intros Hn. unfold Legacy.packetCount, Legacy.PACKET_SIZE.
  induction j as [|j IH]; intros Hj.
  { cbn [seq map concat Z.of_nat Z.mul]. rewrite Z.min_l by lia. reflexivity. }
  rewrite seq_S, map_app, concat_app, IH by lia.
  cbn [map concat Nat.add]. rewrite app_nil_r.
  unfold Legacy.chunk. change (Z.quot Legacy.PACKET_SIZE 2) with 128.
  assert (Hlt : Z.of_nat j * 128 < n).
  { assert (H : Z.of_nat (S j) <= Z.quot (n * 2 + 256 - 1) 256).
    { rewrite <- (Z2Nat.id (Z.quot (n * 2 + 256 - 1) 256)) by (apply Z.quot_pos; lia).
      lia. }
    rewrite Z.quot_div_nonneg in H by lia.
    pose proof (Z.mul_div_le (n * 2 + 256 - 1) 256). nia. }
  replace (Z.to_nat (Z.min (Z.of_nat j * 256) (n * 2)))
    with (Z.to_nat (Z.of_nat j * 128 * 2)) by lia.
  rewrite firstn_add_skipn. f_equal. lia.
Qed.

(** The older sketch sends every sample of a capture of up to 512, in
    order, in datagrams of at most 128 samples; the datagrams after the
    first are the bare samples, with no header and no number. *)
Lemma legacy_sends_every_sample millis (buf : list byte) n :
  0 <= n -> (Z.to_nat (n * 2) <= length buf)%nat ->
  concat (Legacy.payloads buf n) = firstn (Z.to_nat (n * 2)) buf /\
  Z.of_nat (length (concat (Legacy.payloads buf n))) = n * 2 /\
  Forall (fun p => Z.of_nat (length p) <= Legacy.PACKET_SIZE) (Legacy.payloads buf n) /\
  length (Legacy.sendAudioData millis buf n) = Legacy.packetCount n /\
  forall i, (0 < i < Legacy.packetCount n)%nat ->
    nth i (Legacy.sendAudioData millis buf n) [] = Legacy.chunk buf n i.
Proof.
  intros Hn Hlen.
  assert (Hc : concat (Legacy.payloads buf n) = firstn (Z.to_nat (n * 2)) buf).
  { unfold Legacy.payloads. rewrite legacy_chunks_prefix by lia. f_equal.
    unfold Legacy.packetCount, Legacy.PACKET_SIZE.
    rewrite Z2Nat.id by (apply Z.quot_pos; lia).
    rewrite Z.quot_div_nonneg by lia.
    pose proof (Z.mod_pos_bound (n * 2 + 256 - 1) 256).
    pose proof (Z.div_mod (n * 2 + 256 - 1) 256). lia. }
  split; [exact Hc|]. split; [rewrite Hc, length_firstn; lia|].
  split; [|split].
  - unfold Legacy.payloads. apply Forall_forall. intros p Hp.
    apply in_map_iff in Hp. destruct Hp as (i & <- & _).
    unfold Legacy.chunk, Legacy.PACKET_SIZE. rewrite length_firstn.
    change (Z.quot 256 2) with 128. lia.
  - unfold Legacy.sendAudioData. rewrite length_map, length_seq. reflexivity.
  - intros i Hi. unfold Legacy.sendAudioData.
    rewrite nth_map_seq by lia.
    destruct (Nat.eqb_spec i 0); [lia | reflexivity].
Qed.

(** The customary check value of this CRC on the digits "123456789". *)
Lemma calculateCRC16_check_value :
  calculateCRC16 [x31; x32; x33; x34; x35; x36; x37; x38; x39] 9 = 0x4B37.
Proof. vm_compute. reflexivity. Qed.

(** ** The energy detector never overflows *)

Lemma i16_range z : - 2 ^ 15 <= i16 z < 2 ^ 15.
Proof.
  unfold i16. pose proof (Z.mod_pos_bound (z + 2 ^ 15) (2 ^ 16)). lia.
Qed.

Lemma sample_at_range buf i : - 2 ^ 15 <= sample_at buf i < 2 ^ 15.
Proof. apply i16_range. Qed.

Lemma fold_right_add_acc (l : list Z) a :
  fold_right Z.add a l = fold_right Z.add 0 l + a.
Proof. induction l as [|x l IH]; cbn; lia. Qed.

Lemma magnitude_sum_S buf n :
  magnitude_sum buf (S n) = magnitude_sum buf n + Z.abs (sample_at buf n).
Proof.
  unfold magnitude_sum, samples_of.
  rewrite seq_S, !map_app, fold_right_app. cbn [map fold_right Nat.add].
  rewrite fold_right_add_acc. lia.
Qed.

Lemma magnitude_sum_range buf n :
  0 <= magnitude_sum buf n <= 2 ^ 15 * Z.of_nat n.
Proof.
  induction n as [|n IH].
  - cbn. lia.
  - rewrite magnitude_sum_S. pose proof (sample_at_range buf n). lia.
Qed.

Lemma energy_sum_exact buf n :
  0 <= n < 2 ^ 17 -> energy_sum buf n = magnitude_sum buf (Z.to_nat n).
Proof.
  intros Hn. unfold energy_sum.
  assert (H : forall k, (k <= Z.to_nat n)%nat ->
            fold_left (fun energy i => u32 (energy + Z.abs (sample_at buf i)))
                      (seq 0 k) 0 = magnitude_sum buf k).
  { induction k as [|k IH]; intros Hk.
    - reflexivity.
    - rewrite seq_S, fold_left_app, IH by lia. cbn [fold_left Nat.add].
      rewrite magnitude_sum_S.
      pose proof (magnitude_sum_range buf (S k)) as HS.
      rewrite magnitude_sum_S in HS.
      apply u32_small. lia. }
  apply H. lia.
Qed.

(** X1. The energy loop of [processAudioWithVAD] cannot wrap its 32-bit
    accumulator: for any buffer of up to 2^17 - 1 samples (the sketch has
    at most 512) the accumulated value is the true sum of the magnitudes,
    the quotient is the true mean, it lies between 0 and 32768, and the
    frame is classified as voiced exactly when the sum of the magnitudes
    is at least 801 times the number of samples. *)
Theorem X1_energy_is_true_mean :
  forall s,
    1 <= samplesRead s < 2 ^ 17 ->
    let total := magnitude_sum (audioBuffer s) (Z.to_nat (samplesRead s)) in
    energy_sum (audioBuffer s) (samplesRead s) = total /\
    mean_energy s = Ok (total / samplesRead s) /\
    0 <= total / samplesRead s <= 2 ^ 15 /\
    pending_voiced s = ((ENERGY_THRESHOLD + 1) * samplesRead s <=? total).
Proof.
  intros s Hn total.
  assert (HE : energy_sum (audioBuffer s) (samplesRead s) = total)
    by (apply energy_sum_exact; lia).
  assert (Hu : u32 (samplesRead s) = samplesRead s)
    by (apply u32_small; lia).
  pose proof (magnitude_sum_range (audioBuffer s) (Z.to_nat (samplesRead s))) as HR.
  fold total in HR. rewrite Z2Nat.id in HR by lia.
  split; [exact HE|].
  split.
  { unfold mean_energy. rewrite Hu, HE.
    destruct (samplesRead s =? 0) eqn:E; [lia|reflexivity]. }
  split.
  { split.
    - apply Z.div_pos; lia.
    - apply Z.div_le_upper_bound; lia. }
  unfold pending_voiced. rewrite Hu, HE. unfold ENERGY_THRESHOLD.
  change (800 + 1) with 801.
  destruct (Z.gtb_spec (total / samplesRead s) 800) as [E1|E1];
  destruct (Z.leb_spec (801 * samplesRead s) total) as [E2|E2]; try reflexivity.
  - pose proof (Z.mul_div_le total (samplesRead s)). nia.
  - assert (801 <= total / samplesRead s); [|lia].
    apply Z.div_le_lower_bound; lia.
Qed.

Lemma X1_energy_witness :
  energy_sum (audioBuffer loud_captured) (samplesRead loud_captured)
  = magnitude_sum (audioBuffer loud_captured) (Z.to_nat (samplesRead loud_captured)) /\
  mean_energy loud_captured
  = Ok (magnitude_sum (audioBuffer loud_captured) (Z.to_nat (samplesRead loud_captured))
        / samplesRead loud_captured) /\
  0 <= magnitude_sum (audioBuffer loud_captured) (Z.to_nat (samplesRead loud_captured))
       / samplesRead loud_captured <= 2 ^ 15 /\
  pending_voiced loud_captured
  = ((ENERGY_THRESHOLD + 1) * samplesRead loud_captured
     <=? magnitude_sum (audioBuffer loud_captured) (Z.to_nat (samplesRead loud_captured))).
Proof.
  apply (X1_energy_is_true_mean loud_captured).
  vm_compute. split; [discriminate|reflexivity].
Defined.

(** ** The ready flag *)

Lemma loop_clears_ready e s s' fx :
  loop e s = Ok (s', fx) -> audioReady s' = false.
Proof.
  unfold loop. destruct (audioReady s) eqn:Hr.
  - unfold processAudioWithVAD, mean_energy. proj.
    destruct (u32 (samplesRead s) =? 0); [discriminate|]. proj.
    match goal with |- context [if ?c then on_voice _ _ else _] => destruct c end.
    + unfold on_voice. proj.
      match goal with |- context [if (if ?c then true else _) then _ else _] =>
        destruct c end; proj.
      * unfold sendAudioData, copy_to_sendBuffer. proj.
        intros H. injection H as <- _. reflexivity.
      * destruct (isTransmitting s).
        -- unfold sendAudioData, copy_to_sendBuffer. proj.
           intros H. injection H as <- _. reflexivity.
        -- proj. intros H. injection H as <- _. reflexivity.
    + unfold on_silence. proj.
      destruct (isTransmitting s && (i32 (silenceCounter s + 1) >=? SILENCE_FRAMES)).
      * unfold sendAudioData. proj. intros H. injection H as <- _. reflexivity.
      * proj. destruct (isTransmitting s).
        -- unfold sendAudioData, copy_to_sendBuffer. proj.
           intros H. injection H as <- _. reflexivity.
        -- proj. intros H. injection H as <- _. reflexivity.
  - intros H. injection H as <- _. exact Hr.
Qed.




(** ** Faults *)

Lemma onPDMdata_fault pdm s f :
  onPDMdata pdm s = Fault f <->
  2 * BUFFER_SIZE < Z.of_nat (length pdm) /\ f = BufferOverrun.
Proof.
  unfold onPDMdata.
  destruct (Z.gtb_spec (Z.of_nat (length pdm)) 0) as [H0|H0].
  - destruct (Z.gtb_spec (Z.of_nat (length pdm)) (2 * BUFFER_SIZE)) as [H1|H1].
    + split.
      * intros H. injection H as <-. split; [lia|reflexivity].
      * intros [_ ->]. reflexivity.
    + split; [discriminate|]. intros [H _]. lia.
  - split; [discriminate|]. intros [H _]. unfold BUFFER_SIZE in H. lia.
Qed.

Lemma loop_fault e s f :
  buffers_ok s ->
  (loop e s = Fault f <->
   audioReady s = true /\ samplesRead s = 0 /\ f = DivisionByZero).
Proof.
  intros Hb. destruct (audioReady s) eqn:Hr.
  - destruct (Z.eq_dec (samplesRead s) 0) as [Hz|Hz].
    + split.
      * unfold loop. rewrite Hr. unfold processAudioWithVAD, mean_energy. proj.
        rewrite Hz. change (u32 0 =? 0) with true. cbn [bind].
        intros H. injection H as <-. repeat split; assumption.
      * intros (_ & _ & ->).
        unfold loop. rewrite Hr. unfold processAudioWithVAD, mean_energy. proj.
        rewrite Hz. reflexivity.
    + assert (Hpos : 1 <= samplesRead s) by (destruct Hb as (_ & _ & ?); lia).
      destruct (loop_audio e s Hr Hb Hpos) as (s' & Hl & _).
      rewrite Hl. split; [discriminate|]. intros (_ & ? & _). contradiction.
  - rewrite (loop_idle e s Hr). split; [discriminate|]. intros (? & _). discriminate.
Qed.

Lemma step_fault s ev f :
  buffers_ok s ->
  (step s ev = Fault f <->
   (exists pdm, ev = Capture pdm /\
      2 * BUFFER_SIZE < Z.of_nat (length pdm) /\ f = BufferOverrun) \/
   (exists e, ev = Pass e /\
      audioReady s = true /\ samplesRead s = 0 /\ f = DivisionByZero)).
Proof.
  intros Hb. destruct ev as [pdm|e]; cbn [step].
  - split.
    + intros H. left. exists pdm. split; [reflexivity|].
      apply (onPDMdata_fault pdm s f).
      destruct (onPDMdata pdm s); cbn [bind] in H; [discriminate|].
      injection H as ->. reflexivity.
    + intros [(pdm' & Heq & H)|(e & Heq & _)]; [|discriminate].
      injection Heq as <-. apply (onPDMdata_fault pdm s f) in H.
      rewrite H. reflexivity.
  - rewrite (loop_fault e s f Hb). split.
    + intros H. right. exists e. split; [reflexivity|exact H].
    + intros [(pdm & Heq & _)|(e' & Heq & H)]; [discriminate|].
      injection Heq as <-. exact H.
Qed.



Lemma step_ready_ok s ev s' fx :
  buffers_ok s -> ready_ok s -> event_ok ev -> step s ev = Ok (s', fx) ->
  buffers_ok s' /\ ready_ok s'.
Proof.
  intros Hb Hr Hev H.
  destruct (step_cases s ev s' fx H Hb) as [Hb' _]. split; [exact Hb'|].
  destruct ev as [pdm|e]; cbn [step] in H.
  - destruct (onPDMdata pdm s) as [s1|] eqn:H1; [|discriminate].
    cbn [bind] in H. injection H as <- _.
    destruct (onPDMdata_Ok pdm s s1 H1) as (_ & _ & _ & [[_ ->]|(Hlen & _ & Hsr & _)]).
    + exact Hr.
    + intros _. rewrite Hsr. destruct Hev as [->|Hok]; [cbn in Hlen; lia|].
      unfold capture_ok in Hok.
      apply Z.quot_le_lower_bound; lia.
  - intros Hr'. rewrite (loop_clears_ready e s s' fx H) in Hr'. discriminate.
Qed.

Lemma step_event_ok s ev :
  buffers_ok s -> ready_ok s -> event_ok ev ->
  exists s' fx, step s ev = Ok (s', fx).
Proof.
  intros Hb Hr Hev. destruct (step s ev) as [[s' fx]|f] eqn:H.
  - eexists _, _. reflexivity.
  - exfalso. apply (step_fault s ev f Hb) in H.
    destruct H as [(pdm & -> & Hlen & _)|(e & -> & Hrd & Hz & _)].
    + destruct Hev as [->|Hok]; [cbn in Hlen; lia|].
      unfold capture_ok in Hok. lia.
    + specialize (Hr Hrd). lia.
Qed.

Lemma run_event_ok evs : forall s,
  buffers_ok s -> ready_ok s -> Forall event_ok evs ->
  exists s' fx, run s evs = Ok (s', fx) /\ buffers_ok s' /\ ready_ok s'.
Proof.
  induction evs as [|ev evs IH]; intros s Hb Hr Hall.
  - exists s, []. split; [reflexivity|split; assumption].
  - inversion Hall as [|? ? Hev Hrest]; subst.
    destruct (step_event_ok s ev Hb Hr Hev) as (s1 & fx1 & H1).
    destruct (step_ready_ok s ev s1 fx1 Hb Hr Hev H1) as [Hb1 Hr1].
    destruct (IH s1 Hb1 Hr1 Hrest) as (s2 & fx2 & H2 & Hb2 & Hr2).
    exists s2, (fx1 ++ fx2). split; [|split; assumption].
    cbn [run]. rewrite H1. cbn [bind]. rewrite H2. reflexivity.
Qed.

Lemma initial_ready : ready_ok initial_state.
Proof. intros H. discriminate. Qed.

(** X4. A run from power-up in which every capture is empty or carries
    between 2 and 1024 bytes never faults, however captures and passes of
    the loop are interleaved: every step returns, the buffers keep their
    sizes and a ready buffer always holds at least one sample. *)
Theorem X4_well_formed_runs_never_fault :
  forall evs,
    Forall event_ok evs ->
    exists s fx,
      run initial_state evs = Ok (s, fx) /\ buffers_ok s /\ ready_ok s.
Proof.
  intros evs Hall.
  exact (run_event_ok evs initial_state initial_buffers initial_ready Hall).
Qed.

Lemma Forall_flat_map {A B} (P : B -> Prop) (f : A -> list B) (l : list A) :
  Forall (fun a => Forall P (f a)) l -> Forall P (flat_map f l).
Proof.
  induction 1 as [|a l Ha _ IH]; cbn [flat_map]; [constructor|].
  apply Forall_app. split; assumption.
Qed.

Lemma frame_events_ok f : frame_ok f -> Forall event_ok (frame_events f).
Proof.
  intros H. unfold frame_events.
  constructor; [right; exact H|constructor; [exact I|constructor]].
Qed.

Lemma scenario_events_ok : Forall event_ok scenario_events.
Proof.
  unfold scenario_events. apply Forall_flat_map.
  eapply Forall_impl; [|exact scenario_frames_ok].
  intros f. apply frame_events_ok.
Qed.

Lemma X4_well_formed_runs_witness :
  exists s fx,
    run initial_state scenario_events = Ok (s, fx) /\ buffers_ok s /\ ready_ok s.
Proof.
  apply (X4_well_formed_runs_never_fault scenario_events).
  exact scenario_events_ok.
Defined.

(** ** Memory safety *)

(** X5. Along every run from power-up that has not faulted, the two
    buffers keep their declared sizes and [samplesRead] stays between 0
    and 512, so that the reads of the energy loop stay inside
    [audioBuffer] and the [memcpy], the checksum and [udp.write] stay
    inside [sendBuffer]; the sequence counter is a 32-bit value, and the
    counter that decides the next transition is below its threshold. *)
Theorem X5_accesses_stay_in_bounds :
  forall s,
    reachable s ->
    Z.of_nat (length (audioBuffer s)) = 2 * BUFFER_SIZE /\
    Z.of_nat (length (sendBuffer s)) = PACKET_SIZE /\
    0 <= samplesRead s <= BUFFER_SIZE /\
    2 * samplesRead s <= Z.of_nat (length (audioBuffer s)) /\
    2 * Z.min (samplesRead s) (Z.quot PACKET_SIZE 2)
      <= Z.min (Z.of_nat (length (audioBuffer s))) (Z.of_nat (length (sendBuffer s))) /\
    0 <= packetSequence s < 2 ^ 32 /\
    (if isTransmitting s
     then 0 <= silenceCounter s < SILENCE_FRAMES
     else 0 <= voiceCounter s < MIN_VOICE_FRAMES).
Proof.
  intros s Hr. destruct (reachable_ok s Hr) as [(Hab & Hsb & Hsr) (Hps & Hc)].
  rewrite Hab, Hsb.
  change (Z.quot PACKET_SIZE 2) with 240.
  change (Z.of_nat (Z.to_nat (2 * BUFFER_SIZE))) with 1024.
  change (Z.of_nat (Z.to_nat PACKET_SIZE)) with 480.
  unfold BUFFER_SIZE, PACKET_SIZE in *.
  repeat (split; [lia|]). exact Hc.
Qed.

Lemma X5_accesses_witness :
  Z.of_nat (length (audioBuffer scenario_transmitting)) = 2 * BUFFER_SIZE /\
  Z.of_nat (length (sendBuffer scenario_transmitting)) = PACKET_SIZE /\
  0 <= samplesRead scenario_transmitting <= BUFFER_SIZE /\
  2 * samplesRead scenario_transmitting
    <= Z.of_nat (length (audioBuffer scenario_transmitting)) /\
  2 * Z.min (samplesRead scenario_transmitting) (Z.quot PACKET_SIZE 2)
    <= Z.min (Z.of_nat (length (audioBuffer scenario_transmitting)))
             (Z.of_nat (length (sendBuffer scenario_transmitting))) /\
  0 <= packetSequence scenario_transmitting < 2 ^ 32 /\
  (if isTransmitting scenario_transmitting
   then 0 <= silenceCounter scenario_transmitting < SILENCE_FRAMES
   else 0 <= voiceCounter scenario_transmitting < MIN_VOICE_FRAMES).
Proof.
  apply (X5_accesses_stay_in_bounds scenario_transmitting).
  exact scenario_transmitting_reachable.
Defined.

(** ** Stale audio, and captures that overtake the loop *)

Lemma energy_sum_firstn (buf : list byte) n :
  0 <= n -> 2 * n <= Z.of_nat (length buf) ->
  energy_sum buf n = energy_sum (firstn (Z.to_nat (2 * n)) buf) n.
Proof.
  intros Hn Hlen.
  rewrite <- (firstn_skipn (Z.to_nat (2 * n)) buf) at 1.
  apply energy_sum_app; [exact Hn|].
  rewrite length_firstn. lia.
Qed.

Lemma payload_bytes_firstn sr (buf : list byte) :
  0 <= sr ->
  payload_bytes sr buf = payload_bytes sr (firstn (Z.to_nat (2 * sr)) buf).
Proof.
  intros Hsr. unfold payload_bytes. rewrite firstn_firstn. f_equal.
  change (Z.quot PACKET_SIZE 2) with 240. lia.
Qed.

Lemma same_audio_observations s1 s2 :
  same_audio s1 s2 -> buffers_ok s1 -> buffers_ok s2 ->
  pending_voiced s1 = pending_voiced s2 /\
  payload_bytes (samplesRead s1) (audioBuffer s1)
  = payload_bytes (samplesRead s2) (audioBuffer s2).
Proof.
  intros (Hab & Hsr & _) (L1 & _ & R1) (L2 & _ & R2).
  change (Z.to_nat (2 * BUFFER_SIZE)) with 1024%nat in L1, L2.
  unfold BUFFER_SIZE in R1, R2.
  split.
  - unfold pending_voiced.
    rewrite (energy_sum_firstn (audioBuffer s1) (samplesRead s1)) by lia.
    rewrite (energy_sum_firstn (audioBuffer s2) (samplesRead s2)) by lia.
    rewrite Hab, Hsr. reflexivity.
  - rewrite (payload_bytes_firstn (samplesRead s1) (audioBuffer s1)) by lia.
    rewrite (payload_bytes_firstn (samplesRead s2) (audioBuffer s2)) by lia.
    rewrite Hab, Hsr. reflexivity.
Qed.

Lemma pass_effects_ext e s1 s2 :
  control_of s1 = control_of s2 -> pending_voiced s1 = pending_voiced s2 ->
  samplesRead s1 = samplesRead s2 -> sendBuffer s1 = sendBuffer s2 ->
  payload_bytes (samplesRead s1) (audioBuffer s1)
  = payload_bytes (samplesRead s2) (audioBuffer s2) ->
  pass_effects e s1 = pass_effects e s2.
Proof.
  intros Hc Hv Hsr Hsb Hp. unfold pass_effects. rewrite Hc, Hv, Hsb.
  set (r := vad_next (pending_voiced s2) (control_of s2)).
  destruct (c_tx (control_of s2) && negb (c_tx (fst r))).
  - rewrite Hsr. reflexivity.
  - rewrite Hp, Hsr. reflexivity.
Qed.

Lemma same_audio_loop e s1 s2 :
  same_audio s1 s2 -> buffers_ok s1 -> buffers_ok s2 ->
  same_outcome (loop e s1) (loop e s2).
Proof.
  intros Hs Hb1 Hb2.
  destruct (same_audio_observations s1 s2 Hs Hb1 Hb2) as [Hv Hp].
  pose proof Hs as (Hab & Hsr & Hrd & Hsb & Hc & Hl).
  destruct (audioReady s2) eqn:Hr2.
  - destruct (Z.eq_dec (samplesRead s2) 0) as [Hz|Hz].
    + assert (F1 : loop e s1 = Fault DivisionByZero)
        by (apply (loop_fault e s1 _ Hb1); repeat split; congruence).
      assert (F2 : loop e s2 = Fault DivisionByZero)
        by (apply (loop_fault e s2 _ Hb2); repeat split; congruence).
      rewrite F1, F2. reflexivity.
    + assert (P2 : 1 <= samplesRead s2) by (destruct Hb2 as (_ & _ & ?); lia).
      assert (P1 : 1 <= samplesRead s1) by lia.
      destruct (loop_audio e s1 Hrd Hb1 P1)
        as (t1 & E1 & C1 & A1 & S1 & R1 & _ & T1 & B1).
      destruct (loop_audio e s2 Hr2 Hb2 P2)
        as (t2 & E2 & C2 & A2 & S2 & R2 & _ & T2 & B2).
      rewrite E1, E2. cbn [same_outcome]. split.
      * unfold same_audio.
        rewrite A1, A2, S1, S2, R1, R2, C1, C2, T1, T2, B1, B2.
        rewrite Hv, Hc, Hl, Hsb, Hp.
        repeat split; try reflexivity; assumption.
      * f_equal. apply pass_effects_ext; assumption.
  - rewrite (loop_idle e s1) by congruence. rewrite (loop_idle e s2 Hr2).
    cbn [same_outcome]. split; [exact Hs|reflexivity].
Qed.

Lemma firstn_app_le {A} k (l1 l2 : list A) :
  (k <= length l1)%nat -> firstn k (l1 ++ l2) = firstn k l1.
Proof.
  intros H. rewrite firstn_app. replace (k - length l1)%nat with 0%nat by lia.
  cbn [firstn]. apply app_nil_r.
Qed.

Lemma capture_same_audio pdm s1 s2 t1 t2 :
  1 <= Z.of_nat (length pdm) ->
  control_of s1 = control_of s2 -> sendBuffer s1 = sendBuffer s2 ->
  lastActivityTime s1 = lastActivityTime s2 ->
  onPDMdata pdm s1 = Ok t1 -> onPDMdata pdm s2 = Ok t2 ->
  same_audio t1 t2.
Proof.
  intros Hlen Hc Hsb Hl H1 H2.
  destruct (onPDMdata_Ok pdm s1 t1 H1) as (C1 & B1 & L1 & [[-> _]|(N1 & A1 & S1 & R1)]);
    [cbn in Hlen; lia|].
  destruct (onPDMdata_Ok pdm s2 t2 H2) as (C2 & B2 & L2 & [[-> _]|(N2 & A2 & S2 & R2)]);
    [cbn in Hlen; lia|].
  unfold same_audio. rewrite A1, A2, S1, S2, R1, R2, C1, C2, B1, B2, L1, L2.
  repeat split; try assumption.
  assert (Hq : 2 * Z.quot (Z.of_nat (length pdm)) 2 <= Z.of_nat (length pdm)).
  { pose proof (Z.quot_pos (Z.of_nat (length pdm)) 2 ltac:(lia) ltac:(lia)).
    pose proof (Z.mul_quot_le (Z.of_nat (length pdm)) 2 ltac:(lia) ltac:(lia)). lia. }
  rewrite !firstn_app_le by lia. reflexivity.
Qed.

Lemma same_audio_step s1 s2 ev :
  same_audio s1 s2 -> buffers_ok s1 -> buffers_ok s2 ->
  same_outcome (step s1 ev) (step s2 ev).
Proof.
  intros Hs Hb1 Hb2. destruct ev as [pdm|e]; cbn [step].
  - pose proof Hs as (Hab & Hsr & Hrd & Hsb & Hc & Hl).
    destruct (onPDMdata pdm s1) as [t1|f1] eqn:H1;
    destruct (onPDMdata pdm s2) as [t2|f2] eqn:H2; cbn [bind same_outcome].
    + split; [|reflexivity].
      destruct pdm as [|b pdm].
      * cbn in H1, H2. injection H1 as <-. injection H2 as <-. exact Hs.
      * apply (capture_same_audio (b :: pdm) s1 s2 t1 t2); try assumption.
        cbn [length]. lia.
    + apply onPDMdata_fault in H2. destruct H2 as [H2 _].
      assert (F : onPDMdata pdm s1 = Fault BufferOverrun)
        by (apply onPDMdata_fault; split; [exact H2|reflexivity]).
      congruence.
    + apply onPDMdata_fault in H1. destruct H1 as [H1 _].
      assert (F : onPDMdata pdm s2 = Fault BufferOverrun)
        by (apply onPDMdata_fault; split; [exact H1|reflexivity]).
      congruence.
    + apply onPDMdata_fault in H1, H2. destruct H1 as [_ ->], H2 as [_ ->].
      reflexivity.
  - apply same_audio_loop; assumption.
Qed.

Lemma same_audio_run evs : forall s1 s2,
  same_audio s1 s2 -> buffers_ok s1 -> buffers_ok s2 ->
  same_outcome (run s1 evs) (run s2 evs).
Proof.
  induction evs as [|ev evs IH]; intros s1 s2 Hs Hb1 Hb2.
  - cbn [run same_outcome]. split; [exact Hs|reflexivity].
  - cbn [run]. pose proof (same_audio_step s1 s2 ev Hs Hb1 Hb2) as Hstep.
    destruct (step s1 ev) as [[t1 fx1]|f1] eqn:H1;
    destruct (step s2 ev) as [[t2 fx2]|f2] eqn:H2;
    cbn [same_outcome] in Hstep; try contradiction; cbn [bind].
    + destruct Hstep as [Ht ->].
      destruct (step_cases s1 ev t1 fx2 H1 Hb1) as [Hb1' _].
      destruct (step_cases s2 ev t2 fx2 H2 Hb2) as [Hb2' _].
      specialize (IH t1 t2 Ht Hb1' Hb2').
      destruct (run t1 evs) as [[u1 gx1]|g1];
      destruct (run t2 evs) as [[u2 gx2]|g2];
      cbn [same_outcome] in IH; try contradiction; cbn [bind same_outcome].
      * destruct IH as [Hu ->]. split; [exact Hu|reflexivity].
      * exact IH.
    + exact Hstep.
Qed.

Lemma capture_overtaken s a b evs :
  buffers_ok s ->
  Z.of_nat (length a) <= 2 * BUFFER_SIZE ->
  1 <= Z.of_nat (length b) <= 2 * BUFFER_SIZE ->
  same_outcome (run s (Capture a :: Capture b :: evs)) (run s (Capture b :: evs)).
Proof.
  intros Hb Ha Hlb.
  destruct (onPDMdata a s) as [sa|f] eqn:Ea.
  2:{ apply onPDMdata_fault in Ea. lia. }
  destruct (onPDMdata b sa) as [sab|f] eqn:Eab.
  2:{ apply onPDMdata_fault in Eab. lia. }
  destruct (onPDMdata b s) as [sb|f] eqn:Eb.
  2:{ apply onPDMdata_fault in Eb. lia. }
  destruct (onPDMdata_Ok a s sa Ea) as (Ca & Ba & La & _).
  assert (Hs : same_audio sab sb).
  { apply (capture_same_audio b sa s sab sb); try assumption. lia. }
  pose proof (onPDMdata_buffers _ _ _ Ea Hb) as Hba.
  pose proof (onPDMdata_buffers _ _ _ Eab Hba) as Hbab.
  pose proof (onPDMdata_buffers _ _ _ Eb Hb) as Hbb.
  pose proof (same_audio_run evs sab sb Hs Hbab Hbb) as Hrun.
  cbn [run step]. rewrite Ea. cbn [bind]. rewrite Eab, Eb. cbn [bind].
  destruct (run sab evs) as [[u1 gx1]|g1];
  destruct (run sb evs) as [[u2 gx2]|g2];
  cbn [same_outcome] in Hrun; try contradiction; cbn [bind same_outcome app].
  - exact Hrun.
  - exact Hrun.
Qed.

(** X6. When a second capture arrives before the loop has looked at the
    first, the first frame is lost without a trace: whatever events
    follow, the run sends the same datagrams, prints the same lines and
    faults in the same way as the run in which the first capture never
    happened, and the two final states differ at most in bytes of
    [audioBuffer] that are never read. *)
Theorem X6_overtaken_capture_is_dropped :
  forall s a b evs,
    buffers_ok s ->
    Z.of_nat (length a) <= 2 * BUFFER_SIZE ->
    1 <= Z.of_nat (length b) <= 2 * BUFFER_SIZE ->
    same_outcome (run s (Capture a :: Capture b :: evs))
                 (run s (Capture b :: evs)).
Proof. intros s a b evs. exact (capture_overtaken s a b evs). Qed.

Lemma X6_overtaken_capture_witness :
  same_outcome
    (run initial_state (Capture loud :: Capture quiet :: [Pass env0]))
    (run initial_state (Capture quiet :: [Pass env0])).
Proof.
  apply (X6_overtaken_capture_is_dropped initial_state loud quiet [Pass env0]).
  - exact initial_buffers.
  - vm_compute. discriminate.
  - vm_compute. split; discriminate.
Defined.

(** ** Debouncing *)

Lemma control_run_app_snd vs1 : forall vs2 c,
  snd (control_run (vs1 ++ vs2) c)
  = snd (control_run vs1 c) ++ snd (control_run vs2 (fst (control_run vs1 c))).
Proof.
  induction vs1 as [|v vs1 IH]; intros vs2 c.
  - reflexivity.
  - cbn [app control_run]. destruct (vad_next v c) as [c1 out1] eqn:E1.
    specialize (IH vs2 c1).
    destruct (control_run (vs1 ++ vs2) c1) as [c2 out2].
    destruct (control_run vs1 c1) as [c3 out3].
    cbn [fst snd] in *. rewrite IH. apply app_assoc.
Qed.

Lemma vad_next_idle_voiced c :
  c_tx c = false -> 0 <= c_voice c < MIN_VOICE_FRAMES - 1 ->
  vad_next true c
  = ({| c_silence := 0; c_voice := c_voice c + 1; c_tx := false; c_seq := c_seq c |}, []).
Proof.
  intros Htx Hvc. unfold vad_next, MIN_VOICE_FRAMES in *. rewrite Htx.
  rewrite i32_small by lia.
  destruct (Z.geb_spec (c_voice c + 1) 3); [lia|reflexivity].
Qed.

Lemma vad_next_idle_silent c :
  c_tx c = false ->
  vad_next false c
  = ({| c_silence := i32 (c_silence c + 1); c_voice := 0; c_tx := false;
        c_seq := c_seq c |}, []).
Proof. intros Htx. unfold vad_next. rewrite Htx. reflexivity. Qed.

Lemma idle_without_three vs : forall c,
  c_tx c = false -> 0 <= c_voice c < MIN_VOICE_FRAMES ->
  ~ (exists pre post, vs = pre ++ repeat true 3 ++ post) ->
  ~ (exists post, vs = repeat true (Z.to_nat (MIN_VOICE_FRAMES - c_voice c)) ++ post) ->
  snd (control_run vs c) = [] /\ c_tx (fst (control_run vs c)) = false.
Proof.
  induction vs as [|v vs IH]; intros c Htx Hvc Hno Hpre.
  - split; [reflexivity|exact Htx].
  - unfold MIN_VOICE_FRAMES in *. destruct v.
    + assert (Hlt : c_voice c < 2).
      { destruct (Z.eq_dec (c_voice c) 2) as [E|E]; [|lia].
        exfalso. apply Hpre. exists vs. rewrite E. reflexivity. }
      cbn [control_run].
      rewrite (vad_next_idle_voiced c Htx) by (unfold MIN_VOICE_FRAMES; lia).
      set (c1 := {| c_silence := 0; c_voice := c_voice c + 1; c_tx := false;
                    c_seq := c_seq c |}).
      destruct (IH c1) as [Hout Htx1].
      * reflexivity.
      * cbn [c_voice c1]. lia.
      * intros (pre & post & E). apply Hno. exists (true :: pre), post.
        rewrite E. reflexivity.
      * intros (post & E). apply Hpre. exists post. rewrite E.
        cbn [c_voice c1].
        replace (Z.to_nat (3 - c_voice c))
          with (S (Z.to_nat (3 - (c_voice c + 1)))) by lia.
        reflexivity.
      * destruct (control_run vs c1) as [c2 out2]. cbn [fst snd app] in *.
        split; assumption.
    + cbn [control_run]. rewrite (vad_next_idle_silent c Htx).
      set (c1 := {| c_silence := i32 (c_silence c + 1); c_voice := 0;
                    c_tx := false; c_seq := c_seq c |}).
      destruct (IH c1) as [Hout Htx1].
      * reflexivity.
      * cbn [c_voice c1]. lia.
      * intros (pre & post & E). apply Hno. exists (false :: pre), post.
        rewrite E. reflexivity.
      * intros (post & E). apply Hno. exists [false], post. rewrite E.
        reflexivity.
      * destruct (control_run vs c1) as [c2 out2]. cbn [fst snd app] in *.
        split; assumption.
Qed.

Lemma vad_next_keeps_voice_bound v c :
  (c_tx c = false -> 0 <= c_voice c < MIN_VOICE_FRAMES) ->
  c_tx (fst (vad_next v c)) = false ->
  0 <= c_voice (fst (vad_next v c)) < MIN_VOICE_FRAMES.
Proof.
  unfold vad_next, MIN_VOICE_FRAMES, SILENCE_FRAMES. intros Hc.
  destruct v; destruct (c_tx c) eqn:Htx; cbn [fst c_tx c_voice].
  - discriminate.
  - specialize (Hc eq_refl). rewrite i32_small by lia.
    destruct (Z.geb_spec (c_voice c + 1) 3); cbn [fst c_tx c_voice];
      [discriminate|lia].
  - destruct (i32 (c_silence c + 1) >=? 10); cbn [fst c_tx c_voice]; lia.
  - lia.
Qed.

Lemma control_run_keeps_voice_bound vs : forall c,
  (c_tx c = false -> 0 <= c_voice c < MIN_VOICE_FRAMES) ->
  c_tx (fst (control_run vs c)) = false ->
  0 <= c_voice (fst (control_run vs c)) < MIN_VOICE_FRAMES.
Proof.
  induction vs as [|v vs IH]; intros c Hc.
  - exact Hc.
  - rewrite control_run_cons_fst. apply IH.
    apply vad_next_keeps_voice_bound. exact Hc.
Qed.

Lemma three_voiced_send c post :
  (c_tx c = false -> 0 <= c_voice c < MIN_VOICE_FRAMES) ->
  snd (control_run (repeat true 3 ++ post) c) <> [].
Proof.
  intros Hc. rewrite control_run_app_snd.
  assert (H : snd (control_run (repeat true 3) c) <> []);
    [|destruct (snd (control_run (repeat true 3) c)); [contradiction|discriminate]].
  unfold MIN_VOICE_FRAMES in Hc. cbn [repeat control_run].
  destruct (c_tx c) eqn:Htx.
  - unfold vad_next at 1. rewrite Htx. cbn [fst snd app].
    repeat match goal with |- context [let '(_, _) := ?x in _] => destruct x end.
    cbn [snd app]. discriminate.
  - specialize (Hc eq_refl).
    assert (Hv : c_voice c = 0 \/ c_voice c = 1 \/ c_voice c = 2) by lia.
    unfold vad_next. rewrite Htx. cbn [c_voice c_tx c_silence c_seq fst snd app].
    destruct Hv as [E|[E|E]]; rewrite E; vm_compute; discriminate.
Qed.

Lemma numbering_nil fx : numbering fx = [] <-> datagrams fx = [].
Proof.
  unfold numbering. destruct (datagrams fx); cbn [map]; split; congruence.
Qed.

Lemma debounce s fs :
  reachable s -> isTransmitting s = false -> voiceCounter s = 0 ->
  Forall frame_ok fs ->
  exists s' fx,
    feed s fs = Ok (s', fx) /\
    (datagrams fx = [] <->
     ~ (exists pre post,
          map voiced fs = pre ++ repeat true (Z.to_nat MIN_VOICE_FRAMES) ++ post)) /\
    (datagrams fx = [] -> isTransmitting s' = false).
Proof.
  intros Hr Htx Hvc Hok.
  destruct (reachable_ok s Hr) as [Hb _].
  destruct (feed_control fs s Hb Hok) as (s' & fx & Hfeed & Hc & Hn & _).
  exists s', fx. split; [exact Hfeed|].
  change (Z.to_nat MIN_VOICE_FRAMES) with 3%nat.
  assert (Hc0 : c_tx (control_of s) = false) by exact Htx.
  assert (Hv0 : 0 <= c_voice (control_of s) < MIN_VOICE_FRAMES)
    by (cbn [control_of c_voice]; rewrite Hvc; unfold MIN_VOICE_FRAMES; lia).
  assert (Hfwd : ~ (exists pre post, map voiced fs = pre ++ repeat true 3 ++ post) ->
                 numbering fx = [] /\ isTransmitting s' = false).
  { intros Hno.
    destruct (idle_without_three (map voiced fs) (control_of s) Hc0 Hv0 Hno)
      as [Hout Hidle].
    - intros (post & E). apply Hno. exists [], post.
      cbn [control_of c_voice] in E. rewrite Hvc in E. exact E.
    - split; [rewrite Hn; exact Hout|].
      change (isTransmitting s') with (c_tx (control_of s')). rewrite Hc. exact Hidle. }
  assert (Hback : datagrams fx = [] ->
                  ~ (exists pre post, map voiced fs = pre ++ repeat true 3 ++ post)).
  { intros Hd (pre & post & E). apply numbering_nil in Hd.
    rewrite Hn, E, control_run_app_snd in Hd.
    apply app_eq_nil in Hd. destruct Hd as [_ Hd].
    revert Hd. apply three_voiced_send.
    apply control_run_keeps_voice_bound. intros _. exact Hv0. }
  split.
  - split; [exact Hback|].
    intros Hno. apply numbering_nil. apply Hfwd. exact Hno.
  - intros Hd. apply Hfwd. apply Hback. exact Hd.
Qed.

(** X7. The detector is debounced.  From an idle state with the voice
    counter at zero (power-up, or right after a quiet frame), a sequence
    of frames sends a datagram if and only if somewhere in it three
    consecutive frames are voiced; shorter bursts of noise, however many,
    send nothing and leave the node idle. *)
Theorem X7_nothing_sent_without_three_voiced_frames :
  forall s fs,
    reachable s -> isTransmitting s = false -> voiceCounter s = 0 ->
    Forall frame_ok fs ->
    exists s' fx,
      feed s fs = Ok (s', fx) /\
      (datagrams fx = [] <->
       ~ (exists pre post,
            map voiced fs = pre ++ repeat true (Z.to_nat MIN_VOICE_FRAMES) ++ post)) /\
      (datagrams fx = [] -> isTransmitting s' = false).
Proof. intros s fs. exact (debounce s fs). Qed.

Lemma X7_debounce_witness :
  exists s' fx,
    feed initial_state stutter = Ok (s', fx) /\
    (datagrams fx = [] <->
     ~ (exists pre post,
          map voiced stutter = pre ++ repeat true (Z.to_nat MIN_VOICE_FRAMES) ++ post)) /\
    (datagrams fx = [] -> isTransmitting s' = false).
Proof.
  apply (X7_nothing_sent_without_three_voiced_frames initial_state stutter).
  - exact reachable_initial.
  - reflexivity.
  - reflexivity.
  - unfold stutter.
    repeat (constructor; [first [exact frame_ok_loud | exact frame_ok_quiet]|]).
    constructor.
Defined.

(** ** A frame, in full *)

Lemma feed_frame_full s pdm e :
  buffers_ok s -> capture_ok pdm ->
  let n := Z.quot (Z.of_nat (length pdm)) 2 in
  let r := vad_next (voiced (pdm, e)) (control_of s) in
  exists s1 s',
    onPDMdata pdm s = Ok s1 /\
    audioBuffer s1 = pdm ++ skipn (length pdm) (audioBuffer s) /\
    samplesRead s1 = n /\ 1 <= n /\
    control_of s1 = control_of s /\ sendBuffer s1 = sendBuffer s /\
    pending_voiced s1 = voiced (pdm, e) /\ buffers_ok s1 /\
    feed s [(pdm, e)] = Ok (s', wifi_log e ++ pass_effects e s1) /\
    control_of s' = fst r /\ buffers_ok s' /\
    samplesRead s' = n /\ audioReady s' = false /\
    lastActivityTime s'
    = (if voiced (pdm, e) then u32 (millis_vad e) else lastActivityTime s) /\
    sendBuffer s'
    = (if c_tx (fst r)
       then payload_bytes n pdm ++ skipn (length (payload_bytes n pdm)) (sendBuffer s)
       else sendBuffer s).
Proof.
  intros Hb Hok n r.
  destruct (onPDMdata_capture_ok pdm s Hok)
    as (s1 & H1 & Hab & Hsr & Hpos & Hr & Hc & Hsb & Hla).
  pose proof (onPDMdata_buffers _ _ _ H1 Hb) as Hb1.
  destruct (loop_audio e s1 Hr Hb1 Hpos)
    as (s2 & Hl & Hc2 & Hab2 & Hsr2 & Hr2 & Hb2 & Hla2 & Hsb2).
  pose proof (pending_voiced_capture pdm s s1 Hok H1 e) as Hv.
  rewrite Hv, Hc in Hc2. rewrite Hv, Hla in Hla2.
  rewrite Hv, Hc, Hsb, Hsr, Hab, payload_bytes_capture in Hsb2.
  fold n in Hsr. rewrite Hsr in Hpos, Hsr2.
  exists s1, s2.
  repeat (split; [assumption|]). split; [|repeat (split; [assumption|]); assumption].
  unfold feed, frame_events. cbn [flat_map fst snd app run step].
  rewrite H1. cbn [bind]. rewrite Hl. cbn [bind]. rewrite app_nil_r. reflexivity.
Qed.

(** ** The payload of the final packet *)








(** ** Announcements and final packets are balanced *)

Lemma count_effects_app p fx1 fx2 :
  count_effects p (fx1 ++ fx2) = count_effects p fx1 + count_effects p fx2.
Proof. unfold count_effects. rewrite filter_app, length_app. lia. Qed.

Lemma count_effects_wifi_log e :
  count_effects is_voice_start (wifi_log e) = 0 /\
  count_effects is_silence_end (wifi_log e) = 0 /\
  count_effects is_final_datagram (wifi_log e) = 0.
Proof. unfold wifi_log. destruct (wifi_connected e); repeat split. Qed.

Lemma count_effects_udp_log e :
  count_effects is_voice_start (udp_log e) = 0 /\
  count_effects is_silence_end (udp_log e) = 0 /\
  count_effects is_final_datagram (udp_log e) = 0.
Proof. unfold udp_log. destruct (udp_ok e); repeat split. Qed.

Lemma count_effects_cons p f fx :
  count_effects p (f :: fx) = (if p f then 1 else 0) + count_effects p fx.
Proof.
  unfold count_effects. cbn [filter]. destruct (p f); cbn [length]; lia.
Qed.

Lemma step_balance s ev s' fx :
  step s ev = Ok (s', fx) -> buffers_ok s -> counters_ok s ->
  count_effects is_voice_start fx + Z.b2z (isTransmitting s)
  = count_effects is_silence_end fx + Z.b2z (isTransmitting s') /\
  count_effects is_final_datagram fx = count_effects is_silence_end fx.
Proof.
  intros H Hb Hc.
  destruct (step_cases s ev s' fx H Hb)
    as [_ [(Hctl & _ & _ & Hfx)|(e & -> & Hr & Hpos & -> & Hctl)]].
  - destruct (control_of_eq s s' Hctl) as (_ & _ & -> & _).
    destruct Hfx as [-> | ->]; split; reflexivity.
  - destruct Hc as [Hps _].
    pose proof (pass_effects_shape e s Hps) as Hshape. cbv zeta in Hshape.
    change (isTransmitting s') with (c_tx (control_of s')). rewrite Hctl.
    destruct (count_effects_wifi_log e) as (W1 & W2 & W3).
    destruct (count_effects_udp_log e) as (U1 & U2 & U3).
    rewrite !count_effects_app, W1, W2, W3.
    destruct (isTransmitting s);
    destruct (c_tx (fst (vad_next (pending_voiced s) (control_of s)))).
    + destruct Hshape as (h & p & -> & _ & _ & He & _).
      rewrite !count_effects_cons, U1, U2, U3.
      cbn [is_voice_start is_silence_end is_final_datagram Z.b2z]. rewrite He. lia.
    + destruct Hshape as (h & p & -> & _ & _ & He & _).
      rewrite !count_effects_cons, !count_effects_app, U1, U2, U3.
      rewrite !count_effects_cons.
      cbn [is_voice_start is_silence_end is_final_datagram Z.b2z]. rewrite He.
      change (count_effects is_voice_start []) with 0.
      change (count_effects is_silence_end []) with 0.
      change (count_effects is_final_datagram []) with 0. lia.
    + destruct Hshape as (h & p & -> & _ & _ & He & _).
      rewrite !count_effects_cons, U1, U2, U3.
      cbn [is_voice_start is_silence_end is_final_datagram Z.b2z]. rewrite He. lia.
    + destruct Hshape as [-> _]. split; reflexivity.
Qed.

Lemma run_balance evs : forall s s' fx,
  run s evs = Ok (s', fx) -> buffers_ok s -> counters_ok s ->
  count_effects is_voice_start fx + Z.b2z (isTransmitting s)
  = count_effects is_silence_end fx + Z.b2z (isTransmitting s') /\
  count_effects is_final_datagram fx = count_effects is_silence_end fx.
Proof.
  induction evs as [|ev evs IH]; intros s s' fx H Hb Hc.
  - cbn [run] in H. injection H as <- <-. split; reflexivity.
  - destruct (run_cons s ev evs s' fx H) as (s1 & fx1 & fx2 & H1 & H2 & ->).
    destruct (step_balance s ev s1 fx1 H1 Hb Hc) as [A1 A2].
    destruct (step_cases s ev s1 fx1 H1 Hb) as [Hb1 _].
    pose proof (step_counters s ev s1 fx1 H1 Hb Hc) as Hc1.
    destruct (IH s1 s' fx2 H2 Hb1 Hc1) as [B1 B2].
    rewrite !count_effects_app. lia.
Qed.

(** X9. Announcements and final packets are balanced.  In any run from
    power-up the console shows one "VOZ DETECTADA" line per utterance and
    one "SILENCIO" line per ended utterance: the first count exceeds the
    second by one while the node is transmitting and equals it while it is
    idle; and exactly one end-flagged datagram was sent per "SILENCIO"
    line. *)
Theorem X9_announcements_are_balanced :
  forall evs s fx,
    run initial_state evs = Ok (s, fx) ->
    count_effects is_voice_start fx
    = count_effects is_silence_end fx + (if isTransmitting s then 1 else 0) /\
    count_effects is_final_datagram fx = count_effects is_silence_end fx.
Proof.
  intros evs s fx H.
  destruct (run_balance evs initial_state s fx H initial_buffers initial_counters)
    as [A B].
  split; [|exact B].
  change (Z.b2z (isTransmitting initial_state)) with 0 in A.
  destruct (isTransmitting s); cbn [Z.b2z] in A; lia.
Qed.

Lemma X9_announcements_witness :
  count_effects is_voice_start (effects_of (feed initial_state scenario))
  = count_effects is_silence_end (effects_of (feed initial_state scenario))
    + (if isTransmitting (final_state (feed initial_state scenario)) then 1 else 0) /\
  count_effects is_final_datagram (effects_of (feed initial_state scenario))
  = count_effects is_silence_end (effects_of (feed initial_state scenario)).
Proof.
  apply (X9_announcements_are_balanced (flat_map frame_events scenario)).
  exact scenario_run.
Defined.

(** ** The wire image of a datagram *)

Lemma byte_val_of_Z z : byte_val (byte_of_Z z) = z mod 2 ^ 8.
Proof.
  unfold byte_val, byte_of_Z, u8.
  pose proof (Z.mod_pos_bound z (2 ^ 8) ltac:(lia)) as Hr.
  destruct (Byte.of_N (Z.to_N (z mod 2 ^ 8))) as [b|] eqn:E.
  - rewrite (Byte.to_of_N _ E). lia.
  - apply Byte.of_N_None_iff in E. lia.
Qed.

Lemma le_value_le_bytes n : forall z,
  le_value (le_bytes n z) = z mod 2 ^ (8 * Z.of_nat n).
Proof.
  induction n as [|n IH]; intros z.
  - cbn. symmetry. apply Z.mod_1_r.
  - cbn [le_bytes le_value]. rewrite byte_val_of_Z, IH, Z.shiftr_div_pow2 by lia.
    replace (8 * Z.of_nat (S n)) with (8 + 8 * Z.of_nat n) by lia.
    rewrite Z.pow_add_r by lia.
    rewrite Z.rem_mul_r by lia. reflexivity.
Qed.

Lemma le_bytes_inj n z1 z2 :
  0 <= z1 < 2 ^ (8 * Z.of_nat n) -> 0 <= z2 < 2 ^ (8 * Z.of_nat n) ->
  le_bytes n z1 = le_bytes n z2 -> z1 = z2.
Proof.
  intros H1 H2 E. apply (f_equal le_value) in E.
  rewrite !le_value_le_bytes in E.
  rewrite !Z.mod_small in E by assumption. exact E.
Qed.

Lemma app_inj_length {A} (a a' b b' : list A) :
  length a = length a' -> a ++ b = a' ++ b' -> a = a' /\ b = b'.
Proof.
  revert a'. induction a as [|x a IH]; intros [|x' a'] Hlen E;
    try discriminate.
  - split; [reflexivity|exact E].
  - cbn [app] in E. injection E as -> E. injection Hlen as Hlen.
    destruct (IH a' Hlen E) as [-> ->]. split; reflexivity.
Qed.

Lemma header_bytes_inj h1 h2 :
  header_fits h1 -> header_fits h2 ->
  header_bytes h1 = header_bytes h2 -> h1 = h2.
Proof.
  intros (A1 & A2 & A3 & A4 & A5 & A6 & A7 & A8)
         (B1 & B2 & B3 & B4 & B5 & B6 & B7 & B8) E.
  unfold header_bytes in E.
  repeat match type of E with
  | ?a ++ _ = ?b ++ _ =>
      let Ha := fresh "E" in
      apply app_inj_length in E; [|rewrite !length_le_bytes; reflexivity];
      destruct E as [Ha E]
  end.
  destruct h1 as [a1 a2 a3 a4 a5 a6 a7 a8], h2 as [b1 b2 b3 b4 b5 b6 b7 b8].
  cbn [sequence timestamp device_id sample_rate samples_count
       checksum flags reserved] in *.
  apply le_bytes_inj in E0, E1, E2, E3, E4, E5, E6, E; try assumption.
  subst. reflexivity.
Qed.

Lemma datagram_bytes_inj h1 p1 h2 p2 :
  header_fits h1 -> header_fits h2 ->
  datagram_bytes h1 p1 = datagram_bytes h2 p2 -> h1 = h2 /\ p1 = p2.
Proof.
  intros F1 F2 E. unfold datagram_bytes in E.
  apply app_inj_length in E.
  - destruct E as [E ->]. split; [|reflexivity].
    apply header_bytes_inj; assumption.
  - apply Nat2Z.inj. rewrite !length_header_bytes. reflexivity.
Qed.

Lemma vad_next_flags v c sq fl :
  In (sq, fl) (snd (vad_next v c)) -> 0 <= fl < 4.
Proof.
  unfold vad_next.
  destruct v; destruct (c_tx c);
    repeat match goal with |- context [if ?b then _ else _] => destruct b end;
    cbn [snd In]; intros H; try contradiction;
    destruct H as [H|[]]; injection H as _ <-;
    try (destruct (first_flag_cases (c_seq c)) as [-> | ->]; cbn; lia); lia.
Qed.


Lemma pass_effects_fit e s : Forall effect_fits (pass_effects e s).
Proof.
  unfold pass_effects.
  destruct (snd (vad_next (pending_voiced s) (control_of s))) as [|[sq fl] l] eqn:E.
  - constructor.
  - assert (Hfl : 0 <= fl < 4).
    { apply (vad_next_flags (pending_voiced s) (control_of s) sq fl).
      rewrite E. left. reflexivity. }
    apply Forall_app. split.
    + match goal with |- context [if ?b then _ else _] => destruct b end;
        repeat constructor.
    + constructor.
      * cbn [effect_fits packet_with timestamp flags].
        split; [apply u32_range|exact Hfl].
      * apply Forall_app. split.
        -- unfold udp_log. destruct (udp_ok e); repeat constructor.
        -- match goal with |- context [if ?b then _ else _] => destruct b end;
             repeat constructor.
Qed.

Lemma step_effects_fit s ev s' fx :
  buffers_ok s -> step s ev = Ok (s', fx) ->
  buffers_ok s' /\ Forall effect_fits fx.
Proof.
  intros Hb H.
  destruct (step_cases s ev s' fx H Hb)
    as [Hb' [(_ & _ & _ & Hfx)|(e & _ & _ & _ & -> & _)]].
  - split; [exact Hb'|]. destruct Hfx as [-> | ->]; repeat constructor.
  - split; [exact Hb'|]. apply Forall_app. split.
    + unfold wifi_log. destruct (wifi_connected e); repeat constructor.
    + apply pass_effects_fit.
Qed.

Lemma In_datagrams h p fx : In (h, p) (datagrams fx) -> In (UdpDatagram h p) fx.
Proof.
  induction fx as [|f fx IH]; cbn [datagrams]; [intros []|].
  destruct f as [h' p'|m]; cbn [In].
  - intros [E|H]; [left; injection E as -> ->; reflexivity|right; exact (IH H)].
  - intros H. right. exact (IH H).
Qed.

Lemma run_headers_fit evs s fx h p :
  run initial_state evs = Ok (s, fx) -> In (h, p) (datagrams fx) ->
  header_fits h.
Proof.
  intros H Hin.
  pose proof (run_datagrams evs initial_state s fx H initial_buffers initial_counters)
    as Hok.
  rewrite Forall_forall in Hok. specialize (Hok (h, p) Hin).
  cbn [datagram_ok] in Hok.
  destruct Hok as (Hck & Hcnt & _ & Hsq & Hid & Hsr & Hres).
  destruct (run_invariant buffers_ok effect_fits step_effects_fit
              evs initial_state s fx initial_buffers H) as [_ Hfit].
  rewrite Forall_forall in Hfit.
  specialize (Hfit (UdpDatagram h p) (In_datagrams h p fx Hin)).
  cbn [effect_fits] in Hfit. destruct Hfit as [Hts Hfl].
  pose proof (calculateCRC16_range p (length p)) as Hcrc.
  unfold header_fits. rewrite Hck, Hid, Hsr, Hres.
  change (Z.quot PACKET_SIZE 2) with 240 in Hcnt.
  unfold DEVICE_ID, SAMPLE_RATE. repeat split; try lia.
Qed.

Lemma le_value_round n z :
  0 <= z < 2 ^ (8 * Z.of_nat n) -> le_value (le_bytes n z) = z.
Proof. intros H. rewrite le_value_le_bytes. apply Z.mod_small. exact H. Qed.

Lemma parse_header_bytes h (p : list byte) :
  header_fits h ->
  parse_header (datagram_bytes h p) = h /\
  skipn (Z.to_nat HEADER_SIZE) (datagram_bytes h p) = p.
Proof.
  intros (A1 & A2 & A3 & A4 & A5 & A6 & A7 & A8).
  destruct h as [a1 a2 a3 a4 a5 a6 a7 a8].
  cbn [sequence timestamp device_id sample_rate samples_count
       checksum flags reserved] in *.
  split; [|reflexivity].
  unfold parse_header, field, datagram_bytes, header_bytes.
  cbn [sequence timestamp device_id sample_rate samples_count
       checksum flags reserved le_bytes app skipn firstn].
  f_equal.
  - exact (le_value_round 4 a1 A1).
  - exact (le_value_round 4 a2 A2).
  - exact (le_value_round 2 a3 A3).
  - exact (le_value_round 2 a4 A4).
  - exact (le_value_round 2 a5 A5).
  - exact (le_value_round 2 a6 A6).
  - exact (le_value_round 1 a7 A7).
  - exact (le_value_round 1 a8 A8).
Qed.

(** X10. Nothing is lost in serialisation.  Every header the sketch sends
    has all eight fields within the widths of [struct AudioPacket]; for
    such a header, reading the 18 bytes written back by the offsets of the
    packed struct gives the values assigned, and what follows them is the
    payload; so two datagrams with the same wire image are the same
    datagram. *)
Theorem X10_wire_image_is_faithful :
  (forall evs s fx h p,
     run initial_state evs = Ok (s, fx) -> In (h, p) (datagrams fx) ->
     header_fits h) /\
  (forall h p,
     header_fits h ->
     parse_header (datagram_bytes h p) = h /\
     skipn (Z.to_nat HEADER_SIZE) (datagram_bytes h p) = p) /\
  (forall h1 p1 h2 p2,
     header_fits h1 -> header_fits h2 ->
     datagram_bytes h1 p1 = datagram_bytes h2 p2 -> h1 = h2 /\ p1 = p2).
Proof.
  split; [|split].
  - exact run_headers_fit.
  - exact parse_header_bytes.
  - exact datagram_bytes_inj.
Qed.

Lemma X10_wire_image_witness :
  header_fits (fst scenario_first) /\
  parse_header (datagram_bytes (fst scenario_first) (snd scenario_first))
  = fst scenario_first /\
  skipn (Z.to_nat HEADER_SIZE) (datagram_bytes (fst scenario_first) (snd scenario_first))
  = snd scenario_first.
Proof.
  assert (H : header_fits (fst scenario_first)).
  { apply (proj1 X10_wire_image_is_faithful (flat_map frame_events scenario)
             (final_state (feed initial_state scenario))
             (effects_of (feed initial_state scenario))
             (fst scenario_first) (snd scenario_first)).
    - exact scenario_run.
    - vm_compute. left. reflexivity. }
  split; [exact H|].
  exact (proj1 (proj2 X10_wire_image_is_faithful)
           (fst scenario_first) (snd scenario_first) H).
Defined.

(** ** What the checksum detects *)

Lemma lxor_range16 a b :
  0 <= a < 2 ^ 16 -> 0 <= b < 2 ^ 16 -> 0 <= Z.lxor a b < 2 ^ 16.
Proof.
  intros Ha Hb. rewrite <- (u16_small a Ha), <- (u16_small b Hb), <- u16_lxor.
  apply u16_range.
Qed.

Lemma crc_shift_kernel x : 0 <= x < 2 ^ 16 -> crc_shift x = 0 -> x = 0.
Proof.
  intros Hx. unfold crc_shift. rewrite land_1_odd, Z.bit0_odd.
  rewrite Z.shiftr_div_pow2 by lia. change (2 ^ 1) with 2.
  assert (Hh : 0 <= x / 2 < 2 ^ 15).
  { split; [apply Z.div_pos; lia|apply Z.div_lt_upper_bound; lia]. }
  destruct (Z.odd x) eqn:Hodd; cbn [negb].
  - rewrite u16_small by (apply lxor_range16; lia).
    intros H. apply Z.lxor_eq in H. lia.
  - rewrite u16_small by lia. intros H.
    pose proof (Z.div_mod x 2 ltac:(lia)) as Hdm.
    rewrite Zmod_odd, Hodd in Hdm. lia.
Qed.

Lemma crc_shift_inj a b :
  0 <= a < 2 ^ 16 -> 0 <= b < 2 ^ 16 -> crc_shift a = crc_shift b -> a = b.
Proof.
  intros Ha Hb E. apply Z.lxor_eq. apply crc_shift_kernel.
  - apply lxor_range16; assumption.
  - rewrite crc_shift_lxor, E. apply Z.lxor_nilpotent.
Qed.

Lemma crc_shifts_inj j : forall a b,
  0 <= a < 2 ^ 16 -> 0 <= b < 2 ^ 16 -> crc_shifts j a = crc_shifts j b -> a = b.
Proof.
  induction j as [|j IH]; intros a b Ha Hb E.
  - exact E.
  - cbn [crc_shifts] in E. apply crc_shift_inj; try assumption.
    apply IH; try apply crc_shift_range. exact E.
Qed.

Lemma byte_val_inj a b : byte_val a = byte_val b -> a = b.
Proof.
  unfold byte_val. intros E. apply N2Z.inj in E.
  pose proof (Byte.of_to_N a) as Ha. rewrite E, Byte.of_to_N in Ha.
  injection Ha as ->. reflexivity.
Qed.

Lemma byte_val_range16 b : 0 <= byte_val b < 2 ^ 16.
Proof. pose proof (byte_val_range b). lia. Qed.

Lemma crc_round_range crc b :
  0 <= crc < 2 ^ 16 -> 0 <= crc_shifts 8 (Z.lxor crc (byte_val b)) < 2 ^ 16.
Proof.
  intros H. apply crc_shifts_range. apply lxor_range16; [exact H|apply byte_val_range16].
Qed.

Lemma crc_fold_range q : forall crc,
  0 <= crc < 2 ^ 16 ->
  0 <= fold_left (fun crc b => crc_shifts 8 (Z.lxor crc (byte_val b))) q crc < 2 ^ 16.
Proof.
  induction q as [|b q IH]; intros crc H; [exact H|].
  cbn [fold_left]. apply IH. apply crc_round_range. exact H.
Qed.

Lemma crc_fold_inj q : forall c1 c2,
  0 <= c1 < 2 ^ 16 -> 0 <= c2 < 2 ^ 16 ->
  fold_left (fun crc b => crc_shifts 8 (Z.lxor crc (byte_val b))) q c1
  = fold_left (fun crc b => crc_shifts 8 (Z.lxor crc (byte_val b))) q c2 ->
  c1 = c2.
Proof.
  induction q as [|b q IH]; intros c1 c2 H1 H2 E; [exact E|].
  cbn [fold_left] in E.
  apply IH in E; try (apply crc_round_range; assumption).
  apply crc_shifts_inj in E;
    try (apply lxor_range16; [assumption|apply byte_val_range16]).
  apply (f_equal (fun x => Z.lxor x (byte_val b))) in E.
  rewrite !Z.lxor_assoc, !Z.lxor_nilpotent, !Z.lxor_0_r in E. exact E.
Qed.

Lemma round_spreads_all : forallb round_spreads all_u8 = true.
Proof. vm_compute. reflexivity. Qed.

Lemma lxor_range8 a b :
  0 <= a < 2 ^ 8 -> 0 <= b < 2 ^ 8 -> 0 <= Z.lxor a b < 2 ^ 8.
Proof.
  intros Ha Hb. split.
  - apply Z.lxor_nonneg. lia.
  - destruct (Z.eq_dec (Z.lxor a b) 0) as [->|Hnz]; [lia|].
    apply Z.log2_lt_pow2; [pose proof (proj2 (Z.lxor_nonneg a b)); lia|].
    eapply Z.le_lt_trans; [apply Z.log2_lxor; lia|].
    destruct (Z.eq_dec a 0) as [->|Ha0]; destruct (Z.eq_dec b 0) as [->|Hb0];
      cbn [Z.log2 Z.max]; try lia.
    + apply Z.max_lub_lt; [cbn; lia|apply Z.log2_lt_pow2; lia].
    + apply Z.max_lub_lt; [apply Z.log2_lt_pow2; lia|cbn; lia].
    + apply Z.max_lub_lt; apply Z.log2_lt_pow2; lia.
Qed.

Lemma lxor_swap x y u v : Z.lxor x u = Z.lxor y v -> Z.lxor x y = Z.lxor u v.
Proof.
  intros E. apply Z.bits_inj'. intros n _.
  apply (f_equal (fun z => Z.testbit z n)) in E.
  rewrite !Z.lxor_spec in *.
  destruct (Z.testbit x n), (Z.testbit y n), (Z.testbit u n), (Z.testbit v n);
    cbn in *; congruence.
Qed.

Lemma lxor_cancel_l c x y : Z.lxor (Z.lxor c x) (Z.lxor c y) = Z.lxor x y.
Proof.
  apply Z.bits_inj'. intros n _. rewrite !Z.lxor_spec.
  destruct (Z.testbit c n), (Z.testbit x n), (Z.testbit y n); reflexivity.
Qed.

Lemma round_spreads_byte d :
  0 <= d < 2 ^ 8 -> crc_shifts 8 d < 2 ^ 8 -> d = 0.
Proof.
  intros Hd Hlt.
  pose proof round_spreads_all as H1. rewrite forallb_forall in H1.
  specialize (H1 _ (in_all_u8 _ Hd)). unfold round_spreads in H1.
  apply orb_true_iff in H1. destruct H1 as [H1|H1].
  - apply Z.eqb_eq in H1. exact H1.
  - apply Z.leb_le in H1. exfalso. apply (Z.lt_irrefl (2 ^ 8)).
    eapply Z.le_lt_trans; [exact H1|exact Hlt].
Qed.

Lemma crc_shifts_0 j : crc_shifts j 0 = 0.
Proof.
  induction j as [|j IH]; [reflexivity|]. cbn [crc_shifts].
  assert (E : crc_shift 0 = 0) by (vm_compute; reflexivity).
  rewrite E. exact IH.
Qed.

(** Two rounds of the checksum from the same running value: the result
    tells the two bytes. *)
Lemma crc_two_rounds c a1 a2 b1 b2 :
  0 <= c < 2 ^ 16 ->
  crc_shifts 8 (Z.lxor (crc_shifts 8 (Z.lxor c (byte_val a1))) (byte_val a2))
  = crc_shifts 8 (Z.lxor (crc_shifts 8 (Z.lxor c (byte_val b1))) (byte_val b2)) ->
  a1 = b1 /\ a2 = b2.
Proof.
  intros Hc E.
  apply crc_shifts_inj in E;
    try (apply lxor_range16; [apply crc_round_range; exact Hc|apply byte_val_range16]).
  apply lxor_swap in E.
  rewrite <- (crc_shifts_lxor 8 (Z.lxor c (byte_val a1)) (Z.lxor c (byte_val b1))) in E.
  rewrite lxor_cancel_l in E.
  assert (Hd : 0 <= Z.lxor (byte_val a1) (byte_val b1) < 2 ^ 8)
    by (apply lxor_range8; apply byte_val_range).
  assert (Hd' : 0 <= Z.lxor (byte_val a2) (byte_val b2) < 2 ^ 8)
    by (apply lxor_range8; apply byte_val_range).
  assert (Hz : Z.lxor (byte_val a1) (byte_val b1) = 0).
  { apply round_spreads_byte; [exact Hd|]. rewrite E. exact (proj2 Hd'). }
  rewrite Hz in E.
  rewrite crc_shifts_0 in E.
  split.
  - apply byte_val_inj.
    apply (Z.lxor_eq (byte_val a1) (byte_val b1)). exact Hz.
  - apply byte_val_inj.
    apply (Z.lxor_eq (byte_val a2) (byte_val b2)). symmetry. exact E.
Qed.

Lemma fold_left_one {A B} (f : A -> B -> A) a c : fold_left f [a] c = f c a.
Proof. reflexivity. Qed.

Lemma fold_left_two {A B} (f : A -> B -> A) a b c :
  fold_left f [a; b] c = f (f c a) b.
Proof. reflexivity. Qed.

Lemma crc16_bitwise_window p m1 m2 q :
  length m1 = length m2 -> (length m1 <= 2)%nat ->
  crc16_bitwise (p ++ m1 ++ q) = crc16_bitwise (p ++ m2 ++ q) -> m1 = m2.
Proof.
  intros Hlen Hle E. unfold crc16_bitwise in E.
  rewrite !fold_left_app in E.
  set (F := fun crc b => crc_shifts 8 (Z.lxor crc (byte_val b))) in *.
  assert (Hc : 0 <= fold_left F p 0xFFFF < 2 ^ 16)
    by (apply crc_fold_range; lia).
  set (c := fold_left F p 0xFFFF) in *.
  apply crc_fold_inj in E; try (apply crc_fold_range; exact Hc).
  destruct m1 as [|a1 [|a2 [|a3 m1]]]; destruct m2 as [|b1 [|b2 [|b3 m2]]];
    cbn [length] in Hlen, Hle;
    try (exfalso; clear - Hlen Hle; first [discriminate Hlen | lia]).
  - reflexivity.
  - rewrite !fold_left_one in E. unfold F in E.
    apply crc_shifts_inj in E;
      try (apply lxor_range16; [exact Hc|apply byte_val_range16]).
    apply (f_equal (Z.lxor c)) in E. rewrite <- !Z.lxor_assoc in E.
    rewrite Z.lxor_nilpotent, !Z.lxor_0_l in E.
    apply byte_val_inj in E. rewrite E. reflexivity.
  - rewrite !fold_left_two in E. unfold F in E.
    destruct (crc_two_rounds c a1 a2 b1 b2 Hc E) as [-> ->]. reflexivity.
Qed.

(** X11. The checksum tells apart any two payloads that differ only
    within one byte or within two adjacent bytes: [calculateCRC16] of the
    two is different, whatever precedes and follows the changed bytes. *)
Theorem X11_checksum_detects_short_changes :
  forall p m1 m2 q : list byte,
    length m1 = length m2 -> (length m1 <= 2)%nat -> m1 <> m2 ->
    calculateCRC16 (p ++ m1 ++ q) (length (p ++ m1 ++ q))
    <> calculateCRC16 (p ++ m2 ++ q) (length (p ++ m2 ++ q)).
Proof.
  intros p m1 m2 q Hlen Hle Hne E. apply Hne.
  rewrite !calculateCRC16_bitwise in E.
  exact (crc16_bitwise_window p m1 m2 q Hlen Hle E).
Qed.

Lemma X11_checksum_witness :
  length [x33; x34] = length [x34; x33] /\
  calculateCRC16 ([x31; x32] ++ [x33; x34] ++ [x35])
                 (length ([x31; x32] ++ [x33; x34] ++ [x35]))
  <> calculateCRC16 ([x31; x32] ++ [x34; x33] ++ [x35])
                    (length ([x31; x32] ++ [x34; x33] ++ [x35])).
Proof.
  split; [reflexivity|].
  apply (X11_checksum_detects_short_changes [x31; x32] [x33; x34] [x34; x33] [x35]).
  - reflexivity.
  - cbn [length]. lia.
  - discriminate.
Defined.

(** ** The status report *)

Lemma u32_sub now last :
  0 <= now - last < 2 ^ 32 -> u32 (u32 now - u32 last) = now - last.
Proof.
  intros H. unfold u32.
  rewrite Zminus_mod_idemp_l, Zminus_mod_idemp_r. apply Z.mod_small. exact H.
Qed.

Lemma status_after_frame s pdm e rssi now :
  buffers_ok s -> capture_ok pdm ->
  0 <= now - millis_vad e < 2 ^ 32 ->
  exists s' fx,
    feed s [(pdm, e)] = Ok (s', fx) /\
    (voiced (pdm, e) = true ->
     status_idle_seconds (printStatus rssi now s') = (now - millis_vad e) / 1000) /\
    (voiced (pdm, e) = false ->
     status_idle_seconds (printStatus rssi now s')
     = status_idle_seconds (printStatus rssi now s)).
Proof.
  intros Hb Hok Hnow.
  destruct (feed_frame_full s pdm e Hb Hok)
    as (s1 & s' & _ & _ & _ & _ & _ & _ & _ & _ & Hfeed & _ & _ & _ & _ & Hla & _).
  exists s', (wifi_log e ++ pass_effects e s1). split; [exact Hfeed|].
  unfold printStatus. cbn [status_idle_seconds]. rewrite Hla.
  split; intros Hv; rewrite Hv; [|reflexivity].
  rewrite (u32_sub now (millis_vad e) Hnow). reflexivity.
Qed.

(** X12. The status report is right across the roll-over of the clock.
    After a voiced frame processed when [millis()] read [t0] (taken
    modulo 2^32), [printStatus] called when the clock reads [now] prints
    the whole seconds [(now - t0) / 1000], as long as less than 2^32 ms
    separate the two, even if the 32-bit clock wrapped in between; a
    quiet frame does not move the reference time.  The 10 s timer of
    [loop] that triggers the report is right across the roll-over in the
    same way. *)
Theorem X12_status_survives_clock_rollover :
  (forall s pdm e rssi now,
     buffers_ok s -> capture_ok pdm ->
     0 <= now - millis_vad e < 2 ^ 32 ->
     exists s' fx,
       feed s [(pdm, e)] = Ok (s', fx) /\
       (voiced (pdm, e) = true ->
        status_idle_seconds (printStatus rssi now s') = (now - millis_vad e) / 1000) /\
       (voiced (pdm, e) = false ->
        status_idle_seconds (printStatus rssi now s')
        = status_idle_seconds (printStatus rssi now s))) /\
  (forall now last,
     0 <= now - last < 2 ^ 32 ->
     status_due now (u32 last) = (now - last >? 10000)).
Proof.
  split.
  - exact status_after_frame.
  - intros now last H. unfold status_due. rewrite (u32_sub now last H). reflexivity.
Qed.

Lemma X12_status_witness :
  exists s' fx,
    feed initial_state [(loud, env_5s)] = Ok (s', fx) /\
    (voiced (loud, env_5s) = true ->
     status_idle_seconds (printStatus (-60) (2 ^ 32 + 1000) s')
     = (2 ^ 32 + 1000 - millis_vad env_5s) / 1000) /\
    (voiced (loud, env_5s) = false ->
     status_idle_seconds (printStatus (-60) (2 ^ 32 + 1000) s')
     = status_idle_seconds (printStatus (-60) (2 ^ 32 + 1000) initial_state)).
Proof.
  apply (proj1 X12_status_survives_clock_rollover
           initial_state loud env_5s (-60) (2 ^ 32 + 1000)).
  - exact initial_buffers.
  - exact frame_ok_loud.
  - vm_compute. split; [discriminate|reflexivity].
Defined.

(** ** Silence while idle *)

Lemma control_run_idle_silent n : forall c,
  c_tx c = false -> 0 <= c_silence c -> c_silence c + Z.of_nat n < 2 ^ 31 ->
  control_run (repeat false n) c
  = ({| c_silence := c_silence c + Z.of_nat n;
        c_voice := if (n =? 0)%nat then c_voice c else 0;
        c_tx := false;
        c_seq := c_seq c |}, []).
Proof.
  induction n as [|n IH]; intros c Htx Hsc Hlt.
  - cbn [repeat control_run Nat.eqb]. rewrite Z.add_0_r.
    destruct c as [sc vc tx sq]. cbn [c_tx c_silence c_voice c_seq] in *.
    rewrite Htx. reflexivity.
  - cbn [repeat control_run Nat.eqb]. rewrite (vad_next_idle_silent c Htx).
    rewrite i32_small by lia.
    rewrite IH; cbn [c_tx c_silence c_voice c_seq]; try lia; try reflexivity.
    cbn [app]. f_equal. f_equal; [lia|destruct (n =? 0)%nat; reflexivity].
Qed.

(** X13. In silence the idle node sends nothing, but it keeps counting.
    From an idle state, [n] quiet frames in a row produce no datagram and
    leave the node idle, and [silenceCounter], which only a voiced frame
    resets, has grown by exactly [n]; this holds for every [n] that keeps
    the counter below 2^31, the largest value an [int] can take. *)
Theorem X13_silence_counter_grows_while_idle :
  forall s fs,
    reachable s -> isTransmitting s = false -> 0 <= silenceCounter s ->
    Forall frame_ok fs -> Forall (fun f => voiced f = false) fs ->
    silenceCounter s + Z.of_nat (length fs) < 2 ^ 31 ->
    exists s' fx,
      feed s fs = Ok (s', fx) /\
      datagrams fx = [] /\ isTransmitting s' = false /\
      silenceCounter s' = silenceCounter s + Z.of_nat (length fs).
Proof.
  intros s fs Hr Htx Hsc Hok Hq Hlt.
  destruct (reachable_ok s Hr) as [Hb _].
  destruct (feed_control fs s Hb Hok) as (s' & fx & Hfeed & Hc & Hn & _).
  rewrite (map_voiced_const false fs Hq) in Hc, Hn.
  rewrite (control_run_idle_silent (length fs) (control_of s) Htx Hsc Hlt) in Hc, Hn.
  cbn [fst snd] in Hc, Hn.
  exists s', fx. split; [exact Hfeed|]. split; [apply numbering_nil; exact Hn|].
  change (isTransmitting s') with (c_tx (control_of s')).
  change (silenceCounter s') with (c_silence (control_of s')).
  rewrite Hc. split; reflexivity.
Qed.

Lemma X13_silence_counter_witness :
  exists s' fx,
    feed initial_state (repeat (quiet, env0) 12) = Ok (s', fx) /\
    datagrams fx = [] /\ isTransmitting s' = false /\
    silenceCounter s'
    = silenceCounter initial_state + Z.of_nat (length (repeat (quiet, env0) 12)).
Proof.
  apply (X13_silence_counter_grows_while_idle initial_state (repeat (quiet, env0) 12)).
  - exact reachable_initial.
  - reflexivity.
  - vm_compute. discriminate.
  - apply Forall_repeat_intro. exact frame_ok_quiet.
  - apply Forall_repeat_intro. exact voiced_quiet.
  - vm_compute. reflexivity.
Defined.

(** ** The older sketch: sizes, header and checksum *)

Lemma legacy_packetCount n :
  0 <= n -> Z.of_nat (Legacy.packetCount n) = (n + 127) / 128.
Proof.
  intros Hn. unfold Legacy.packetCount, Legacy.PACKET_SIZE.
  rewrite Z2Nat.id by (apply Z.quot_pos; lia).
  rewrite Z.quot_div_nonneg by lia.
  replace (n * 2 + 256 - 1) with (1 + (n + 127) * 2) by lia.
  change 256 with (2 * 128).
  rewrite <- Z.div_div by lia.
  rewrite Z.div_add by lia. change (1 / 2) with 0. reflexivity.
Qed.

Lemma legacy_length_header h : length (Legacy.header_bytes h) = 12%nat.
Proof.
  unfold Legacy.header_bytes. rewrite !length_app, !length_le_bytes. reflexivity.
Qed.

Lemma concat_headed {A} (hd : list A) (g : nat -> list A) k :
  concat (map (fun i => (if Nat.eqb i 0 then hd else []) ++ g i) (seq 0 (S k)))
  = hd ++ concat (map g (seq 0 (S k))).
Proof.
  cbn [seq map concat Nat.eqb]. rewrite <- app_assoc. f_equal. f_equal. f_equal.
  apply map_ext_in. intros i Hi. apply in_seq in Hi.
  destruct (Nat.eqb_spec i 0); [lia|reflexivity].
Qed.

Lemma legacy_wire millis (buf : list byte) n :
  0 <= n -> (Z.to_nat (n * 2) <= length buf)%nat ->
  concat (Legacy.payloads buf n) = firstn (Z.to_nat (n * 2)) buf /\
  Z.of_nat (length (Legacy.sendAudioData millis buf n)) = (n + 127) / 128 /\
  Forall (fun d => Z.of_nat (length d) <= 12 + Legacy.PACKET_SIZE)
         (Legacy.sendAudioData millis buf n) /\
  Z.of_nat (length (concat (Legacy.sendAudioData millis buf n)))
  = (if n =? 0 then 0 else 12) + n * 2 /\
  (n = 0 -> Legacy.sendAudioData millis buf n = []).
Proof.
  intros Hn Hlen.
  destruct (legacy_sends_every_sample millis buf n Hn Hlen)
    as (Hc & Hcl & Hall & Hk & _).
  split; [exact Hc|]. split; [rewrite Hk; apply legacy_packetCount; exact Hn|].
  split; [|split].
  - unfold Legacy.sendAudioData. apply Forall_forall. intros d Hd.
    apply in_map_iff in Hd. destruct Hd as (i & <- & Hi).
    rewrite length_app.
    assert (Hch : Z.of_nat (length (Legacy.chunk buf n i)) <= Legacy.PACKET_SIZE).
    { rewrite Forall_forall in Hall. apply Hall. unfold Legacy.payloads.
      apply in_map. exact Hi. }
    destruct (Nat.eqb i 0).
    + rewrite legacy_length_header. lia.
    + cbn [length]. lia.
  - destruct (Z.eqb_spec n 0) as [->|Hnz].
    + reflexivity.
    + unfold Legacy.sendAudioData.
      pose proof (legacy_packetCount n Hn) as Hpc.
      assert (Hpos : 1 <= (n + 127) / 128) by (apply Z.div_le_lower_bound; lia).
      destruct (Legacy.packetCount n) as [|k] eqn:Ek; [lia|].
      rewrite concat_headed, length_app, legacy_length_header.
      unfold Legacy.payloads in Hcl. rewrite Ek in Hcl. lia.
  - intros ->. reflexivity.
Qed.

(** X14. The older sketch sends a capture whole.  For a capture of [n]
    samples its [sendAudioData] sends ceil(n/128) datagrams whose sample
    bytes, put end to end, are exactly the [2n] captured bytes in order;
    only the first datagram carries the 12-byte header, so no datagram is
    longer than 268 bytes and [12 + 2n] bytes leave in all; and for a
    capture without a whole sample it sends nothing at all. *)
Theorem X14_legacy_sends_capture_whole :
  forall millis (buf : list byte) n,
    0 <= n -> (Z.to_nat (n * 2) <= length buf)%nat ->
    concat (Legacy.payloads buf n) = firstn (Z.to_nat (n * 2)) buf /\
    Z.of_nat (length (Legacy.sendAudioData millis buf n)) = (n + 127) / 128 /\
    Forall (fun d => Z.of_nat (length d) <= 12 + Legacy.PACKET_SIZE)
           (Legacy.sendAudioData millis buf n) /\
    Z.of_nat (length (concat (Legacy.sendAudioData millis buf n)))
    = (if n =? 0 then 0 else 12) + n * 2 /\
    (n = 0 -> Legacy.sendAudioData millis buf n = []).
Proof. intros millis buf n. exact (legacy_wire millis buf n). Qed.

Lemma X14_legacy_witness :
  concat (Legacy.payloads burst 256) = firstn (Z.to_nat (256 * 2)) burst /\
  Z.of_nat (length (Legacy.sendAudioData 0 burst 256)) = (256 + 127) / 128 /\
  Forall (fun d => Z.of_nat (length d) <= 12 + Legacy.PACKET_SIZE)
         (Legacy.sendAudioData 0 burst 256) /\
  Z.of_nat (length (concat (Legacy.sendAudioData 0 burst 256)))
  = (if 256 =? 0 then 0 else 12) + 256 * 2 /\
  (256 = 0 -> Legacy.sendAudioData 0 burst 256 = []).
Proof.
  apply (X14_legacy_sends_capture_whole 0 burst 256).
  - lia.
  - vm_compute. repeat constructor.
Defined.

Lemma fold_right_add_perm (l1 l2 : list Z) :
  Permutation l1 l2 -> fold_right Z.add 0 l1 = fold_right Z.add 0 l2.
Proof.
  induction 1 as [|x l l' _ IH|x y l|l l' l'' _ IH1 _ IH2]; cbn [fold_right].
  - reflexivity.
  - rewrite IH. reflexivity.
  - lia.
  - rewrite IH1. exact IH2.
Qed.

Lemma legacy_checksum_sum buf n :
  0 <= n < 2 ^ 17 ->
  Legacy.calculateChecksum buf n = magnitude_sum buf (Z.to_nat n) mod 2 ^ 16.
Proof.
  intros Hn. unfold Legacy.calculateChecksum.
  rewrite (energy_sum_exact buf n Hn).
  change 65536 with (2 ^ 16). apply u16_small. apply Z.mod_pos_bound. lia.
Qed.

(** X15. The checksum of the older sketch is the sum of the magnitudes
    of the samples modulo 65536 (its 32-bit accumulator cannot wrap for a
    buffer of fewer than 2^17 samples), so it cannot tell two captures
    apart whose samples have the same magnitudes in any order: swapping
    samples or changing their signs leaves it unchanged. *)
Theorem X15_legacy_checksum_ignores_order_and_sign :
  forall (b1 b2 : list byte) n,
    0 <= n < 2 ^ 17 ->
    Permutation (map Z.abs (samples_of b1 (Z.to_nat n)))
                (map Z.abs (samples_of b2 (Z.to_nat n))) ->
    Legacy.calculateChecksum b1 n = magnitude_sum b1 (Z.to_nat n) mod 2 ^ 16 /\
    Legacy.calculateChecksum b1 n = Legacy.calculateChecksum b2 n.
Proof.
  intros b1 b2 n Hn Hp.
  split; [apply legacy_checksum_sum; exact Hn|].
  rewrite !legacy_checksum_sum by exact Hn.
  unfold magnitude_sum. rewrite (fold_right_add_perm _ _ Hp). reflexivity.
Qed.

Lemma X15_legacy_checksum_witness :
  [x84; x03; x38; xff] <> [xc8; x00; x7c; xfc] /\
  Legacy.calculateChecksum [x84; x03; x38; xff] 2
  = magnitude_sum [x84; x03; x38; xff] (Z.to_nat 2) mod 2 ^ 16 /\
  Legacy.calculateChecksum [x84; x03; x38; xff] 2
  = Legacy.calculateChecksum [xc8; x00; x7c; xfc] 2.
Proof.
  split; [discriminate|].
  apply (X15_legacy_checksum_ignores_order_and_sign
           [x84; x03; x38; xff] [xc8; x00; x7c; xfc] 2).
  - lia.
  - vm_compute. apply perm_swap.
Defined.

(** ** The passenger sketch *)

Lemma passenger_length_header h : length (Passenger.header_bytes h) = 16%nat.
Proof.
  unfold Passenger.header_bytes. rewrite !length_app, !length_le_bytes. reflexivity.
Qed.

Lemma passenger_onPDMdata pdm s :
  1 <= Z.of_nat (length pdm) <= 2 * Passenger.BUFFER_SIZE ->
  Passenger.onPDMdata pdm s
  = Ok {| Passenger.audioBuffer := pdm ++ skipn (length pdm) (Passenger.audioBuffer s);
          Passenger.samplesRead := Z.quot (Z.of_nat (length pdm)) 2;
          Passenger.audioReady := true;
          Passenger.sequenceNumber := Passenger.sequenceNumber s |}.
Proof.
  intros Hlen. unfold Passenger.onPDMdata, Passenger.BUFFER_SIZE in *.
  destruct (Z.gtb_spec (Z.of_nat (length pdm)) 0); [|lia].
  destruct (Z.gtb_spec (Z.of_nat (length pdm)) (2 * 256)); [lia|].
  rewrite i32_small; [reflexivity|].
  pose proof (Z.quot_pos (Z.of_nat (length pdm)) 2 ltac:(lia) ltac:(lia)).
  pose proof (Z.mul_quot_le (Z.of_nat (length pdm)) 2 ltac:(lia) ltac:(lia)). lia.
Qed.

Lemma passenger_frame s pdm e :
  1 <= Z.of_nat (length pdm) <= 2 * Passenger.BUFFER_SIZE ->
  let n := Z.quot (Z.of_nat (length pdm)) 2 in
  exists s' h p,
    Passenger.run s [Passenger.Capture pdm; Passenger.Pass e]
    = Ok (s', Passenger.UdpDatagram h p ::
              (if Passenger.wifi_connected e then [] else [Passenger.WifiBegin])) /\
    p = firstn (Z.to_nat (n * 2)) pdm /\
    Z.of_nat (length p) = n * 2 /\
    Passenger.samples_count h = n /\
    Passenger.sequence h = Passenger.sequenceNumber s /\
    Passenger.magic h = 0xABCD1234 /\
    Passenger.device_id h = Passenger.DEVICE_ID /\
    Passenger.timestamp h = u32 (Passenger.millis e) /\
    Z.of_nat (length (Passenger.datagram_bytes (h, p))) = 16 + n * 2 /\
    Passenger.sequenceNumber s' = u32 (Passenger.sequenceNumber s + 1) /\
    Passenger.audioReady s' = false.
Proof.
  intros Hlen n.
  assert (Hq : 0 <= n /\ n * 2 <= Z.of_nat (length pdm)).
  { unfold n.
    pose proof (Z.quot_pos (Z.of_nat (length pdm)) 2 ltac:(lia) ltac:(lia)).
    pose proof (Z.mul_quot_le (Z.of_nat (length pdm)) 2 ltac:(lia) ltac:(lia)). lia. }
  unfold Passenger.BUFFER_SIZE in Hlen.
  cbn [Passenger.run Passenger.step].
  rewrite (passenger_onPDMdata pdm s) by (unfold Passenger.BUFFER_SIZE; lia).
  fold n. cbn [bind]. unfold Passenger.loop.
  cbn [Passenger.audioReady Passenger.sendAudioData Passenger.audioBuffer
       Passenger.samplesRead Passenger.sequenceNumber bind app].
  rewrite (i32_small (n * 2)) by lia.
  rewrite firstn_app_le by lia. rewrite app_nil_r.
  eexists _, _, _. split; [reflexivity|].
  cbn [Passenger.samples_count Passenger.sequence Passenger.magic
       Passenger.device_id Passenger.timestamp Passenger.sequenceNumber
       Passenger.audioReady].
  assert (Hp : Z.of_nat (length (firstn (Z.to_nat (n * 2)) pdm)) = n * 2)
    by (rewrite length_firstn; lia).
  repeat split; try reflexivity.
  - exact Hp.
  - apply u16_small. lia.
  - unfold Passenger.datagram_bytes. cbn [fst snd].
    rewrite length_app, passenger_length_header. lia.
Qed.

(** X16. The passenger sketch sends every capture whole and at once.  A
    capture of 1 to 512 bytes followed by a pass of the loop never faults
    and sends exactly one datagram: a 16-byte header with the magic
    number, the device id 2, the sample count and the running sequence
    number, followed by all captured samples (none for a capture of one
    byte).  A lost link does not hold the datagram back: the pass sends
    it and then calls [WiFi.begin]. *)
Theorem X16_passenger_sends_capture_whole :
  forall s pdm e,
    1 <= Z.of_nat (length pdm) <= 2 * Passenger.BUFFER_SIZE ->
    exists s' h p,
      Passenger.run s [Passenger.Capture pdm; Passenger.Pass e]
      = Ok (s', Passenger.UdpDatagram h p ::
                (if Passenger.wifi_connected e then [] else [Passenger.WifiBegin])) /\
      p = firstn (Z.to_nat (Z.quot (Z.of_nat (length pdm)) 2 * 2)) pdm /\
      Z.of_nat (length p) = Z.quot (Z.of_nat (length pdm)) 2 * 2 /\
      Passenger.samples_count h = Z.quot (Z.of_nat (length pdm)) 2 /\
      Passenger.sequence h = Passenger.sequenceNumber s /\
      Passenger.magic h = 0xABCD1234 /\
      Passenger.device_id h = Passenger.DEVICE_ID /\
      Passenger.timestamp h = u32 (Passenger.millis e) /\
      Z.of_nat (length (Passenger.datagram_bytes (h, p)))
      = 16 + Z.quot (Z.of_nat (length pdm)) 2 * 2 /\
      Passenger.sequenceNumber s' = u32 (Passenger.sequenceNumber s + 1) /\
      Passenger.audioReady s' = false.
Proof. intros s pdm e. exact (passenger_frame s pdm e). Qed.

Lemma X16_passenger_witness :
  exists s' h p,
    Passenger.run Passenger.initial_state
      [Passenger.Capture loud; Passenger.Pass passenger_env]
    = Ok (s', Passenger.UdpDatagram h p ::
              (if Passenger.wifi_connected passenger_env
               then [] else [Passenger.WifiBegin])) /\
    p = firstn (Z.to_nat (Z.quot (Z.of_nat (length loud)) 2 * 2)) loud /\
    Z.of_nat (length p) = Z.quot (Z.of_nat (length loud)) 2 * 2 /\
    Passenger.samples_count h = Z.quot (Z.of_nat (length loud)) 2 /\
    Passenger.sequence h = Passenger.sequenceNumber Passenger.initial_state /\
    Passenger.magic h = 0xABCD1234 /\
    Passenger.device_id h = Passenger.DEVICE_ID /\
    Passenger.timestamp h = u32 (Passenger.millis passenger_env) /\
    Z.of_nat (length (Passenger.datagram_bytes (h, p)))
    = 16 + Z.quot (Z.of_nat (length loud)) 2 * 2 /\
    Passenger.sequenceNumber s'
    = u32 (Passenger.sequenceNumber Passenger.initial_state + 1) /\
    Passenger.audioReady s' = false.
Proof.
  apply (X16_passenger_sends_capture_whole Passenger.initial_state loud passenger_env).
  vm_compute. split; discriminate.
Defined.

Lemma passenger_datagrams_app fx1 fx2 :
  Passenger.datagrams (fx1 ++ fx2)
  = Passenger.datagrams fx1 ++ Passenger.datagrams fx2.
Proof.
  induction fx1 as [|f fx1 IH]; [reflexivity|].
  destruct f; cbn [app Passenger.datagrams]; rewrite IH; reflexivity.
Qed.

Lemma passenger_step s ev s' fx :
  Passenger.step s ev = Ok (s', fx) ->
  (Passenger.datagrams fx = [] /\
   Passenger.sequenceNumber s' = Passenger.sequenceNumber s) \/
  (exists h p,
     Passenger.datagrams fx = [(h, p)] /\
     Passenger.sequence h = Passenger.sequenceNumber s /\
     Passenger.magic h = 0xABCD1234 /\
     Passenger.device_id h = Passenger.DEVICE_ID /\
     Passenger.sequenceNumber s' = u32 (Passenger.sequenceNumber s + 1)).
Proof.
  destruct ev as [pdm|e]; cbn [Passenger.step].
  - unfold Passenger.onPDMdata.
    repeat match goal with |- context [if ?b then _ else _] => destruct b end;
      cbn [bind]; try discriminate;
      intros H; injection H as <- <-; left; split; reflexivity.
  - unfold Passenger.loop. destruct (Passenger.audioReady s).
    + unfold Passenger.sendAudioData.
      cbn [Passenger.audioBuffer Passenger.samplesRead Passenger.sequenceNumber].
      intros H. injection H as <- <-. right. eexists _, _.
      cbn [app Passenger.datagrams].
      assert (E : Passenger.datagrams
                    (if Passenger.wifi_connected e then [] else [Passenger.WifiBegin])
                  = []) by (destruct (Passenger.wifi_connected e); reflexivity).
      rewrite E. repeat split; reflexivity.
    + intros H. injection H as <- <-. left.
      destruct (Passenger.wifi_connected e); split; reflexivity.
Qed.

Lemma passenger_run_numbering evs : forall s s' fx,
  Passenger.run s evs = Ok (s', fx) ->
  Passenger.sequenceNumber s = u32 (Passenger.sequenceNumber s) ->
  Passenger.sequenceNumber s'
  = u32 (Passenger.sequenceNumber s + Z.of_nat (length (Passenger.datagrams fx))) /\
  forall k h p,
    nth_error (Passenger.datagrams fx) k = Some (h, p) ->
    Passenger.sequence h = u32 (Passenger.sequenceNumber s + Z.of_nat k) /\
    Passenger.magic h = 0xABCD1234 /\
    Passenger.device_id h = Passenger.DEVICE_ID.
Proof.
  induction evs as [|ev evs IH]; intros s s' fx H Hs.
  - cbn [Passenger.run] in H. injection H as <- <-.
    cbn [Passenger.datagrams length Z.of_nat]. rewrite Z.add_0_r.
    split; [exact Hs|]. intros [|k] h p Hk; discriminate.
  - cbn [Passenger.run] in H.
    destruct (Passenger.step s ev) as [[s1 fx1]|f] eqn:H1; [|discriminate].
    cbn [bind] in H.
    destruct (Passenger.run s1 evs) as [[s2 fx2]|f] eqn:H2; [|discriminate].
    cbn [bind] in H. injection H as <- <-.
    rewrite passenger_datagrams_app.
    destruct (passenger_step s ev s1 fx1 H1)
      as [[Hd Hq]|(h0 & p0 & Hd & Hh & Hm & Hi & Hq)]; rewrite Hd.
    + assert (Hs1 : Passenger.sequenceNumber s1 = u32 (Passenger.sequenceNumber s1))
        by (rewrite Hq; exact Hs).
      destruct (IH s1 s2 fx2 H2 Hs1) as [A B]. rewrite Hq in A, B.
      cbn [app]. split; [exact A|exact B].
    + assert (Hs1 : Passenger.sequenceNumber s1 = u32 (Passenger.sequenceNumber s1))
        by (rewrite Hq, u32_idem; reflexivity).
      destruct (IH s1 s2 fx2 H2 Hs1) as [A B]. rewrite Hq in A, B.
      cbn [app length]. split.
      * rewrite A, u32_succ_u32. f_equal. lia.
      * intros [|k] h p Hk; cbn [nth_error] in Hk.
        -- injection Hk as <- <-. rewrite Z.add_0_r, Hh.
           split; [exact Hs|split; assumption].
        -- destruct (B k h p Hk) as (B1 & B2 & B3).
           split; [|split; assumption].
           rewrite B1, u32_succ_u32. f_equal. lia.
Qed.

(** X17. The passenger sketch numbers its datagrams from power-up.  In
    any run the [k]-th datagram sent carries the sequence number [k]
    modulo 2^32, the magic number and the device id 2, and the counter
    ends at the number of datagrams sent: there is no reset between
    utterances, unlike in the detector sketch. *)
Theorem X17_passenger_numbers_from_power_up :
  forall evs s fx,
    Passenger.run Passenger.initial_state evs = Ok (s, fx) ->
    Passenger.sequenceNumber s
    = u32 (Z.of_nat (length (Passenger.datagrams fx))) /\
    forall k h p,
      nth_error (Passenger.datagrams fx) k = Some (h, p) ->
      Passenger.sequence h = u32 (Z.of_nat k) /\
      Passenger.magic h = 0xABCD1234 /\
      Passenger.device_id h = Passenger.DEVICE_ID.
Proof.
  intros evs s fx H.
  exact (passenger_run_numbering evs Passenger.initial_state s fx H eq_refl).
Qed.

Lemma X17_passenger_numbers_witness :
  Passenger.sequenceNumber (fst (passenger_outcome
    (Passenger.run Passenger.initial_state passenger_events)))
  = u32 (Z.of_nat (length (Passenger.datagrams (snd (passenger_outcome
      (Passenger.run Passenger.initial_state passenger_events)))))) /\
  forall k h p,
    nth_error (Passenger.datagrams (snd (passenger_outcome
      (Passenger.run Passenger.initial_state passenger_events)))) k = Some (h, p) ->
    Passenger.sequence h = u32 (Z.of_nat k) /\
    Passenger.magic h = 0xABCD1234 /\
    Passenger.device_id h = Passenger.DEVICE_ID.
Proof.
  apply (X17_passenger_numbers_from_power_up passenger_events).
  vm_compute. reflexivity.
Defined.

(** ** The motion sensor sketch *)

Lemma imu_records_app fx1 fx2 :
  Imu.records (fx1 ++ fx2) = Imu.records fx1 ++ Imu.records fx2.
Proof.
  induction fx1 as [|f fx1 IH]; [reflexivity|].
  destruct f; cbn [app Imu.records]; rewrite IH; reflexivity.
Qed.

Lemma imu_debug_lines_app fx1 fx2 :
  Imu.debug_lines (fx1 ++ fx2) = Imu.debug_lines fx1 ++ Imu.debug_lines fx2.
Proof.
  induction fx1 as [|f fx1 IH]; [reflexivity|].
  destruct f; cbn [app Imu.debug_lines]; rewrite IH; reflexivity.
Qed.

Lemma imu_record_ok d :
  Imu.marker d = u32 0xFFFFFFFE -> Imu.record_ok (Imu.data_bytes d).
Proof.
  intros Hm. unfold Imu.record_ok, Imu.data_bytes. split.
  - rewrite !length_app, !length_le_bytes. reflexivity.
  - rewrite Hm. cbn [le_bytes app skipn]. vm_compute. reflexivity.
Qed.

(** What a pass does, by cases: it is held back by the rate limit, it
    finds no reading, or it writes one record. *)
Lemma imu_loop_cases e s :
  let past := negb (u32 (u32 (Imu.millis_test e) - Imu.lastRead s) <? 10) in
  (Imu.records (snd (Imu.loop e s)) = [] /\
   Imu.debug_lines (snd (Imu.loop e s)) = [] /\
   Imu.readCount (fst (Imu.loop e s)) = Imu.readCount s /\
   Imu.lastRead (fst (Imu.loop e s))
   = (if past then u32 (Imu.millis_set e) else Imu.lastRead s)) \/
  (exists d,
     past = true /\
     Imu.records (snd (Imu.loop e s)) = [Imu.data_bytes d] /\
     Imu.marker d = u32 0xFFFFFFFE /\
     Imu.debug_lines (snd (Imu.loop e s))
     = (if Z.rem (i32 (Imu.readCount s + 1)) 100 =? 0
        then [i32 (Imu.readCount s + 1)] else []) /\
     Imu.readCount (fst (Imu.loop e s)) = i32 (Imu.readCount s + 1) /\
     Imu.lastRead (fst (Imu.loop e s)) = u32 (Imu.millis_set e)).
Proof.
  intros past. unfold past, Imu.loop.
  destruct (u32 (u32 (Imu.millis_test e) - Imu.lastRead s) <? 10); cbn [negb].
  - left. repeat split.
  - destruct (Imu.accelerationAvailable e && Imu.gyroscopeAvailable e).
    + destruct (Imu.readAcceleration e) as [[[x y] z]|]; [|left; repeat split].
      destruct (Imu.readGyroscope e) as [[[p q] r]|]; [|left; repeat split].
      right. eexists. cbn [fst snd Imu.readCount Imu.lastRead Imu.records].
      split; [reflexivity|]. split.
      * destruct (Z.rem (i32 (Imu.readCount s + 1)) 100 =? 0); reflexivity.
      * split; [reflexivity|]. split; [|split; reflexivity].
        cbn [Imu.debug_lines].
        destruct (Z.rem (i32 (Imu.readCount s + 1)) 100 =? 0); reflexivity.
    + left. repeat split.
Qed.

Lemma imu_run_cons e es s :
  Imu.run s (e :: es)
  = (fst (Imu.run (fst (Imu.loop e s)) es),
     snd (Imu.loop e s) ++ snd (Imu.run (fst (Imu.loop e s)) es)).
Proof.
  cbn [Imu.run]. destruct (Imu.loop e s) as [s1 fx1]. cbn [fst snd].
  destruct (Imu.run s1 es) as [s2 fx2]. reflexivity.
Qed.

Lemma imu_run_records es : forall s,
  0 <= Imu.readCount s ->
  Imu.readCount s + Z.of_nat (length (Imu.records (snd (Imu.run s es)))) < 2 ^ 31 ->
  Imu.readCount (fst (Imu.run s es))
  = Imu.readCount s + Z.of_nat (length (Imu.records (snd (Imu.run s es)))) /\
  Forall Imu.record_ok (Imu.records (snd (Imu.run s es))) /\
  Imu.debug_lines (snd (Imu.run s es))
  = filter (fun k => Z.rem k 100 =? 0)
      (z_range (Imu.readCount s + 1) (length (Imu.records (snd (Imu.run s es))))).
Proof.
  induction es as [|e es IH]; intros s H0 Hlt.
  - cbn. split; [lia|]. split; [constructor|reflexivity].
  - rewrite imu_run_cons in *. cbn [fst snd] in *.
    rewrite imu_records_app, imu_debug_lines_app, length_app in *.
    destruct (imu_loop_cases e s) as [(Hr & Hd & Hc & _)|(d & _ & Hr & Hm & Hd & Hc & _)];
      rewrite Hr in *; cbn [length app Nat.add] in *.
    + rewrite Hd. cbn [app].
      destruct (IH (fst (Imu.loop e s))) as (A & B & C); rewrite ?Hc; try lia.
      rewrite Hc in A, C. split; [lia|]. split; [exact B|exact C].
    + rewrite i32_small in Hc, Hd by lia. rewrite Hd.
      destruct (IH (fst (Imu.loop e s))) as (A & B & C); rewrite ?Hc; try lia.
      rewrite Hc in A, C. split; [lia|]. split.
      * constructor; [apply imu_record_ok; exact Hm|exact B].
      * cbn [z_range filter]. rewrite C.
        destruct (Z.rem (Imu.readCount s + 1) 100 =? 0); reflexivity.
Qed.

(** X18. The serial stream of the motion sensor sketch.  In any run from
    power-up that writes fewer than 2^31 records, every record written is
    28 bytes long and ends with the marker bytes FE FF FF FF, the counter
    [readCount] is the number of records written, and the debug lines,
    printed on the same serial line, are exactly those of the records
    number 100, 200, 300, ..., in order. *)
Theorem X18_imu_records_and_debug_lines :
  forall es,
    Z.of_nat (length (Imu.records (snd (Imu.run Imu.initial_state es)))) < 2 ^ 31 ->
    Imu.readCount (fst (Imu.run Imu.initial_state es))
    = Z.of_nat (length (Imu.records (snd (Imu.run Imu.initial_state es)))) /\
    Forall Imu.record_ok (Imu.records (snd (Imu.run Imu.initial_state es))) /\
    Imu.debug_lines (snd (Imu.run Imu.initial_state es))
    = filter (fun k => Z.rem k 100 =? 0)
        (z_range 1 (length (Imu.records (snd (Imu.run Imu.initial_state es))))).
Proof.
  intros es Hlt.
  exact (imu_run_records es Imu.initial_state (Z.le_refl 0) Hlt).
Qed.

Lemma X18_imu_records_witness :
  Imu.readCount (fst (Imu.run Imu.initial_state Imu.readings))
  = Z.of_nat (length (Imu.records (snd (Imu.run Imu.initial_state Imu.readings)))) /\
  Forall Imu.record_ok (Imu.records (snd (Imu.run Imu.initial_state Imu.readings))) /\
  Imu.debug_lines (snd (Imu.run Imu.initial_state Imu.readings))
  = filter (fun k => Z.rem k 100 =? 0)
      (z_range 1 (length (Imu.records (snd (Imu.run Imu.initial_state Imu.readings))))).
Proof.
  apply (X18_imu_records_and_debug_lines Imu.readings).
  vm_compute. reflexivity.
Defined.

Lemma imu_spacing es : forall s L t,
  Imu.lastRead s = u32 L -> 0 <= t - L < 2 ^ 31 + 10 -> Imu.ticking t es ->
  Imu.spaced (Imu.writers s es) /\
  match Imu.writers s es with
  | [] => True
  | w :: _ => 10 <= Imu.millis_test w - L
  end.
Proof.
  induction es as [|e es IH]; intros s L t HL Ht Htick.
  - split; exact I.
  - cbn [Imu.ticking] in Htick. destruct Htick as (HT & Hgap & Hset & Hrest).
    assert (Hsub : u32 (u32 (Imu.millis_test e) - Imu.lastRead s)
                   = Imu.millis_test e - L)
      by (rewrite HL; apply u32_sub; lia).
    cbn [Imu.writers].
    pose proof (imu_loop_cases e s) as Hcases. cbv zeta in Hcases.
    rewrite Hsub in Hcases.
    destruct Hcases as [(Hr & _ & _ & Hl)|(d & Hpast & Hr & _ & _ & _ & Hl)];
      rewrite Hr; cbn [app].
    + destruct (Z.ltb_spec (Imu.millis_test e - L) 10) as [Hlim|Hpast];
        cbn [negb] in Hl.
      * rewrite HL in Hl.
        exact (IH (fst (Imu.loop e s)) L (Imu.millis_set e) Hl ltac:(lia) Hrest).
      * destruct (IH (fst (Imu.loop e s)) (Imu.millis_set e) (Imu.millis_set e)
                    Hl ltac:(lia) Hrest) as [A B].
        split; [exact A|].
        destruct (Imu.writers (fst (Imu.loop e s)) es) as [|w ws]; [exact I|lia].
    + destruct (Z.ltb_spec (Imu.millis_test e - L) 10) as [Hlim|Hge];
        [discriminate|].
      destruct (IH (fst (Imu.loop e s)) (Imu.millis_set e) (Imu.millis_set e)
                  Hl ltac:(lia) Hrest) as [A B].
      split; [|exact Hge].
      cbn [Imu.spaced]. split; [|exact A].
      destruct (Imu.writers (fst (Imu.loop e s)) es) as [|w ws]; [exact I|exact B].
Qed.

Lemma imu_writers_in es : forall s w, In w (Imu.writers s es) -> In w es.
Proof.
  induction es as [|e es IH]; intros s w; cbn [Imu.writers]; [intros []|].
  intros H. apply in_app_or in H. destruct H as [H|H].
  - destruct (Imu.records (snd (Imu.loop e s))); [destruct H|].
    destruct H as [<-|[]]. left. reflexivity.
  - right. exact (IH _ w H).
Qed.

Lemma imu_ticking_in es : forall t e,
  Imu.ticking t es -> In e es -> Imu.millis_test e <= Imu.millis_set e.
Proof.
  induction es as [|e0 es IH]; intros t e Ht; [intros []|].
  cbn [Imu.ticking] in Ht. destruct Ht as (HT & _ & _ & Hrest).
  intros [<-|Hin]; [lia|exact (IH _ e Hrest Hin)].
Qed.

Lemma imu_spaced_nth ws : forall L,
  Imu.spaced ws ->
  (forall w, In w ws -> Imu.millis_test w <= Imu.millis_set w) ->
  match ws with [] => True | w :: _ => 10 <= Imu.millis_test w - L end ->
  forall k w, nth_error ws k = Some w ->
    L + 10 * (Z.of_nat k + 1) <= Imu.millis_test w.
Proof.
  induction ws as [|w1 ws IH]; intros L Hsp Hle Hhead k w Hk.
  - destruct k; discriminate.
  - destruct k as [|k]; cbn [nth_error] in Hk.
    + injection Hk as <-. cbn [Z.of_nat]. lia.
    + cbn [Imu.spaced] in Hsp. destruct Hsp as [Hnext Hsp].
      pose proof (Hle w1 (or_introl eq_refl)) as H1.
      assert (Hhead' : match ws with
                       | [] => True
                       | w2 :: _ => 10 <= Imu.millis_test w2 - (L + 10)
                       end).
      { destruct ws as [|w2 ws']; [exact I|]. lia. }
      pose proof (IH (L + 10) Hsp (fun x Hx => Hle x (or_intror Hx)) Hhead' k w Hk).
      lia.
Qed.

(** X19. The motion sensor sketch writes at most one record every 10 ms,
    also across the roll-over of the 32-bit clock.  If the clock readings
    of a run from power-up are times that never go back, with consecutive
    readings less than 2^31 - 10 ms apart, then each pass that writes a
    record starts at least 10 ms after the previous writing pass set
    [lastRead], and the record number [k] (counted from 1) is not written
    before the time 10 k ms. *)
Theorem X19_imu_rate_is_limited :
  forall es,
    Imu.ticking 0 es ->
    Imu.spaced (Imu.writers Imu.initial_state es) /\
    forall k w,
      nth_error (Imu.writers Imu.initial_state es) k = Some w ->
      10 * (Z.of_nat k + 1) <= Imu.millis_test w.
Proof.
  intros es Ht.
  destruct (imu_spacing es Imu.initial_state 0 0 eq_refl ltac:(lia) Ht) as [A B].
  split; [exact A|]. intros k w Hk.
  assert (Hhead : match Imu.writers Imu.initial_state es with
                  | [] => True
                  | w0 :: _ => 10 <= Imu.millis_test w0 - 0
                  end) by exact B.
  pose proof (imu_spaced_nth (Imu.writers Imu.initial_state es) 0 A
                (fun x Hx => imu_ticking_in es 0 x Ht
                               (imu_writers_in es Imu.initial_state x Hx))
                Hhead k w Hk).
  lia.
Qed.

Lemma X19_imu_rate_witness :
  Imu.spaced (Imu.writers Imu.initial_state Imu.readings) /\
  forall k w,
    nth_error (Imu.writers Imu.initial_state Imu.readings) k = Some w ->
    10 * (Z.of_nat k + 1) <= Imu.millis_test w.
Proof.
  apply (X19_imu_rate_is_limited Imu.readings).
  vm_compute. repeat split; discriminate.
Defined.
